(** * Audio-Scriber: the transcription pipeline and the recordings store

    A shallow embedding of [services/geminiService.ts] ([getAudioDuration],
    [processAudio]), of [utils.ts] ([blobToBase64]) and of [db.ts]
    ([getRecordingsFromDB]), together with the platform operations they
    rely on ([Blob.slice], [Array.prototype.join], [String.prototype.trim],
    [JSON.parse], object spread, [Array.prototype.sort]).

    Conventions.
    - A JavaScript number is a [number]: an exact rational, an infinity or
      NaN.  Finite results are kept reduced ([Qred]), so equal numbers are
      equal terms.  The rounding of binary64 and the sign of zero are not
      represented.
    - A JavaScript string is a [jsstring], the list of its UTF-16 code units.
    - The remote model, the file reader and the media element are an
      environment [Env] of oracles; a run records what it does in a trace
      of [Event]s.
    - The [for] loop of [processAudio] takes fuel, one unit for each test
      of its condition; a run that needs more ends as [OutOfFuel]. *)

From Stdlib Require Import Ascii String DecimalString.
From Stdlib Require Import ZArith QArith Qround List Bool Lia.
From Stdlib Require Import Sorted Permutation.
Import ListNotations.

Local Open Scope Z_scope.

(** ** JavaScript numbers *)

Inductive number : Type :=
| Finite (q : Q)
| PosInfinity
| NegInfinity
| NaN.

Definition num (z : Z) : number := Finite (inject_Z z).

Definition Qlt_bool (a b : Q) : bool := negb (Qle_bool b a).

(** [a <= b]; every comparison with NaN is false. *)
Definition num_le (a b : number) : bool :=
  match a, b with
  | NaN, _ | _, NaN => false
  | NegInfinity, _ => true
  | _, PosInfinity => true
  | Finite x, Finite y => Qle_bool x y
  | _, _ => false
  end.

(** [a < b]. *)
Definition num_lt (a b : number) : bool :=
  match a, b with
  | NaN, _ | _, NaN => false
  | Finite x, Finite y => Qlt_bool x y
  | NegInfinity, NegInfinity => false
  | NegInfinity, _ => true
  | PosInfinity, _ => false
  | Finite _, PosInfinity => true
  | Finite _, NegInfinity => false
  end.

(** [a / b]. *)
Definition num_div (a b : number) : number :=
  match a, b with
  | NaN, _ | _, NaN => NaN
  | Finite x, Finite y =>
      if Qeq_bool y 0 then
        if Qeq_bool x 0 then NaN
        else if Qlt_bool 0 x then PosInfinity else NegInfinity
      else Finite (Qred (x / y))
  | Finite _, _ => Finite 0
  | PosInfinity, Finite y => if Qle_bool 0 y then PosInfinity else NegInfinity
  | NegInfinity, Finite y => if Qle_bool 0 y then NegInfinity else PosInfinity
  | _, _ => NaN
  end.

(** [a * b]. *)
Definition num_mul (a b : number) : number :=
  match a, b with
  | NaN, _ | _, NaN => NaN
  | Finite x, Finite y => Finite (Qred (x * y))
  | Finite x, PosInfinity | PosInfinity, Finite x =>
      if Qeq_bool x 0 then NaN
      else if Qlt_bool 0 x then PosInfinity else NegInfinity
  | Finite x, NegInfinity | NegInfinity, Finite x =>
      if Qeq_bool x 0 then NaN
      else if Qlt_bool 0 x then NegInfinity else PosInfinity
  | PosInfinity, PosInfinity | NegInfinity, NegInfinity => PosInfinity
  | _, _ => NegInfinity
  end.

(** [a + b]. *)
Definition num_add (a b : number) : number :=
  match a, b with
  | NaN, _ | _, NaN => NaN
  | Finite x, Finite y => Finite (Qred (x + y))
  | PosInfinity, NegInfinity | NegInfinity, PosInfinity => NaN
  | PosInfinity, _ | _, PosInfinity => PosInfinity
  | _, _ => NegInfinity
  end.

(** [Math.ceil]. *)
Definition Math_ceil (a : number) : number :=
  match a with
  | Finite x => num (Qceiling x)
  | _ => a
  end.

(** [Math.round]: the nearest integer, a tie going up. *)
Definition Math_round (a : number) : number :=
  match a with
  | Finite x => num (Qfloor (x + (1 # 2)))
  | _ => a
  end.

(** Conversion of an argument declared [[Clamp] long long] (Web IDL), as the
    arguments of [Blob.slice] are: NaN becomes 0, the value is clamped to
    the range of the type and rounded to the nearest integer, a tie going
    to the even one. *)
Definition round_half_even (x : Q) : Z :=
  let f := Qfloor x in
  let r := (x - inject_Z f)%Q in
  if Qlt_bool r (1 # 2) then f
  else if Qlt_bool (1 # 2) r then f + 1
  else if Z.even f then f else f + 1.

Definition LLONG_MIN : Z := - 2 ^ 63.
Definition LLONG_MAX : Z := 2 ^ 63 - 1.

Definition toClampedLongLong (a : number) : Z :=
  match a with
  | NaN => 0
  | PosInfinity => LLONG_MAX
  | NegInfinity => LLONG_MIN
  | Finite x => Z.min (Z.max (round_half_even x) LLONG_MIN) LLONG_MAX
  end.

(** ** JavaScript strings *)

Definition jsstring : Type := list N.

(** The code units of an ASCII literal. *)
Definition u16 (s : string) : jsstring :=
  map N_of_ascii (list_ascii_of_string s).

(** [String(n)] for a non-negative integer. *)
Definition toString (n : Z) : jsstring :=
  u16 (NilZero.string_of_uint (N.to_uint (Z.to_N n))).

(** WhiteSpace and LineTerminator code units (ECMA-262 12.2, 12.3). *)
Definition isWhiteSpace (c : N) : bool :=
  ((9 <=? c) && (c <=? 13) || (c =? 32) || (c =? 160) || (c =? 5760)
   || (8192 <=? c) && (c <=? 8202) || (c =? 8232) || (c =? 8233)
   || (c =? 8239) || (c =? 8287) || (c =? 12288) || (c =? 65279))%N.

Fixpoint trimStart (s : jsstring) : jsstring :=
  match s with
  | c :: s' => if isWhiteSpace c then trimStart s' else s
  | [] => []
  end.

Definition trimEnd (s : jsstring) : jsstring := rev (trimStart (rev s)).

(** [String.prototype.trim]. *)
Definition trim (s : jsstring) : jsstring := trimEnd (trimStart s).

(** Truthiness of a string: the empty string is the only falsy one. *)
Definition truthy (s : jsstring) : bool :=
  match s with [] => false | _ => true end.

(** [Array.prototype.join] on an array of strings. *)
Fixpoint join (sep : jsstring) (parts : list jsstring) : jsstring :=
  match parts with
  | [] => []
  | [p] => p
  | p :: rest => p ++ sep ++ join sep rest
  end.

(** ** Blobs *)

Record Blob : Type := mkBlob {
  bytes : list Byte.byte;
  type : jsstring
}.

Definition size (b : Blob) : Z := Z.of_nat (length (bytes b)).

(** The byte range selected by [slice(start, end)] on a blob of [sz] bytes
    (File API, slice blob): a negative position counts from the end, every
    position is clamped to [0, sz], and the span is never negative. *)
Definition relativePos (sz pos : Z) : Z :=
  if pos <? 0 then Z.max (sz + pos) 0 else Z.min pos sz.

Definition sliceRange (sz start_ end_ : Z) : Z * Z :=
  let relativeStart := relativePos sz start_ in
  let relativeEnd := relativePos sz end_ in
  let span := Z.max (relativeEnd - relativeStart) 0 in
  (relativeStart, relativeStart + span).

(** The content type of a slice: empty when a code unit lies outside
    U+0020..U+007E, lower-cased otherwise. *)
Definition toLower (c : N) : N :=
  if ((65 <=? c) && (c <=? 90))%N then (c + 32)%N else c.

Definition normalizeType (t : jsstring) : jsstring :=
  if forallb (fun c => (32 <=? c) && (c <=? 126))%N t then map toLower t
  else [].

(** [blob.slice(start, end, contentType)]. *)
Definition slice (b : Blob) (start_ end_ : number) (contentType : jsstring)
  : Blob :=
  let '(lo, hi) :=
    sliceRange (size b) (toClampedLongLong start_) (toClampedLongLong end_) in
  {| bytes := firstn (Z.to_nat (hi - lo)) (skipn (Z.to_nat lo) (bytes b));
     type := normalizeType contentType |}.

(** [s.split(sep)] for a separator of one code unit. *)
Fixpoint split (sep : N) (s : jsstring) : list jsstring :=
  match s with
  | [] => [[]]
  | c :: s' =>
      if (c =? sep)%N then [] :: split sep s'
      else match split sep s' with
           | p :: ps => (c :: p) :: ps
           | [] => [[c]]
           end
  end.

(** ** The environment, traces and the monad of asynchronous code *)

(** What can be thrown, or be the reason of a rejected promise. *)
Inductive exn : Type :=
| JsError (message : jsstring)      (* [new Error(message)] *)
| ReaderErrorEvent                  (* the event [reader.onerror] passes on *)
| ApiError (reason : jsstring)      (* a rejected [generateContent] *)
| SyntaxError                       (* thrown by [JSON.parse] *)
| DOMException (name : jsstring).   (* thrown by the platform *)

(** What the audio element fires once its [src] is set. *)
Inductive MediaEvent : Type :=
| loadedmetadata (duration : number)
| error.

(** How a [FileReader] ends after [readAsDataURL]: [loadend] with a string
    result, [loadend] with a result that is no string, or [error]. *)
Inductive ReaderOutcome : Type :=
| LoadEndString (result : jsstring)
| LoadEndOther
| ReaderFails.

(** The two requests [processAudio] sends to [ai.models.generateContent]:
    audio with an instruction, and a prompt with the response schema. *)
#[warnings="-register-all"]
Inductive Schema : Type :=
| SString (description : option jsstring)
| SArray (description : option jsstring) (items : Schema)
| SObject (properties : list (jsstring * Schema)) (required : list jsstring).

Inductive Request : Type :=
| AudioRequest (model mimeType : jsstring) (data : option jsstring)
               (text : jsstring)
| SchemaRequest (model contents responseMimeType : jsstring)
                (responseSchema : Schema).

Inductive Response : Type :=
| Responds (text : jsstring)
| Rejects (reason : jsstring).

Record Env : Type := mkEnv {
  (** the events of the audio element loading a blob, in order *)
  media : Blob -> list MediaEvent;
  (** the end of a read of a blob *)
  fileReader : Blob -> ReaderOutcome;
  (** the answer of the remote model to the [k]-th call of the run *)
  remote : nat -> Request -> Response
}.

Inductive Event : Type :=
| OnProgress (message : jsstring) (progress : number)
| CreateObjectURL (b : Blob)
| RevokeObjectURL (b : Blob)
| ReadAsDataURL (b : Blob)
| GenerateContent (req : Request)
| ConsoleError (message : jsstring).

Definition trace : Type := list Event.

(** How an asynchronous computation ends: it returns, it throws, it awaits
    a promise that is never settled, or the fuel of the model ran out. *)
Inductive Outcome (A : Type) : Type :=
| Returned (a : A)
| Thrown (e : exn)
| Pending
| OutOfFuel.
Arguments Returned {A} a.
Arguments Thrown {A} e.
Arguments Pending {A}.
Arguments OutOfFuel {A}.

(** An asynchronous computation over a state [S]. *)
Definition Async (S A : Type) : Type := S -> Outcome A * S.

Definition ret {S A} (a : A) : Async S A := fun st => (Returned a, st).

Definition bind {S A B} (m : Async S A) (k : A -> Async S B) : Async S B :=
  fun st =>
    match m st with
    | (Returned a, st') => k a st'
    | (Thrown e, st') => (Thrown e, st')
    | (Pending, st') => (Pending, st')
    | (OutOfFuel, st') => (OutOfFuel, st')
    end.

Definition throw {S A} (e : exn) : Async S A := fun st => (Thrown e, st).

Definition try_catch {S A} (m : Async S A) (handler : exn -> Async S A)
  : Async S A :=
  fun st =>
    match m st with
    | (Thrown e, st') => handler e st'
    | r => r
    end.

(** The pipeline runs over the trace of what it has done so far. *)
Definition M (A : Type) : Type := Async trace A.

Definition emit (ev : Event) : M unit := fun tr => (Returned tt, tr ++ [ev]).

Declare Scope async_scope.
Delimit Scope async_scope with async.
Notation "x <- m ;; k" := (bind m (fun x => k))
  (at level 61, m at next level, right associativity) : async_scope.
Notation "m ;; k" := (bind m (fun _ => k))
  (at level 61, right associativity) : async_scope.
Local Open Scope async_scope.

Definition isGenerateContent (ev : Event) : bool :=
  match ev with GenerateContent _ => true | _ => false end.

Definition isReadAsDataURL (ev : Event) : bool :=
  match ev with ReadAsDataURL _ => true | _ => false end.

Section WithEnv.

Variable env : Env.

(** [await ai.models.generateContent(req)]. *)
Definition generateContent (req : Request) : M jsstring :=
  fun tr =>
    let k := length (filter isGenerateContent tr) in
    match remote env k req with
    | Responds text => (Returned text, tr ++ [GenerateContent req])
    | Rejects reason => (Thrown (ApiError reason), tr ++ [GenerateContent req])
    end.

Definition onProgress (message : jsstring) (progress : number) : M unit :=
  emit (OnProgress message progress).

(** *** utils.ts *)

(** [blobToBase64]: the part of the data URL after its first comma,
    [None] standing for [undefined] when the URL has no comma.  On a read
    error [onerror] rejects first; the [loadend] that follows finds the
    promise settled. *)
Definition blobToBase64 (blob : Blob) : M (option jsstring) :=
  emit (ReadAsDataURL blob) ;;
  match fileReader env blob with
  | LoadEndString result => ret (nth_error (split 44 result) 1)
  | LoadEndOther => throw (JsError (u16 "FileReader result is not a string."))
  | ReaderFails => throw ReaderErrorEvent
  end.

(** *** geminiService.ts: getAudioDuration *)

(** The promise of [getAudioDuration] while the element's events arrive:
    which of the two [once] listeners are still attached, and the value
    the promise was resolved with, if it was.  The executor has no
    [reject]. *)
Record Probe : Type := mkProbe {
  onLoadedmetadata : bool;
  onError : bool;
  resolved : option number
}.

Definition resolve (p : Probe) (v : number) : Probe :=
  {| onLoadedmetadata := onLoadedmetadata p;
     onError := onError p;
     resolved := match resolved p with Some w => Some w | None => Some v end |}.

Definition dispatch (audioBlob : Blob) (st : Probe * trace) (ev : MediaEvent)
  : Probe * trace :=
  let '(p, tr) := st in
  match ev with
  | loadedmetadata duration =>
      if onLoadedmetadata p then
        (resolve {| onLoadedmetadata := false; onError := onError p;
                    resolved := resolved p |} duration,
         tr ++ [RevokeObjectURL audioBlob])
      else (p, tr)
  | error =>
      if onError p then
        (resolve {| onLoadedmetadata := onLoadedmetadata p; onError := false;
                    resolved := resolved p |} (num 0),
         tr ++ [RevokeObjectURL audioBlob])
      else (p, tr)
  end.

Definition getAudioDuration (audioBlob : Blob) : M number :=
  fun tr =>
    let '(p, tr') :=
      fold_left (dispatch audioBlob) (media env audioBlob)
        ({| onLoadedmetadata := true; onError := true; resolved := None |},
         tr ++ [CreateObjectURL audioBlob]) in
    match resolved p with
    | Some duration => (Returned duration, tr')
    | None => (Pending, tr')
    end.

End WithEnv.

(** ** JavaScript values, [JSON.parse] and object spread *)

#[warnings="-register-all"]
Inductive value : Type :=
| VNull
| VBool (b : bool)
| VNumber (n : number)
| VString (s : jsstring)
| VArray (elems : list value)
| VObject (props : list (jsstring * value)).

Fixpoint str_eqb (s t : jsstring) : bool :=
  match s, t with
  | [], [] => true
  | c :: s', d :: t' => (c =? d)%N && str_eqb s' t'
  | _, _ => false
  end.

(** [obj[key]], [None] standing for [undefined]. *)
Fixpoint getProp (key : jsstring) (props : list (jsstring * value))
  : option value :=
  match props with
  | [] => None
  | (k, v) :: rest => if str_eqb k key then Some v else getProp key rest
  end.

(** CreateDataProperty: an existing key keeps its place and takes the new
    value, a new key goes last.  (The engine's placing of integer-like keys
    first is not represented; it does not change what a lookup finds.) *)
Fixpoint setProp (key : jsstring) (v : value) (props : list (jsstring * value))
  : list (jsstring * value) :=
  match props with
  | [] => [(key, v)]
  | (k, w) :: rest =>
      if str_eqb k key then (k, v) :: rest else (k, w) :: setProp key v rest
  end.

Module JSON.

Inductive token : Type :=
| TLBrace | TRBrace | TLBracket | TRBracket | TColon | TComma
| TString (s : jsstring)
| TNumber (n : number)
| TTrue | TFalse | TNull.

(** The lexer reads one code unit at a time; accumulators are reversed. *)
Inductive lexmode : Type :=
| LIdle
| LString (acc : jsstring)
| LEscape (acc : jsstring)
| LUnicode (acc : jsstring) (hex : list N)
| LNumber (acc : jsstring)
| LWord (acc : jsstring).

Definition isDigit (c : N) : bool := ((48 <=? c) && (c <=? 57))%N.

Definition hexValue (c : N) : option N :=
  if isDigit c then Some (c - 48)%N
  else if ((65 <=? c) && (c <=? 70))%N then Some (c - 55)%N
  else if ((97 <=? c) && (c <=? 102))%N then Some (c - 87)%N
  else None.

Fixpoint takeDigits (s : jsstring) : list N * jsstring :=
  match s with
  | c :: s' =>
      if isDigit c then let '(ds, rest) := takeDigits s' in (c :: ds, rest)
      else ([], s)
  | [] => ([], [])
  end.

Definition digitsValue (ds : list N) : Z :=
  fold_left (fun acc c => 10 * acc + Z.of_N (c - 48)) ds 0.

(** The value of [mant * 10 ^ e]. *)
Definition scale10 (mant e : Z) : number :=
  if 0 <=? e then Finite (Qred (inject_Z (mant * 10 ^ e)))
  else Finite (Qred (Qmake mant (Z.to_pos (10 ^ (- e))))).

(** A JSON number: an optional minus sign; an integer part, either 0 or
    digits not starting with 0; an optional fraction, a point and at least
    one digit; an optional exponent, e or E, an optional sign and at least
    one digit.  (A literal beyond the binary64 range stays finite here.) *)
Definition numberOf (s : jsstring) : option number :=
  let '(neg, s1) :=
    match s with 45%N :: r => (true, r) | _ => (false, s) end in
  let '(int, s2) := takeDigits s1 in
  match int with
  | [] => None
  | d :: ds =>
      if (d =? 48)%N && negb (length ds =? 0)%nat then None
      else
        let frac_rest :=
          match s2 with
          | 46%N :: r =>
              let '(fs, r') := takeDigits r in
              match fs with [] => None | _ => Some (fs, r') end
          | _ => Some ([], s2)
          end in
        match frac_rest with
        | None => None
        | Some (frac, s3) =>
            let exp_rest :=
              match s3 with
              | c :: r =>
                  if (c =? 101)%N || (c =? 69)%N then
                    let '(eneg, r1) :=
                      match r with
                      | 45%N :: r' => (true, r')
                      | 43%N :: r' => (false, r')
                      | _ => (false, r)
                      end in
                    let '(es, r2) := takeDigits r1 in
                    match es, r2 with
                    | _ :: _, [] =>
                        Some (if eneg then - digitsValue es
                              else digitsValue es)
                    | _, _ => None
                    end
                  else None
              | [] => Some 0
              end in
            match exp_rest with
            | None => None
            | Some e =>
                let mant := digitsValue (int ++ frac) in
                Some (scale10 (if neg then - mant else mant)
                              (e - Z.of_nat (length frac)))
            end
        end
  end.

Definition wordOf (s : jsstring) : option token :=
  if str_eqb s (u16 "true") then Some TTrue
  else if str_eqb s (u16 "false") then Some TFalse
  else if str_eqb s (u16 "null") then Some TNull
  else None.

(** A code unit read outside any token. *)
Definition lexIdle (toks : list token) (c : N) : option (lexmode * list token) :=
  if (c =? 9)%N || (c =? 10)%N || (c =? 13)%N || (c =? 32)%N
  then Some (LIdle, toks)
  else if (c =? 123)%N then Some (LIdle, TLBrace :: toks)
  else if (c =? 125)%N then Some (LIdle, TRBrace :: toks)
  else if (c =? 91)%N then Some (LIdle, TLBracket :: toks)
  else if (c =? 93)%N then Some (LIdle, TRBracket :: toks)
  else if (c =? 58)%N then Some (LIdle, TColon :: toks)
  else if (c =? 44)%N then Some (LIdle, TComma :: toks)
  else if (c =? 34)%N then Some (LString [], toks)
  else if (c =? 45)%N || isDigit c then Some (LNumber [c], toks)
  else if ((97 <=? c) && (c <=? 122))%N then Some (LWord [c], toks)
  else None.

Definition lexStep (st : option (lexmode * list token)) (c : N)
  : option (lexmode * list token) :=
  match st with
  | None => None
  | Some (LIdle, toks) => lexIdle toks c
  | Some (LString acc, toks) =>
      if (c =? 34)%N then Some (LIdle, TString (rev acc) :: toks)
      else if (c =? 92)%N then Some (LEscape acc, toks)
      else if (c <? 32)%N then None
      else Some (LString (c :: acc), toks)
  | Some (LEscape acc, toks) =>
      if (c =? 34)%N || (c =? 92)%N || (c =? 47)%N
      then Some (LString (c :: acc), toks)
      else if (c =? 98)%N then Some (LString (8%N :: acc), toks)
      else if (c =? 102)%N then Some (LString (12%N :: acc), toks)
      else if (c =? 110)%N then Some (LString (10%N :: acc), toks)
      else if (c =? 114)%N then Some (LString (13%N :: acc), toks)
      else if (c =? 116)%N then Some (LString (9%N :: acc), toks)
      else if (c =? 117)%N then Some (LUnicode acc [], toks)
      else None
  | Some (LUnicode acc hex, toks) =>
      match hexValue c with
      | None => None
      | Some h =>
          match hex with
          | [h0; h1; h2] =>
              Some (LString ((((h0 * 16 + h1) * 16 + h2) * 16 + h)%N :: acc),
                    toks)
          | _ => Some (LUnicode acc (hex ++ [h]), toks)
          end
      end
  | Some (LNumber acc, toks) =>
      if isDigit c || (c =? 46)%N || (c =? 101)%N || (c =? 69)%N
         || (c =? 43)%N || (c =? 45)%N
      then Some (LNumber (c :: acc), toks)
      else match numberOf (rev acc) with
           | Some n => lexIdle (TNumber n :: toks) c
           | None => None
           end
  | Some (LWord acc, toks) =>
      if ((97 <=? c) && (c <=? 122))%N then Some (LWord (c :: acc), toks)
      else match wordOf (rev acc) with
           | Some t => lexIdle (t :: toks) c
           | None => None
           end
  end.

Definition lex (s : jsstring) : option (list token) :=
  match fold_left lexStep s (Some (LIdle, [])) with
  | Some (LIdle, toks) => Some (rev toks)
  | Some (LNumber acc, toks) =>
      option_map (fun n => rev (TNumber n :: toks)) (numberOf (rev acc))
  | Some (LWord acc, toks) =>
      option_map (fun t => rev (t :: toks)) (wordOf (rev acc))
  | _ => None
  end.

(** The parser is a pushdown automaton over tokens.  A frame is an array
    or an object under construction (an object frame holds the key whose
    value is being read). *)
Inductive frame : Type :=
| FArray (elems : list value)
| FObject (props : list (jsstring * value)) (key : jsstring).

Inductive pstate : Type :=
| PValue (stk : list frame)
| PArrayStart (stk : list frame)
| PObjectStart (stk : list frame)
| PKey (props : list (jsstring * value)) (stk : list frame)
| PColon (props : list (jsstring * value)) (key : jsstring) (stk : list frame)
| PAfter (v : value) (stk : list frame).

(** A token at a place where a value starts. *)
Definition startValue (stk : list frame) (t : token) : option pstate :=
  match t with
  | TString s => Some (PAfter (VString s) stk)
  | TNumber n => Some (PAfter (VNumber n) stk)
  | TTrue => Some (PAfter (VBool true) stk)
  | TFalse => Some (PAfter (VBool false) stk)
  | TNull => Some (PAfter VNull stk)
  | TLBracket => Some (PArrayStart stk)
  | TLBrace => Some (PObjectStart stk)
  | _ => None
  end.

Definition parseStep (st : option pstate) (t : token) : option pstate :=
  match st with
  | None => None
  | Some (PValue stk) => startValue stk t
  | Some (PArrayStart stk) =>
      match t with
      | TRBracket => Some (PAfter (VArray []) stk)
      | _ => startValue (FArray [] :: stk) t
      end
  | Some (PObjectStart stk) =>
      match t with
      | TRBrace => Some (PAfter (VObject []) stk)
      | TString k => Some (PColon [] k stk)
      | _ => None
      end
  | Some (PKey props stk) =>
      match t with
      | TString k => Some (PColon props k stk)
      | _ => None
      end
  | Some (PColon props k stk) =>
      match t with
      | TColon => Some (PValue (FObject props k :: stk))
      | _ => None
      end
  | Some (PAfter v stk) =>
      match stk, t with
      | FArray elems :: stk', TComma => Some (PValue (FArray (v :: elems) :: stk'))
      | FArray elems :: stk', TRBracket =>
          Some (PAfter (VArray (rev (v :: elems))) stk')
      | FObject props k :: stk', TComma => Some (PKey (setProp k v props) stk')
      | FObject props k :: stk', TRBrace =>
          Some (PAfter (VObject (setProp k v props)) stk')
      | _, _ => None
      end
  end.

(** [JSON.parse(text)] without a reviver; [None] is a thrown SyntaxError. *)
Definition parse (text : jsstring) : option value :=
  match lex text with
  | None => None
  | Some toks =>
      match fold_left parseStep toks (Some (PValue [])) with
      | Some (PAfter v []) => Some v
      | _ => None
      end
  end.

End JSON.

(** The own enumerable properties an object spread copies from a value:
    the properties of an object, the indexed elements of an array, the
    indexed code units of a string, nothing from another primitive. *)
Definition indexed {A} (f : A -> value) (l : list A) : list (jsstring * value) :=
  combine (map (fun i => toString (Z.of_nat i)) (seq 0 (length l))) (map f l).

Definition ownEnumerable (v : value) : list (jsstring * value) :=
  match v with
  | VObject props => props
  | VArray elems => indexed (fun x => x) elems
  | VString s => indexed (fun c => VString [c]) s
  | _ => []
  end.

(** [{ ...target, ...source }]. *)
Definition copyDataProperties (target : list (jsstring * value)) (source : value)
  : list (jsstring * value) :=
  fold_left (fun o kv => setProp (fst kv) (snd kv) o) (ownEnumerable source)
    target.

(** [String(n)] for a number.  It is applied to results of [Math.ceil]
    only; for a finite value that is not an integer JavaScript prints the
    digits of the binary64 value, which are not represented, and this
    function prints the integer below it. *)
Definition numberToString (n : number) : jsstring :=
  match n with
  | NaN => u16 "NaN"
  | PosInfinity => u16 "Infinity"
  | NegInfinity => u16 "-Infinity"
  | Finite q =>
      let z := Qfloor q in
      if z <? 0 then u16 "-" ++ toString (- z) else toString z
  end.

(** ** geminiService.ts: processAudio *)

Definition MODEL : jsstring := u16 "gemini-2.5-flash".

Definition analysisSchema : Schema :=
  SObject
    [(u16 "summary",
      SString (Some (u16 "A concise, professional summary of the entire transcription, capturing the key points and overall sentiment.")));
     (u16 "actionItems",
      SArray (Some (u16 "A list of specific, actionable tasks mentioned in the transcript. Each item should be a clear to-do."))
             (SString None));
     (u16 "highlights",
      SArray (Some (u16 "A list of the most important quotes, decisions, or key takeaways from the conversation."))
             (SString None))]
    [u16 "summary"; u16 "actionItems"; u16 "highlights"].

Definition MAX_CHUNK_MINUTES : number := num 9.
Definition MAX_CHUNK_SECONDS : number := num_mul MAX_CHUNK_MINUTES (num 60).

Definition LF : jsstring := [10%N].

(** The text pushed in place of the transcript of chunk [i] when its call
    fails. *)
Definition errorPlaceholder (i : Z) : jsstring :=
  LF ++ u16 "[-- Error transcribing chunk " ++ toString (i + 1)
     ++ u16 ". The audio segment might have been too long or corrupted. --]"
     ++ LF.

Definition analysisPrompt (rawTranscript : jsstring) : jsstring :=
  LF ++ u16 "    Based on the following transcription, please generate a structured analysis."
  ++ LF ++ u16 "    "
  ++ LF ++ u16 "    Transcription:"
  ++ LF ++ u16 "    ---"
  ++ LF ++ u16 "    " ++ rawTranscript
  ++ LF ++ u16 "    ---"
  ++ LF ++ u16 "    "
  ++ LF ++ u16 "    Please provide the analysis in the requested JSON format."
  ++ LF ++ u16 "  ".

Definition singlePrompt : jsstring :=
  u16 "Provide a clean, accurate, and detailed transcription of this audio. Do not add any commentary, just the text.".

Definition chunkPrompt : jsstring :=
  u16 "Provide a clean, accurate, and detailed transcription of this audio chunk. Do not add any commentary, just the text.".

Section Pipeline.

Variable env : Env.

(** The progress reported before chunk [i]. *)
Definition chunkProgress (i : Z) (numChunks : number) : number :=
  num_add (num 20)
    (Math_round (num_mul (num_div (num i) numChunks) (num 60))).

(** The chunk sliced for iteration [i]. *)
Definition chunkOf (audioBlob : Blob) (audioMimeType : jsstring)
  (chunkSize : number) (i : Z) : Blob :=
  let start_ := num_mul (num i) chunkSize in
  let end_ := num_add start_ chunkSize in
  slice audioBlob start_ end_ audioMimeType.

(** The [for] loop of the chunked branch, from counter [i] on.  One unit of
    fuel is spent on each test of the loop condition. *)
Fixpoint chunkLoop (fuel : nat) (audioBlob : Blob) (audioMimeType : jsstring)
  (numChunks chunkSize : number) (i : Z) (transcriptionParts : list jsstring)
  : M (list jsstring) :=
  match fuel with
  | O => fun tr => (OutOfFuel, tr)
  | S fuel' =>
      if num_lt (num i) numChunks then
        onProgress
          (u16 "Transcribing chunk " ++ toString (i + 1) ++ u16 " of "
             ++ numberToString numChunks ++ u16 "...")
          (chunkProgress i numChunks) ;;
        base64Audio <- blobToBase64 env
                         (chunkOf audioBlob audioMimeType chunkSize i) ;;
        part <- try_catch
                  (generateContent env
                     (AudioRequest MODEL audioMimeType base64Audio chunkPrompt))
                  (fun e =>
                     emit (ConsoleError
                             (u16 "Error processing chunk " ++ toString (i + 1))) ;;
                     ret (errorPlaceholder i)) ;;
        chunkLoop fuel' audioBlob audioMimeType numChunks chunkSize (i + 1)
          (transcriptionParts ++ [part])
      else ret transcriptionParts
  end.

(** [audioBlob.type || 'audio/webm']. *)
Definition mimeTypeOf (audioBlob : Blob) : jsstring :=
  if truthy (type audioBlob) then type audioBlob else u16 "audio/webm".

(** [Math.ceil(duration / MAX_CHUNK_SECONDS)]. *)
Definition numChunksOf (duration : number) : number :=
  Math_ceil (num_div duration MAX_CHUNK_SECONDS).

(** [Math.ceil(audioBlob.size / numChunks)]. *)
Definition chunkSizeOf (audioBlob : Blob) (numChunks : number) : number :=
  Math_ceil (num_div (num (size audioBlob)) numChunks).

(** The transcription phase: what is assigned to [rawTranscript]. *)
Definition transcribe (fuel : nat) (audioBlob : Blob) (duration : number)
  : M jsstring :=
  let audioMimeType := mimeTypeOf audioBlob in
  if num_le duration MAX_CHUNK_SECONDS then
    onProgress (u16 "Transcribing audio...") (num 20) ;;
    base64Audio <- blobToBase64 env audioBlob ;;
    generateContent env
      (AudioRequest MODEL audioMimeType base64Audio singlePrompt)
  else
    let numChunks := numChunksOf duration in
    let chunkSize := chunkSizeOf audioBlob numChunks in
    transcriptionParts <-
      chunkLoop fuel audioBlob audioMimeType numChunks chunkSize 0 [] ;;
    ret (join (u16 " ") transcriptionParts).

(** The analysis phase, from the blank check to the returned object. *)
Definition analyze (rawTranscript : jsstring) : M (list (jsstring * value)) :=
  if negb (truthy (trim rawTranscript)) then
    throw (JsError (u16 "Failed to transcribe audio. The response was empty."))
  else
    onProgress (u16 "Analyzing full transcript...") (num 85) ;;
    analysisResponse <-
      generateContent env
        (SchemaRequest MODEL (analysisPrompt rawTranscript)
           (u16 "application/json") analysisSchema) ;;
    match JSON.parse analysisResponse with
    | None => throw SyntaxError
    | Some analysisJson =>
        onProgress (u16 "Finalizing...") (num 100) ;;
        ret (setProp (u16 "rawTranscript") (VString rawTranscript)
               (copyDataProperties [] analysisJson))
    end.

Definition processAudio (fuel : nat) (audioBlob : Blob)
  : M (list (jsstring * value)) :=
  onProgress (u16 "Analyzing audio file...") (num 5) ;;
  duration <- getAudioDuration env audioBlob ;;
  rawTranscript <- transcribe fuel audioBlob duration ;;
  analyze rawTranscript.

End Pipeline.

(** What it means for a value to conform to a response schema: the value
    has the schema's type, an array's elements conform to [items], an
    object has every required property, and each declared property that is
    present conforms to its schema. *)
Fixpoint conforms (sc : Schema) (v : value) {struct sc} : bool :=
  match sc, v with
  | SString _, VString _ => true
  | SArray _ items, VArray elems => forallb (conforms items) elems
  | SObject properties required, VObject o =>
      forallb (fun k => match getProp k o with Some _ => true | None => false end)
        required
      && (fix declared (ps : list (jsstring * Schema)) : bool :=
            match ps with
            | [] => true
            | (k, s) :: ps' =>
                match getProp k o with
                | Some w => conforms s w
                | None => true
                end && declared ps'
            end) properties
  | _, _ => false
  end.

(** ** types.ts and db.ts *)

(** [interface Recording]; an optional field that is absent is [None]. *)
Record Recording : Type := mkRecording {
  id : jsstring;
  name : jsstring;
  date : jsstring;
  audioUrl : option jsstring;
  audioBlob : option Blob;
  transcription : option (list (jsstring * value))
}.

(** [const { audioBlob, ...rest } = rec; return rest]. *)
Definition omitAudioBlob (rec : Recording) : Recording :=
  {| id := id rec; name := name rec; date := date rec;
     audioUrl := audioUrl rec; audioBlob := None;
     transcription := transcription rec |}.

Definition num_neg (a : number) : number :=
  match a with
  | Finite x => Finite (Qred (- x))
  | PosInfinity => NegInfinity
  | NegInfinity => PosInfinity
  | NaN => NaN
  end.

Definition num_sub (a b : number) : number := num_add a (num_neg b).

(** [Array.prototype.sort(comparefn)].  The sort is stable; a comparator
    result that is NaN counts as 0.  [x] is put before the first element
    it does not have to follow.  (With a comparator that is not a
    consistent ordering the standard leaves the order to the engine; this
    is then the order of an insertion sort.) *)
Definition follows (v : number) : bool := num_lt (num 0) v.

Fixpoint insertSorted {A} (comparefn : A -> A -> number) (x : A) (l : list A)
  : list A :=
  match l with
  | [] => [x]
  | y :: l' =>
      if follows (comparefn x y) then y :: insertSorted comparefn x l'
      else x :: l
  end.

Definition sort {A} (comparefn : A -> A -> number) (l : list A) : list A :=
  fold_right (insertSorted comparefn) [] l.

(** The database as the module sees it: whether the module variable [db]
    holds an open connection, the version of the stored database (0 when
    it does not exist) and the object store, if it exists, in key order. *)
Record DBState : Type := mkDB {
  db : bool;
  version : Z;
  store : option (list Recording)
}.

(** What the engine answers: whether opening fails, and the error message
    of a failing request, if it fails. *)
Record DBEnv : Type := mkDBEnv {
  openFails : bool;
  requestError : option (option jsstring)
}.

Definition DB_VERSION : Z := 1.
Definition UNDEFINED : jsstring := u16 "undefined".

Definition contents (st : DBState) : list Recording :=
  match store st with Some recs => recs | None => [] end.

Section DB.

Variable dbenv : DBEnv.

(** [new Date(s).getTime()]. *)
Variable Date_getTime : jsstring -> number.

(** [initDB]: the open connection is reused; otherwise the database is
    opened, and created with its object store when it is older than
    [DB_VERSION]. *)
Definition initDB : Async DBState unit :=
  fun st =>
    if db st then (Returned tt, st)
    else if openFails dbenv then (Thrown (JsError (u16 "Error opening DB")), st)
    else
      let upgraded :=
        if version st <? DB_VERSION then
          {| db := true; version := DB_VERSION;
             store := match store st with
                      | Some recs => Some recs
                      | None => Some []
                      end |}
        else {| db := true; version := version st; store := store st |} in
      (Returned tt, upgraded).

(** The message of a failed request's error, as a template literal prints
    it. *)
Definition errorMessage (m : option jsstring) : jsstring :=
  match m with Some s => s | None => UNDEFINED end.

Definition compareByDate (a b : Recording) : number :=
  num_sub (Date_getTime (date b)) (Date_getTime (date a)).

(** [getRecordingsFromDB].  A transaction on a store that does not exist
    throws inside the promise executor, which rejects the promise. *)
Definition getRecordingsFromDB : Async DBState (list Recording) :=
  bind initDB (fun _ st =>
    match store st with
    | None => (Thrown (DOMException (u16 "NotFoundError")), st)
    | Some recs =>
        match requestError dbenv with
        | Some m =>
            (Thrown (JsError (u16 "Error fetching recordings: "
                                ++ errorMessage m)), st)
        | None =>
            let recordingsWithoutBlobs := map omitAudioBlob recs in
            (Returned (sort compareByDate recordingsWithoutBlobs), st)
        end
    end).

End DB.

(** [new Date(s).getTime()] for the strings [Date.prototype.toISOString]
    writes, [YYYY-MM-DDTHH:mm:ss.sssZ]: milliseconds since the epoch.  Any
    other string is taken to be no date (NaN); the other forms of the
    standard format and the engines' fallbacks are not represented. *)
Definition digitAt (s : jsstring) (i : nat) : option Z :=
  match nth_error s i with
  | Some c => if JSON.isDigit c then Some (Z.of_N (c - 48)) else None
  | None => None
  end.

Fixpoint digitsAt (s : jsstring) (i len : nat) (acc : Z) : option Z :=
  match len with
  | O => Some acc
  | S len' =>
      match digitAt s i with
      | Some d => digitsAt s (S i) len' (10 * acc + d)
      | None => None
      end
  end.

Definition charAt (s : jsstring) (i : nat) (c : N) : bool :=
  match nth_error s i with Some c' => (c' =? c)%N | None => false end.

Definition isLeap (y : Z) : bool :=
  ((y mod 4 =? 0) && negb (y mod 100 =? 0)) || (y mod 400 =? 0).

Definition daysInMonth (y m : Z) : Z :=
  if m =? 2 then (if isLeap y then 29 else 28)
  else if (m =? 4) || (m =? 6) || (m =? 9) || (m =? 11) then 30
  else 31.

(** Days from 1970-01-01 to the given day of the proleptic Gregorian
    calendar. *)
Definition daysFromCivil (y m d : Z) : Z :=
  let y' := if m <=? 2 then y - 1 else y in
  let era := y' / 400 in
  let yoe := y' - era * 400 in
  let doy := (153 * (if 2 <? m then m - 3 else m + 9) + 2) / 5 + d - 1 in
  let doe := yoe * 365 + yoe / 4 - yoe / 100 + doy in
  era * 146097 + doe - 719468.

Definition isoGetTime (s : jsstring) : number :=
  match digitsAt s 0 4 0, digitsAt s 5 2 0, digitsAt s 8 2 0,
        digitsAt s 11 2 0, digitsAt s 14 2 0, digitsAt s 17 2 0,
        digitsAt s 20 3 0 with
  | Some y, Some m, Some d, Some h, Some mi, Some sec, Some ms =>
      if (length s =? 24)%nat
         && charAt s 4 45 && charAt s 7 45 && charAt s 10 84
         && charAt s 13 58 && charAt s 16 58 && charAt s 19 46
         && charAt s 23 90
         && (1 <=? m) && (m <=? 12) && (1 <=? d) && (d <=? daysInMonth y m)
         && (mi <=? 59) && (sec <=? 59)
         && ((h <=? 23) || (h =? 24) && (mi =? 0) && (sec =? 0) && (ms =? 0))
      then num ((((daysFromCivil y m d * 24 + h) * 60 + mi) * 60 + sec) * 1000
                + ms)
      else NaN
  | _, _, _, _, _, _, _ => NaN
  end.

(** ** Notions used to state the properties *)

(** The integers [i, i+1, ..., i+k-1]. *)
Fixpoint zrange (i : Z) (k : nat) : list Z :=
  match k with
  | O => []
  | S k' => i :: zrange (i + 1) k'
  end.

(** The ceiling of [S / n], an integer. *)
Definition ceilDiv (S n : Z) : Z := Qceiling (inject_Z S / inject_Z n).

(** The byte range of chunk [i] of a blob of [S] bytes cut in chunks of
    [cs] bytes. *)
Definition chunkRange (S cs i : Z) : Z * Z :=
  sliceRange S (i * cs) (i * cs + cs).

Definition isTranscription (ev : Event) : bool :=
  match ev with GenerateContent (AudioRequest _ _ _ _) => true | _ => false end.

Definition isAnalysis (ev : Event) : bool :=
  match ev with GenerateContent (SchemaRequest _ _ _ _) => true | _ => false end.

(** The progress values of a trace, in order. *)
Fixpoint progressValues (tr : trace) : list number :=
  match tr with
  | [] => []
  | OnProgress _ p :: tr' => p :: progressValues tr'
  | _ :: tr' => progressValues tr'
  end.

Fixpoint nondecreasing (l : list number) : bool :=
  match l with
  | a :: (b :: _) as l' => num_le a b && nondecreasing l'
  | _ => true
  end.

(** A string with nothing but white space in it, the empty one included. *)
Definition blank (s : jsstring) : bool := forallb isWhiteSpace s.

(** The probe of a blob run on its own: its events and its result. *)
Definition probeRun (env : Env) (audioBlob : Blob) : Probe * trace :=
  fold_left (dispatch audioBlob) (media env audioBlob)
    ({| onLoadedmetadata := true; onError := true; resolved := None |},
     [CreateObjectURL audioBlob]).

Definition probed (env : Env) (audioBlob : Blob) : option number :=
  resolved (fst (probeRun env audioBlob)).

(** The trace of a run when the transcription phase starts. *)
Definition startTrace (env : Env) (audioBlob : Blob) : trace :=
  OnProgress (u16 "Analyzing audio file...") (num 5)
    :: snd (probeRun env audioBlob).

Definition isUrlEvent (ev : Event) : bool :=
  match ev with
  | CreateObjectURL _ | RevokeObjectURL _ => true
  | _ => false
  end.

(** Every read of a blob ends with a string result. *)
Definition readable (env : Env) : Prop :=
  forall b, exists result, fileReader env b = LoadEndString result.

(** What [blobToBase64] resolves with when the read succeeds. *)
Definition base64Of (env : Env) (b : Blob) : option jsstring :=
  match fileReader env b with
  | LoadEndString result => nth_error (split 44 result) 1
  | _ => None
  end.

(** The request of the single-pass branch. *)
Definition singleRequest (env : Env) (b : Blob) : Request :=
  AudioRequest MODEL (mimeTypeOf b) (base64Of env b) singlePrompt.

Definition emptyTranscriptError : exn :=
  JsError (u16 "Failed to transcribe audio. The response was empty.").

Definition analysisRequest (rawTranscript : jsstring) : Request :=
  SchemaRequest MODEL (analysisPrompt rawTranscript) (u16 "application/json")
    analysisSchema.

(** The events the transcription phase can add to a trace, and those the
    analysis phase can add. *)
Definition isTranscribePhase (ev : Event) : bool :=
  match ev with
  | OnProgress _ _ | ReadAsDataURL _ | ConsoleError _
  | GenerateContent (AudioRequest _ _ _ _) => true
  | _ => false
  end.

Definition isAnalysisPhase (ev : Event) : bool :=
  match ev with
  | OnProgress _ _ | GenerateContent (SchemaRequest _ _ _ _) => true
  | _ => false
  end.

Section ChunkedRun.

Variables (env : Env) (audioBlob : Blob) (numChunks chunkSize : number).

(** The request of iteration [i]. *)
Definition chunkRequest (i : Z) : Request :=
  AudioRequest MODEL (mimeTypeOf audioBlob)
    (base64Of env (chunkOf audioBlob (mimeTypeOf audioBlob) chunkSize i))
    chunkPrompt.

(** The segment iteration [i] pushes, its call being call number [i] of
    the run. *)
Definition segment (i : Z) : jsstring :=
  match remote env (Z.to_nat i) (chunkRequest i) with
  | Responds text => text
  | Rejects _ => errorPlaceholder i
  end.

(** The events of iteration [i]. *)
Definition chunkEvents (i : Z) : trace :=
  [ OnProgress
      (u16 "Transcribing chunk " ++ toString (i + 1) ++ u16 " of "
         ++ numberToString numChunks ++ u16 "...")
      (chunkProgress i numChunks);
    ReadAsDataURL (chunkOf audioBlob (mimeTypeOf audioBlob) chunkSize i);
    GenerateContent (chunkRequest i) ]
  ++ match remote env (Z.to_nat i) (chunkRequest i) with
     | Responds _ => []
     | Rejects _ =>
         [ConsoleError (u16 "Error processing chunk " ++ toString (i + 1))]
     end.

End ChunkedRun.

(** [tr'] is [tr] followed by events that all satisfy [P]. *)
Definition extends (P : Event -> bool) (tr tr' : trace) : Prop :=
  exists extra, tr' = tr ++ extra /\ Forall (fun ev => P ev = true) extra.

(** The share of the 60 points between 20 and 80 reached before chunk [i]
    of [n]: [Math.round(i / n * 60)] as an integer. *)
Definition interpolated (i n : Z) : Z := (120 * i + n) / (2 * n).

(** ** Example inputs *)

Definition QUOTE : jsstring := [34%N].

(** The payload [{"summary":"S","actionItems":["A1"],"highlights":["H1"]}]. *)
Definition examplePayload : jsstring :=
  u16 "{" ++ QUOTE ++ u16 "summary" ++ QUOTE ++ u16 ":" ++ QUOTE ++ u16 "S"
  ++ QUOTE ++ u16 "," ++ QUOTE ++ u16 "actionItems" ++ QUOTE ++ u16 ":["
  ++ QUOTE ++ u16 "A1" ++ QUOTE ++ u16 "]," ++ QUOTE ++ u16 "highlights"
  ++ QUOTE ++ u16 ":[" ++ QUOTE ++ u16 "H1" ++ QUOTE ++ u16 "]}".

(** A clip of ten bytes. *)
Definition clip10 : Blob :=
  {| bytes := [Byte.x00; Byte.x01; Byte.x02; Byte.x03; Byte.x04;
               Byte.x05; Byte.x06; Byte.x07; Byte.x08; Byte.x09];
     type := u16 "audio/webm" |}.

(** An environment in which the element reports [duration] seconds, every
    read gives the same data URL, every transcription call answers
    [text] and the analysis call answers the example payload. *)
Definition answering (duration : number) (text : jsstring) : Env :=
  {| media := fun _ => [loadedmetadata duration];
     fileReader := fun _ => LoadEndString (u16 "data:audio/webm;base64,AAAA");
     remote := fun _ req =>
       match req with
       | AudioRequest _ _ _ _ => Responds text
       | SchemaRequest _ _ _ _ => Responds examplePayload
       end |}.

(** The same, except that every transcription call is rejected. *)
Definition rejecting (duration : number) : Env :=
  {| media := fun _ => [loadedmetadata duration];
     fileReader := fun _ => LoadEndString (u16 "data:audio/webm;base64,AAAA");
     remote := fun _ req =>
       match req with
       | AudioRequest _ _ _ _ => Rejects (u16 "503")
       | SchemaRequest _ _ _ _ => Responds examplePayload
       end |}.

(** An environment whose transcription calls answer "a", "b", "c", ... in
    the order of the calls. *)
Definition lettering (duration : number) : Env :=
  {| media := fun _ => [loadedmetadata duration];
     fileReader := fun _ => LoadEndString (u16 "data:audio/webm;base64,AAAA");
     remote := fun k req =>
       match req with
       | AudioRequest _ _ _ _ => Responds [(97 + N.of_nat k)%N]
       | SchemaRequest _ _ _ _ => Responds examplePayload
       end |}.

(** An environment whose audio element fails to load the clip. *)
Definition undecodable : Env :=
  {| media := fun _ => [error];
     fileReader := fun _ => LoadEndString (u16 "data:audio/webm;base64,AAAA");
     remote := fun _ _ => Rejects (u16 "400") |}.

(** An environment whose audio element fires neither event for the clip. *)
Definition silent : Env :=
  {| media := fun _ => [];
     fileReader := fun _ => LoadEndString (u16 "data:audio/webm;base64,AAAA");
     remote := fun _ _ => Rejects (u16 "400") |}.

(** A clip of five bytes. *)
Definition clip5 : Blob :=
  {| bytes := [Byte.x00; Byte.x01; Byte.x02; Byte.x03; Byte.x04];
     type := u16 "audio/webm" |}.

(** The byte range of chunk [i] of [n] as the specification words it:
    from [i * cs] to [(i + 1) * cs], the end clipped to the size [S] for
    the final chunk only. *)
Definition statedChunkRange (S cs n i : Z) : Z * Z :=
  (i * cs, if i =? n - 1 then Z.min ((i + 1) * cs) S else (i + 1) * cs).

(** Three stored recordings, in key order: one of 2024, one whose date is
    no date, one of 2025. *)
Definition recordingOf (id name date : string) : Recording :=
  {| id := u16 id; name := u16 name; date := u16 date;
     audioUrl := None; audioBlob := Some clip5; transcription := None |}.

Definition rec2024 : Recording :=
  recordingOf "1" "first" "2024-01-01T00:00:00.000Z".
Definition recNoDate : Recording := recordingOf "2" "second" "".
Definition rec2025 : Recording :=
  recordingOf "3" "third" "2025-01-01T00:00:00.000Z".

Definition working : DBEnv := {| openFails := false; requestError := None |}.

Definition stored (recs : list Recording) : DBState :=
  {| db := false; version := 1; store := Some recs |}.

(** [a] may stand before [b] in a list with the most recent first. *)
Definition notOlder (getTime : jsstring -> number) (a b : Recording) : Prop :=
  num_le (getTime (date b)) (getTime (date a)) = true.

(** The date of [r] is a date: its time value is a finite number. *)
Definition dated (getTime : jsstring -> number) (r : Recording) : Prop :=
  exists t, getTime (date r) = Finite t.

(** ** db.ts: the other operations of the store *)

(** The order of string keys in IndexedDB: code unit by code unit. *)
Fixpoint keyCompare (s t : jsstring) : comparison :=
  match s, t with
  | [], [] => Eq
  | [], _ :: _ => Lt
  | _ :: _, [] => Gt
  | c :: s', d :: t' =>
      match (c ?= d)%N with
      | Eq => keyCompare s' t'
      | r => r
      end
  end.

(** [store.put(recording)] on a store with key path [id]: the record
    takes the place of the one with its key, or its place in key order. *)
Fixpoint putRecord (recording : Recording) (recs : list Recording)
  : list Recording :=
  match recs with
  | [] => [recording]
  | x :: rest =>
      match keyCompare (id recording) (id x) with
      | Lt => recording :: recs
      | Eq => recording :: rest
      | Gt => x :: putRecord recording rest
      end
  end.

(** [store.get(id)], [None] standing for [undefined]. *)
Fixpoint getRecord (key : jsstring) (recs : list Recording)
  : option Recording :=
  match recs with
  | [] => None
  | x :: rest => if str_eqb (id x) key then Some x else getRecord key rest
  end.

(** [store.delete(id)]. *)
Definition deleteRecord (key : jsstring) (recs : list Recording)
  : list Recording :=
  filter (fun x => negb (str_eqb (id x) key)) recs.

Definition withStore (st : DBState) (recs : list Recording) : DBState :=
  {| db := db st; version := version st; store := Some recs |}.

Section DBOperations.

Variable dbenv : DBEnv.

(** One request on the object store, in a transaction: [run] gives the
    result and the new records; [what] is the text of the rejection. *)
Definition request {A} (what : jsstring)
  (run : list Recording -> A * list Recording) : Async DBState A :=
  bind (initDB dbenv) (fun _ st =>
    match store st with
    | None => (Thrown (DOMException (u16 "NotFoundError")), st)
    | Some recs =>
        match requestError dbenv with
        | Some m => (Thrown (JsError (what ++ errorMessage m)), st)
        | None => let '(a, recs') := run recs in (Returned a, withStore st recs')
        end
    end).

Definition saveRecordingToDB (recording : Recording) : Async DBState unit :=
  request (u16 "Error saving recording: ")
    (fun recs => (tt, putRecord recording recs)).

Definition getRecordingByIdFromDB (key : jsstring)
  : Async DBState (option Recording) :=
  request (u16 "Error fetching recording by ID: ")
    (fun recs => (getRecord key recs, recs)).

Definition deleteRecordingFromDB (key : jsstring) : Async DBState unit :=
  request (u16 "Error deleting recording: ")
    (fun recs => (tt, deleteRecord key recs)).

End DBOperations.

(** The store is in key order, each key once. *)
Definition keyed (recs : list Recording) : Prop :=
  StronglySorted (fun a b => keyCompare (id a) (id b) = Lt) recs.

(** An environment in which the reads of the chunks from chunk [j] on
    fail, for a clip cut in chunks of [cs] bytes. *)
Definition readsFailFrom (duration : number) (audioBlob : Blob) (cs j : Z)
  : Env :=
  {| media := fun _ => [loadedmetadata duration];
     fileReader := fun b =>
       if existsb
            (fun i => if list_eq_dec Byte.byte_eq_dec (bytes b)
                           (bytes (chunkOf audioBlob (mimeTypeOf audioBlob)
                                     (num cs) i))
                      then true else false)
            (zrange 0 (Z.to_nat j))
       then LoadEndString (u16 "data:audio/webm;base64,AAAA")
       else ReaderFails;
     remote := fun _ req =>
       match req with
       | AudioRequest _ _ _ _ => Responds (u16 "a")
       | SchemaRequest _ _ _ _ => Responds examplePayload
       end |}.

(** An environment whose analysis call answers [payload]. *)
Definition analysing (payload : Response) : Env :=
  {| media := fun _ => [loadedmetadata (num 12)];
     fileReader := fun _ => LoadEndString (u16 "data:audio/webm;base64,AAAA");
     remote := fun _ req =>
       match req with
       | AudioRequest _ _ _ _ => Responds (u16 "hello")
       | SchemaRequest _ _ _ _ => payload
       end |}.

(** A number of chunks as [Math.ceil] gives it: an integer, an infinity or
    NaN. *)
Definition integral (numChunks : number) : Prop :=
  match numChunks with
  | Finite _ => exists n, numChunks = num n
  | _ => True
  end.

(** No progress value of the trace is 100. *)
Definition below100 (tr : trace) : Prop :=
  Forall (fun p => p <> num 100) (progressValues tr).

(** ** components/AudioRecorder.tsx *)

(** [s.padStart(targetLength, padString)]: [padString] repeated and cut
    to the missing length, put in front. *)
Fixpoint repeatTo (n : nat) (fill pattern : jsstring) : jsstring :=
  match n with
  | O => []
  | S n' =>
      match fill with
      | c :: fill' => c :: repeatTo n' fill' pattern
      | [] =>
          match pattern with
          | c :: fill' => c :: repeatTo n' fill' pattern
          | [] => []
          end
      end
  end.

Definition padStart (targetLength : nat) (padString s : jsstring) : jsstring :=
  repeatTo (targetLength - length s) padString padString ++ s.

(** [formatTime], for the whole seconds the timer counts. *)
Definition formatTime (seconds : Z) : jsstring :=
  let minutes := seconds / 60 in
  let secs := seconds mod 60 in
  padStart 2 (u16 "0") (toString minutes) ++ u16 ":"
    ++ padStart 2 (u16 "0") (toString secs).

(** The file name of the exported PDF:
    [name.replace(/[^a-z0-9]/gi, '_').toLowerCase() || 'transcription'].
    Without the [u] flag the class, case-insensitive, keeps the ASCII
    letters and digits only, so the lower-casing meets ASCII only. *)
Definition isAlnum (c : N) : bool :=
  ((48 <=? c) && (c <=? 57) || (65 <=? c) && (c <=? 90)
   || (97 <=? c) && (c <=? 122))%N.

Definition sanitizedName (name : jsstring) : jsstring :=
  let replaced := map (fun c => if isAlnum c then c else 95%N) name in
  let lowered := map toLower replaced in
  if truthy lowered then lowered else u16 "transcription".

Module EditableHeader.

(** The state of the component: [useState(false)] and
    [useState(initialName)]. *)
Record State : Type := mkState {
  isEditing : bool;
  name : jsstring
}.

(** The effect on [[initialName, isEditing]]: run after a render whose
    dependencies differ from those of the render before, [before]; it sets
    the name back to [initialName] unless the header is being edited. *)
Definition useEffect (before : jsstring * bool) (initialName : jsstring)
  (s : State) : State :=
  if str_eqb (fst before) initialName && Bool.eqb (snd before) (isEditing s)
  then s
  else if negb (isEditing s)
       then {| isEditing := isEditing s; name := initialName |}
       else s.

(** [handleSave]: what [onSave] is called with, if it is called, and the
    state it sets. *)
Definition handleSave (initialName : jsstring) (s : State)
  : option jsstring * State :=
  if truthy (trim (name s))
  then (Some (trim (name s)), {| isEditing := false; name := name s |})
  else (None, {| isEditing := false; name := initialName |}).

End EditableHeader.

(** [handleSave] of the editable header and the render that follows, to
    which the parent passes [shown] as the initial name: what [onSave] is
    called with, if it is called, and the state after the effect. *)
Definition headerSave (initialName shown : jsstring)
  (s : EditableHeader.State) : option jsstring * EditableHeader.State :=
  let '(saved, s') := EditableHeader.handleSave initialName s in
  (saved,
   EditableHeader.useEffect (initialName, EditableHeader.isEditing s) shown s').

(** The check of [padStart] on the number [k], used for all [k] below
    100. *)
Definition pad2_ok (k : nat) : bool :=
  let m := Z.of_nat k in
  str_eqb (padStart 2 (u16 "0") (toString m))
    [Z.to_N (48 + m / 10); Z.to_N (48 + m mod 10)].

(** A character of a sanitized file name: a digit, a lower-case ASCII
    letter or an underscore. *)
Definition isSafe (c : N) : bool :=
  ((48 <=? c) && (c <=? 57) || (97 <=? c) && (c <=? 122) || (c =? 95))%N.

(** ** App.tsx: the handlers that use the pipeline and the store *)

(** [s.startsWith(prefix)]. *)
Fixpoint startsWith (prefix s : jsstring) : bool :=
  match prefix, s with
  | [], _ => true
  | _ :: _, [] => false
  | p :: prefix', c :: s' => (p =? c)%N && startsWith prefix' s'
  end.

(** [{ ...r, name: newName }], [{ ...r, id: newId }] and
    [{ ...r, audioUrl }]. *)
Definition withName (newName : jsstring) (r : Recording) : Recording :=
  {| id := id r; name := newName; date := date r; audioUrl := audioUrl r;
     audioBlob := audioBlob r; transcription := transcription r |}.

Definition withId (newId : jsstring) (r : Recording) : Recording :=
  {| id := newId; name := name r; date := date r; audioUrl := audioUrl r;
     audioBlob := audioBlob r; transcription := transcription r |}.

Definition withAudioUrl (url : jsstring) (r : Recording) : Recording :=
  {| id := id r; name := name r; date := date r; audioUrl := Some url;
     audioBlob := audioBlob r; transcription := transcription r |}.

Module App.

(** [interface ProcessingStatus]. *)
Record ProcessingStatus : Type := mkStatus {
  active : bool;
  message : jsstring;
  progress : number
}.

(** The state of the component: its five [useState] cells. *)
Record State : Type := mkState {
  recordings : list Recording;
  activeRecording : option Recording;
  newAudioDetails : option (jsstring * Blob);
  processingStatus : ProcessingStatus;
  error : option jsstring
}.

Definition idle : ProcessingStatus :=
  {| active := false; message := []; progress := num 0 |}.

Definition setRecordings (l : list Recording) (app : State) : State :=
  {| recordings := l; activeRecording := activeRecording app;
     newAudioDetails := newAudioDetails app;
     processingStatus := processingStatus app; error := error app |}.

Definition setActiveRecording (r : option Recording) (app : State) : State :=
  {| recordings := recordings app; activeRecording := r;
     newAudioDetails := newAudioDetails app;
     processingStatus := processingStatus app; error := error app |}.

Definition setNewAudioDetails (d : option (jsstring * Blob)) (app : State)
  : State :=
  {| recordings := recordings app; activeRecording := activeRecording app;
     newAudioDetails := d;
     processingStatus := processingStatus app; error := error app |}.

Definition setProcessingStatus (s : ProcessingStatus) (app : State) : State :=
  {| recordings := recordings app; activeRecording := activeRecording app;
     newAudioDetails := newAudioDetails app;
     processingStatus := s; error := error app |}.

Definition setError (e : option jsstring) (app : State) : State :=
  {| recordings := recordings app; activeRecording := activeRecording app;
     newAudioDetails := newAudioDetails app;
     processingStatus := processingStatus app; error := e |}.

(** [activeRecording?.id === id]. *)
Definition activeHasId (key : jsstring) (app : State) : bool :=
  match activeRecording app with
  | Some a => str_eqb (id a) key
  | None => false
  end.

(** A handler runs on the state it was rendered with and on the database;
    it ends with the state its updates give.  [now] is what [Date.now()]
    returns. *)

(** [handleSave]. *)
Definition handleSave (dbenv : DBEnv) (now : Z) (app : State) (st : DBState)
  : State * DBState :=
  match activeRecording app with
  | None => (app, st)
  | Some a =>
      if negb (startsWith (u16 "temp-") (id a)) then (app, st)
      else
        match audioBlob a with
        | None => (app, st)
        | Some _ =>
            let permanentRecording := withId (toString now) a in
            match saveRecordingToDB dbenv permanentRecording st with
            | (Returned _, st') =>
                let metadata := omitAudioBlob permanentRecording in
                (setActiveRecording (Some permanentRecording)
                   (setRecordings (metadata :: recordings app) app), st')
            | (Thrown _, st') =>
                (setError (Some (u16 "Could not save the recording.")) app, st')
            | (_, st') => (app, st')
            end
        end
  end.

(** [handleRenameRecording]; [dbGet] and [dbSave] are what the engine
    answers to its two requests. *)
Definition handleRenameRecording (dbGet dbSave : DBEnv) (key newName : jsstring)
  (app : State) (st : DBState) : State * DBState :=
  if negb (truthy newName) then (app, st)
  else if activeHasId key app && startsWith (u16 "temp-") key then
    (setActiveRecording (option_map (withName newName) (activeRecording app))
       app, st)
  else
    let failed st' :=
      (setError (Some (u16 "Could not rename the recording.")) app, st') in
    match getRecordingByIdFromDB dbGet key st with
    | (Returned (Some recordingToUpdate), st1) =>
        let updatedRecording := withName newName recordingToUpdate in
        match saveRecordingToDB dbSave updatedRecording st1 with
        | (Returned _, st2) =>
            let app1 :=
              setRecordings
                (map (fun r => if str_eqb (id r) key then withName newName r
                               else r) (recordings app)) app in
            (if activeHasId key app
             then setActiveRecording
                    (option_map (withName newName) (activeRecording app1)) app1
             else app1, st2)
        | (Thrown _, st2) => failed st2
        | (_, st2) => (app, st2)
        end
    | (Returned None, st1) => failed st1
    | (Thrown _, st1) => failed st1
    | (_, st1) => (app, st1)
    end.

(** [handleDeleteRecording]; [confirmed] is the answer to [confirm]. *)
Definition handleDeleteRecording (dbenv : DBEnv) (confirmed : bool)
  (key : jsstring) (app : State) (st : DBState) : State * DBState :=
  if confirmed then
    match deleteRecordingFromDB dbenv key st with
    | (Returned _, st') =>
        let app1 :=
          setRecordings
            (filter (fun r => negb (str_eqb (id r) key)) (recordings app))
            app in
        (if activeHasId key app then setActiveRecording None app1 else app1,
         st')
    | (Thrown _, st') =>
        (setError (Some (u16 "Could not delete the recording.")) app, st')
    | (_, st') => (app, st')
    end
  else (app, st).

(** [handleSelectRecording]; [url] is the object URL made for the blob.
    (The revocation of the object URL shown before is no part of the
    state.) *)
Definition handleSelectRecording (dbenv : DBEnv) (url : jsstring)
  (recordingMetadata : Recording) (app : State) (st : DBState)
  : State * DBState :=
  let failed st' :=
    (setError (Some (u16 "Could not load the selected recording's audio."))
       app, st') in
  match getRecordingByIdFromDB dbenv (id recordingMetadata) st with
  | (Returned (Some fullRecording), st') =>
      match audioBlob fullRecording with
      | Some _ =>
          (setNewAudioDetails None
             (setActiveRecording (Some (withAudioUrl url fullRecording)) app),
           st')
      | None => failed st'
      end
  | (Returned None, st') => failed st'
  | (Thrown _, st') => failed st'
  | (_, st') => (app, st')
  end.

(** The status the progress callback has set after the events of a
    trace: [setProcessingStatus({ active: true, ...status })]. *)
Definition lastStatus (tr : trace) (init : ProcessingStatus)
  : ProcessingStatus :=
  fold_left
    (fun s ev =>
       match ev with
       | OnProgress m p => {| active := true; message := m; progress := p |}
       | _ => s
       end) tr init.

(** [err instanceof Error ? err.message : '...']: the event a failed read
    rejects with is no [Error]; [messageOf] gives the message of the
    errors whose text the platform or the remote client chooses. *)
Definition errorText (messageOf : exn -> jsstring) (e : exn) : jsstring :=
  match e with
  | JsError m => m
  | ReaderErrorEvent => u16 "An unknown error occurred during transcription."
  | _ => messageOf e
  end.

(** The recording [handleTranscribe] makes of a result; [now],
    [localeString] and [isoString] are what the clock gives for
    [Date.now()], [toLocaleString()] and [toISOString()]. *)
Definition newRecording (now : Z) (localeString isoString url : jsstring)
  (blob : Blob) (transcriptionData : list (jsstring * value)) : Recording :=
  {| id := u16 "temp-" ++ toString now;
     name := u16 "Recording - " ++ localeString;
     date := isoString;
     audioUrl := Some url;
     audioBlob := Some blob;
     transcription := Some transcriptionData |}.

(** [handleTranscribe].  The [finally] block runs when the run settles; a
    run that does not settle leaves the status the last progress report
    set. *)
Definition handleTranscribe (env : Env) (fuel : nat)
  (messageOf : exn -> jsstring) (now : Z) (localeString isoString : jsstring)
  (app : State) : State :=
  match newAudioDetails app with
  | None => app
  | Some (url, blob) =>
      let app0 :=
        setActiveRecording None
          (setError None
             (setProcessingStatus
                {| active := true; message := u16 "Starting...";
                   progress := num 0 |} app)) in
      let '(outcome, tr) := processAudio env fuel blob [] in
      let app1 :=
        setProcessingStatus (lastStatus tr (processingStatus app0)) app0 in
      match outcome with
      | Returned transcriptionData =>
          setProcessingStatus idle
            (setNewAudioDetails None
               (setActiveRecording
                  (Some (newRecording now localeString isoString url blob
                           transcriptionData)) app1))
      | Thrown err =>
          setProcessingStatus idle
            (setError (Some (errorText messageOf err)) app1)
      | _ => app1
      end
  end.

End App.

(** A state with a new recording waiting to be transcribed. *)
Definition waiting (url : jsstring) (blob : Blob) : App.State :=
  {| App.recordings := []; App.activeRecording := None;
     App.newAudioDetails := Some (url, blob);
     App.processingStatus := App.idle; App.error := None |}.

(** A state that lists the given recordings, the first of them active. *)
Definition listing (recs : list Recording) : App.State :=
  {| App.recordings := map omitAudioBlob recs;
     App.activeRecording := hd_error recs;
     App.newAudioDetails := None;
     App.processingStatus := App.idle; App.error := None |}.

(** What a run returned, or the empty object. *)
Definition returnedBy (r : Outcome (list (jsstring * value)) * trace)
  : list (jsstring * value) :=
  match fst r with Returned data => data | _ => [] end.

(** The list of the sidebar and the store hold the same ids. *)
Definition synced (app : App.State) (st : DBState) : Prop :=
  Permutation (map id (App.recordings app)) (map id (contents st)).

(** A recording that was transcribed and is not saved yet. *)
Definition tempRecording : Recording :=
  {| id := u16 "temp-1000"; name := u16 "Recording - 1/1/2025";
     date := u16 "2025-01-01T00:00:00.000Z"; audioUrl := Some (u16 "blob:1");
     audioBlob := Some clip5; transcription := None |}.

(** [loadRecordings], the effect run when [App] mounts
    (src/App.tsx, lines 28-39). *)
Definition loadRecordings (dbenv : DBEnv) (Date_getTime : jsstring -> number)
  (app : App.State) (st : DBState) : App.State * DBState :=
  match getRecordingsFromDB dbenv Date_getTime st with
  | (Returned savedRecordings, st') =>
      (App.setRecordings savedRecordings app, st')
  | (Thrown _, st') =>
      (App.setError (Some (u16 "Could not load saved recordings.")) app, st')
  | (_, st') => (app, st')
  end.

(** * Properties *)

(** ** Numbers *)

Lemma Qred_inject_Z (z : Z) : Qred (inject_Z z) = inject_Z z.
Proof.
  pose proof (gcd_Qred (inject_Z z)) as Hg.
  pose proof (Qred_correct (inject_Z z)) as He.
  destruct (Qred (inject_Z z)) as [a b].
  unfold Qeq, inject_Z in He. cbn [Qnum Qden] in *.
  assert (Hb : Z.pos b = 1).
  { assert (Hd : (Z.pos b | a)) by (exists z; lia).
    pose proof (Z.gcd_comm a (Z.pos b)) as Hc.
    apply Z.divide_gcd_iff in Hd; lia. }
  unfold inject_Z. f_equal; [lia | congruence].
Qed.

Lemma Qred_Z (x : Q) (z : Z) : x == inject_Z z -> Qred x = inject_Z z.
Proof.
  intros H. rewrite (Qred_complete _ _ H). apply Qred_inject_Z.
Qed.

Lemma MAX_CHUNK_SECONDS_eq : MAX_CHUNK_SECONDS = num 540.
Proof. reflexivity. Qed.

Lemma num_add_Z (a b : Z) : num_add (num a) (num b) = num (a + b).
Proof.
  unfold num, num_add. f_equal. apply Qred_Z.
  rewrite inject_Z_plus. reflexivity.
Qed.

Lemma num_mul_Z (a b : Z) : num_mul (num a) (num b) = num (a * b).
Proof.
  unfold num, num_mul. f_equal. apply Qred_Z.
  rewrite inject_Z_mult. reflexivity.
Qed.

Lemma Qle_bool_Z (a b : Z) : Qle_bool (inject_Z a) (inject_Z b) = (a <=? b).
Proof.
  destruct (Z.leb_spec a b) as [H | H].
  - apply Qle_bool_iff. rewrite <- Zle_Qle. exact H.
  - destruct (Qle_bool (inject_Z a) (inject_Z b)) eqn:E; [| reflexivity].
    apply Qle_bool_iff in E. rewrite <- Zle_Qle in E. lia.
Qed.

Lemma num_lt_Z (a b : Z) : num_lt (num a) (num b) = (a <? b).
Proof.
  unfold num, num_lt, Qlt_bool. rewrite Qle_bool_Z, Z.ltb_antisym.
  reflexivity.
Qed.

Lemma num_le_Z (a b : Z) : num_le (num a) (num b) = (a <=? b).
Proof. apply Qle_bool_Z. Qed.

Lemma numChunksOf_finite (q : Q) :
  numChunksOf (Finite q) = num (Qceiling (q / 540)).
Proof.
  unfold numChunksOf. rewrite MAX_CHUNK_SECONDS_eq.
  unfold num_div, num. cbn [Math_ceil].
  replace (Qeq_bool (inject_Z 540) 0) with false by reflexivity.
  unfold Math_ceil, num. do 2 f_equal.
  apply Qceiling_comp. apply Qred_correct.
Qed.

Lemma numChunks_ge_2 (q : Q) : (540 < q)%Q -> 2 <= Qceiling (q / 540).
Proof.
  intros H.
  assert (H1 : (1 < q / 540)%Q).
  { apply Qlt_shift_div_l; [reflexivity | ]. rewrite Qmult_1_l. exact H. }
  pose proof (Qle_ceiling (q / 540)) as H2.
  assert (H3 : (inject_Z 1 < inject_Z (Qceiling (q / 540)))%Q)
    by (eapply Qlt_le_trans; [exact H1 | exact H2]).
  rewrite <- Zlt_Qlt in H3. lia.
Qed.

Lemma chunkSizeOf_finite (b : Blob) (n : Z) :
  n <> 0 -> chunkSizeOf b (num n) = num (ceilDiv (size b) n).
Proof.
  intros Hn. unfold chunkSizeOf, num_div, num.
  assert (E : Qeq_bool (inject_Z n) 0 = false).
  { destruct (Qeq_bool (inject_Z n) 0) eqn:E; [| reflexivity].
    apply Qeq_bool_eq in E. unfold Qeq, inject_Z in E. cbn in E. lia. }
  rewrite E. unfold Math_ceil, num, ceilDiv. do 2 f_equal.
  apply Qceiling_comp. apply Qred_correct.
Qed.

Lemma ceilDiv_bounds (S n : Z) :
  0 < n -> n * (ceilDiv S n - 1) < S <= n * ceilDiv S n.
Proof.
  intros Hn. unfold ceilDiv.
  set (x := (inject_Z S / inject_Z n)%Q).
  assert (Hq : (0 < inject_Z n)%Q).
  { change (inject_Z 0 < inject_Z n)%Q. rewrite <- Zlt_Qlt. exact Hn. }
  assert (Hx : (x * inject_Z n == inject_Z S)%Q).
  { unfold x. field. intros E. rewrite E in Hq. discriminate. }
  pose proof (Qle_ceiling x) as Hu. pose proof (Qceiling_lt x) as Hl.
  split.
  - apply (Qmult_lt_compat_r _ _ (inject_Z n) Hq) in Hl.
    rewrite Hx, <- inject_Z_mult, <- Zlt_Qlt in Hl. lia.
  - apply (Qmult_le_compat_r _ _ (inject_Z n)) in Hu; [| apply Qlt_le_weak, Hq].
    rewrite Hx, <- inject_Z_mult, <- Zle_Qle in Hu. lia.
Qed.

Lemma round_half_even_Z (z : Z) : round_half_even (inject_Z z) = z.
Proof.
  unfold round_half_even. rewrite Qfloor_Z.
  replace (Qlt_bool (inject_Z z - inject_Z z) (1 # 2)) with true; [reflexivity |].
  symmetry. unfold Qlt_bool. apply negb_true_iff.
  destruct (Qle_bool (1 # 2) (inject_Z z - inject_Z z)) eqn:E; [| reflexivity].
  apply Qle_bool_iff in E.
  assert (H0 : (inject_Z z - inject_Z z == 0)%Q) by ring.
  rewrite H0 in E. unfold Qle in E. cbn in E. lia.
Qed.

Lemma toClampedLongLong_Z (z : Z) :
  LLONG_MIN <= z <= LLONG_MAX -> toClampedLongLong (num z) = z.
Proof.
  intros H. unfold toClampedLongLong, num. rewrite round_half_even_Z. lia.
Qed.

(** ** Blobs and chunks *)

Lemma toClampedLongLong_num (z : Z) :
  toClampedLongLong (num z) = Z.min (Z.max z LLONG_MIN) LLONG_MAX.
Proof. unfold toClampedLongLong, num. rewrite round_half_even_Z. reflexivity. Qed.

Lemma chunkRange_eq (S cs i : Z) :
  0 <= S -> 0 <= cs -> 0 <= i ->
  chunkRange S cs i = (Z.min (i * cs) S, Z.min ((i + 1) * cs) S).
Proof.
  intros HS Hcs Hi. unfold chunkRange, sliceRange, relativePos.
  assert (0 <= i * cs) by nia.
  destruct (Z.ltb_spec (i * cs) 0); [lia |].
  destruct (Z.ltb_spec (i * cs + cs) 0); [lia |].
  f_equal. lia.
Qed.

(** With the clamping of its arguments, a slice of a blob of at most
    [LLONG_MAX] bytes is the range [sliceRange] gives. *)
Lemma chunkOf_bytes (b : Blob) (mime : jsstring) (cs i : Z) :
  size b <= LLONG_MAX -> 0 <= cs -> 0 <= i ->
  bytes (chunkOf b mime (num cs) i) =
  firstn (Z.to_nat (snd (chunkRange (size b) cs i)
                    - fst (chunkRange (size b) cs i)))
    (skipn (Z.to_nat (fst (chunkRange (size b) cs i))) (bytes b)).
Proof.
  intros HS Hcs Hi. unfold chunkOf.
  rewrite num_mul_Z, num_add_Z. unfold slice.
  rewrite !toClampedLongLong_num.
  assert (H0 : 0 <= size b) by (unfold size; lia).
  assert (H1 : 0 <= i * cs) by nia.
  assert (E : sliceRange (size b)
                (Z.min (Z.max (i * cs) LLONG_MIN) LLONG_MAX)
                (Z.min (Z.max (i * cs + cs) LLONG_MIN) LLONG_MAX)
              = chunkRange (size b) cs i).
  { rewrite chunkRange_eq by assumption.
    unfold sliceRange, relativePos, LLONG_MIN in *.
    destruct (Z.ltb_spec (Z.min (Z.max (i * cs) (- 2 ^ 63)) LLONG_MAX) 0);
      [unfold LLONG_MAX in *; lia |].
    destruct (Z.ltb_spec (Z.min (Z.max (i * cs + cs) (- 2 ^ 63)) LLONG_MAX) 0);
      [unfold LLONG_MAX in *; lia |].
    f_equal; lia. }
  rewrite E. destruct (chunkRange (size b) cs i). reflexivity.
Qed.

Lemma firstn_skipn_glue {A} (l : list A) (a c : nat) :
  (a <= c)%nat -> firstn (c - a) (skipn a l) ++ skipn c l = skipn a l.
Proof.
  intros H. replace (skipn c l) with (skipn (c - a) (skipn a l)).
  - apply firstn_skipn.
  - rewrite skipn_skipn. f_equal. lia.
Qed.

(** The chunks from [i] on, laid end to end, are the blob from the start
    of chunk [i] on, provided the last of them reaches the end. *)
Lemma chunks_concat_from (b : Blob) (mime : jsstring) (cs : Z) (k : nat) :
  forall i, size b <= LLONG_MAX -> 0 <= cs -> 0 <= i ->
  size b <= (i + Z.of_nat k) * cs ->
  concat (map (fun j => bytes (chunkOf b mime (num cs) j)) (zrange i k)) =
  skipn (Z.to_nat (Z.min (i * cs) (size b))) (bytes b).
Proof.
  assert (H0 : 0 <= size b) by (unfold size; lia).
  induction k as [| k IH]; intros i HS Hcs Hi Hend.
  - cbn [zrange map concat]. rewrite Z.add_0_r in Hend.
    rewrite Z.min_r by lia. unfold size. rewrite Nat2Z.id.
    symmetry. apply skipn_all.
  - cbn [zrange map concat]. rewrite IH by lia.
    rewrite chunkOf_bytes by assumption.
    rewrite chunkRange_eq by assumption. cbn [fst snd].
    assert (Hstep : i * cs <= (i + 1) * cs) by nia.
    assert (Hpos : 0 <= i * cs) by nia.
    rewrite Z2Nat.inj_sub by lia.
    apply firstn_skipn_glue. apply Z2Nat.inj_le; lia.
Qed.

(** ** The probe and the chunk loop *)

Arguments u16 : simpl never.
Arguments toString : simpl never.
Arguments numberToString : simpl never.

Lemma dispatch_fold_trace (b : Blob) (evs : list MediaEvent) :
  forall p tr0 tr,
    fold_left (dispatch b) evs (p, tr0 ++ tr) =
    (fst (fold_left (dispatch b) evs (p, tr)),
     tr0 ++ snd (fold_left (dispatch b) evs (p, tr))).
Proof.
  induction evs as [| ev evs IH]; intros p tr0 tr; [reflexivity |].
  cbn [fold_left]. unfold dispatch at 2 4 6.
  destruct ev; [destruct (onLoadedmetadata p) | destruct (onError p)];
    rewrite <- ?app_assoc; apply IH.
Qed.

Lemma getAudioDuration_eq (env : Env) (b : Blob) (tr : trace) :
  getAudioDuration env b tr =
  (match probed env b with Some d => Returned d | None => Pending end,
   tr ++ snd (probeRun env b)).
Proof.
  unfold getAudioDuration, probed, probeRun.
  rewrite dispatch_fold_trace.
  destruct (resolved _); reflexivity.
Qed.

Lemma count_calls_snoc (tr : trace) (ev : Event) :
  length (filter isGenerateContent (tr ++ [ev])) =
  (length (filter isGenerateContent tr)
   + if isGenerateContent ev then 1 else 0)%nat.
Proof.
  rewrite filter_app, length_app. cbn [filter].
  destruct (isGenerateContent ev); reflexivity.
Qed.

Section Loop.
Variables (env : Env) (b : Blob).
Hypothesis Hread : readable env.

Lemma chunkLoop_closed (n cs : Z) (k : nat) :
  forall fuel i parts tr,
    0 <= i -> n = i + Z.of_nat k -> (k < fuel)%nat ->
    length (filter isGenerateContent tr) = Z.to_nat i ->
    chunkLoop env fuel b (mimeTypeOf b) (num n) (num cs) i parts tr =
    (Returned (parts ++ map (segment env b (num cs)) (zrange i k)),
     tr ++ flat_map (chunkEvents env b (num n) (num cs)) (zrange i k)).
Proof.
  induction k as [| k IH]; intros fuel i parts tr Hi Hn Hfuel Hcount;
    (destruct fuel as [| fuel]; [lia |]); cbn [chunkLoop]; rewrite num_lt_Z.
  - destruct (Z.ltb_spec i n); [lia |].
    cbn [zrange map flat_map]. rewrite !app_nil_r. reflexivity.
  - destruct (Z.ltb_spec i n); [| lia].
    cbn [zrange map flat_map].
    unfold bind at 1, onProgress, emit.
    unfold bind at 1, blobToBase64. unfold bind at 1, emit.
    destruct (Hread (chunkOf b (mimeTypeOf b) (num cs) i)) as [r Hr].
    rewrite Hr. unfold ret at 1.
    unfold bind at 1, try_catch, generateContent.
    rewrite !count_calls_snoc, Hcount. cbn [isGenerateContent].
    rewrite !Nat.add_0_r.
    unfold segment, chunkEvents, chunkRequest, base64Of. rewrite Hr.
    destruct (remote env (Z.to_nat i) _) as [text | reason].
    + rewrite IH; try lia.
      * rewrite <- !app_assoc. reflexivity.
      * rewrite !count_calls_snoc, Hcount. cbn [isGenerateContent]. lia.
    + unfold bind at 1, emit, ret.
      rewrite IH; try lia.
      * rewrite <- !app_assoc. reflexivity.
      * rewrite !count_calls_snoc, Hcount. cbn [isGenerateContent]. lia.
Qed.
End Loop.

(** ** Blank strings *)

Lemma trimStart_nil_iff (s : jsstring) : trimStart s = [] <-> blank s = true.
Proof.
  unfold blank. induction s as [| c s IH]; cbn [trimStart forallb].
  - tauto.
  - destruct (isWhiteSpace c); cbn [andb]; [exact IH |].
    split; discriminate.
Qed.

Lemma trimStart_head (s : jsstring) (c : N) (r : jsstring) :
  trimStart s = c :: r -> isWhiteSpace c = false.
Proof.
  induction s as [| d s IH]; cbn [trimStart]; [discriminate |].
  destruct (isWhiteSpace d) eqn:E; [exact IH |].
  intros H. injection H as -> _. exact E.
Qed.

Lemma blank_rev (s : jsstring) : blank (rev s) = blank s.
Proof.
  unfold blank. induction s as [| c s IH]; [reflexivity |].
  cbn [rev forallb]. rewrite forallb_app, IH. cbn [forallb].
  rewrite andb_true_r. apply andb_comm.
Qed.

Lemma trim_nil_iff (s : jsstring) : trim s = [] <-> blank s = true.
Proof.
  unfold trim, trimEnd. split.
  - intros H.
    assert (H1 : trimStart (rev (trimStart s)) = []).
    { destruct (trimStart (rev (trimStart s))); [reflexivity |].
      apply (f_equal (@length N)) in H. rewrite length_rev in H.
      discriminate H. }
    apply trimStart_nil_iff in H1. rewrite blank_rev in H1.
    destruct (trimStart s) as [| c r] eqn:E.
    + apply trimStart_nil_iff. exact E.
    + apply trimStart_head in E. unfold blank in H1. cbn [forallb] in H1.
      rewrite E in H1. discriminate H1.
  - intros H. apply trimStart_nil_iff in H. rewrite H. reflexivity.
Qed.

Lemma truthy_trim (s : jsstring) : truthy (trim s) = negb (blank s).
Proof.
  destruct (blank s) eqn:E.
  - apply trim_nil_iff in E. rewrite E. reflexivity.
  - destruct (trim s) eqn:T; [| reflexivity].
    apply trim_nil_iff in T. congruence.
Qed.

Lemma blank_app (s t : jsstring) : blank (s ++ t) = blank s && blank t.
Proof. apply forallb_app. Qed.

(** A joined string is blank only if every part is. *)
Lemma blank_join (sep : jsstring) (parts : list jsstring) (p : jsstring) :
  In p parts -> blank p = false -> blank (join sep parts) = false.
Proof.
  induction parts as [| a rest IH]; intros Hin Hp; [destruct Hin |].
  cbn [join]. destruct rest as [| a' rest'].
  - destruct Hin as [-> | []]. exact Hp.
  - rewrite !blank_app. destruct Hin as [-> | Hin].
    + rewrite Hp. reflexivity.
    + rewrite (IH Hin Hp). rewrite !andb_false_r. reflexivity.
Qed.

Lemma errorPlaceholder_not_blank (i : Z) : blank (errorPlaceholder i) = false.
Proof. reflexivity. Qed.

(** ** The phases of [processAudio] *)

Lemma dispatch_fold_url (b : Blob) (evs : list MediaEvent) :
  forall p tr,
    Forall (fun ev => isUrlEvent ev = true) tr ->
    Forall (fun ev => isUrlEvent ev = true)
      (snd (fold_left (dispatch b) evs (p, tr))).
Proof.
  induction evs as [| ev evs IH]; intros p tr H; [exact H |].
  cbn [fold_left]. unfold dispatch at 2.
  destruct ev; [destruct (onLoadedmetadata p) | destruct (onError p)];
    apply IH; try exact H;
    (apply Forall_app; split; [exact H | repeat constructor]).
Qed.

Lemma probe_events_url (env : Env) (b : Blob) :
  Forall (fun ev => isUrlEvent ev = true) (snd (probeRun env b)).
Proof. apply dispatch_fold_url. repeat constructor. Qed.

Lemma filter_url_nil (f : Event -> bool) (tr : trace) :
  (forall ev, isUrlEvent ev = true -> f ev = false) ->
  Forall (fun ev => isUrlEvent ev = true) tr -> filter f tr = [].
Proof.
  intros Hf H. induction H as [| ev tr Hev _ IH]; [reflexivity |].
  cbn [filter]. rewrite (Hf ev Hev). exact IH.
Qed.

Lemma progressValues_url (tr : trace) :
  Forall (fun ev => isUrlEvent ev = true) tr -> progressValues tr = [].
Proof.
  intros H. induction H as [| ev tr Hev _ IH]; [reflexivity |].
  destruct ev; try discriminate Hev; exact IH.
Qed.

Lemma startTrace_filter (f : Event -> bool) (env : Env) (b : Blob) :
  (forall ev, isUrlEvent ev = true -> f ev = false) ->
  (forall m p, f (OnProgress m p) = false) ->
  filter f (startTrace env b) = [].
Proof.
  intros Hf Hp. unfold startTrace. cbn [filter]. rewrite Hp.
  apply filter_url_nil; [exact Hf | apply probe_events_url].
Qed.

Lemma startTrace_calls (env : Env) (b : Blob) :
  filter isGenerateContent (startTrace env b) = [].
Proof. apply startTrace_filter; [intros [] | ]; (discriminate || reflexivity). Qed.

Lemma startTrace_progress (env : Env) (b : Blob) :
  progressValues (startTrace env b) = [num 5].
Proof.
  unfold startTrace. cbn [progressValues]. f_equal.
  apply progressValues_url, probe_events_url.
Qed.

Lemma processAudio_eq (env : Env) (fuel : nat) (b : Blob) :
  processAudio env fuel b [] =
  match probed env b with
  | Some d => bind (transcribe env fuel b d) (analyze env) (startTrace env b)
  | None => (Pending, startTrace env b)
  end.
Proof.
  unfold processAudio. unfold bind at 1, onProgress, emit.
  unfold bind at 1. rewrite getAudioDuration_eq.
  cbn [app]. fold (startTrace env b).
  destruct (probed env b); reflexivity.
Qed.

Lemma transcribe_single (env : Env) (fuel : nat) (b : Blob) (d : number)
  (tr : trace) (result : jsstring) :
  num_le d MAX_CHUNK_SECONDS = true ->
  fileReader env b = LoadEndString result ->
  transcribe env fuel b d tr =
  (match remote env (length (filter isGenerateContent tr)) (singleRequest env b)
   with
   | Responds text => Returned text
   | Rejects reason => Thrown (ApiError reason)
   end,
   tr ++ [OnProgress (u16 "Transcribing audio...") (num 20);
          ReadAsDataURL b; GenerateContent (singleRequest env b)]).
Proof.
  intros Hd Hr. unfold transcribe. rewrite Hd.
  unfold bind at 1, onProgress, emit.
  unfold bind at 1, blobToBase64. unfold bind at 1, emit. rewrite Hr.
  unfold ret, generateContent, singleRequest, base64Of. rewrite Hr.
  rewrite !count_calls_snoc. cbn [isGenerateContent]. rewrite !Nat.add_0_r.
  rewrite <- !app_assoc. cbn [app].
  destruct (remote env _ _); reflexivity.
Qed.

Lemma num_le_finite (q : Q) :
  num_le (Finite q) MAX_CHUNK_SECONDS = Qle_bool q 540.
Proof. reflexivity. Qed.

Lemma transcribe_chunked (env : Env) (fuel : nat) (b : Blob) (q : Q)
  (tr : trace) :
  readable env -> (540 < q)%Q ->
  filter isGenerateContent tr = [] ->
  let n := Qceiling (q / 540) in
  let cs := ceilDiv (size b) n in
  (Z.to_nat n < fuel)%nat ->
  transcribe env fuel b (Finite q) tr =
  (Returned (join (u16 " ")
               (map (segment env b (num cs)) (zrange 0 (Z.to_nat n)))),
   tr ++ flat_map (chunkEvents env b (num n) (num cs))
           (zrange 0 (Z.to_nat n))).
Proof.
  intros Hread Hq Hcalls n cs Hfuel.
  pose proof (numChunks_ge_2 q Hq) as Hn. fold n in Hn.
  unfold transcribe. rewrite num_le_finite.
  assert (E : Qle_bool q 540 = false).
  { destruct (Qle_bool q 540) eqn:E; [| reflexivity].
    apply Qle_bool_iff in E. exfalso. exact (Qlt_not_le _ _ Hq E). }
  rewrite E. rewrite numChunksOf_finite. fold n.
  rewrite chunkSizeOf_finite by lia. fold cs.
  unfold bind.
  rewrite (chunkLoop_closed env b Hread n cs (Z.to_nat n)); try lia.
  - reflexivity.
  - rewrite Hcalls. reflexivity.
Qed.

Lemma analyze_blank (env : Env) (raw : jsstring) (tr : trace) :
  blank raw = true -> analyze env raw tr = (Thrown emptyTranscriptError, tr).
Proof.
  intros H. unfold analyze. rewrite truthy_trim, H. reflexivity.
Qed.

Lemma analyze_not_blank (env : Env) (raw : jsstring) (tr : trace) :
  blank raw = false ->
  analyze env raw tr =
  match remote env (length (filter isGenerateContent tr)) (analysisRequest raw)
  with
  | Rejects reason =>
      (Thrown (ApiError reason),
       tr ++ [OnProgress (u16 "Analyzing full transcript...") (num 85);
              GenerateContent (analysisRequest raw)])
  | Responds text =>
      match JSON.parse text with
      | None =>
          (Thrown SyntaxError,
           tr ++ [OnProgress (u16 "Analyzing full transcript...") (num 85);
                  GenerateContent (analysisRequest raw)])
      | Some analysisJson =>
          (Returned (setProp (u16 "rawTranscript") (VString raw)
                       (copyDataProperties [] analysisJson)),
           tr ++ [OnProgress (u16 "Analyzing full transcript...") (num 85);
                  GenerateContent (analysisRequest raw);
                  OnProgress (u16 "Finalizing...") (num 100)])
      end
  end.
Proof.
  intros H. unfold analyze. rewrite truthy_trim, H. cbn [negb].
  unfold bind at 1, onProgress, emit.
  unfold bind at 1, generateContent. fold (analysisRequest raw).
  rewrite count_calls_snoc. cbn [isGenerateContent]. rewrite Nat.add_0_r.
  rewrite <- !app_assoc. cbn [app].
  destruct (remote env _ _) as [text | reason]; [| reflexivity].
  destruct (JSON.parse text); [| reflexivity].
  unfold bind, emit, ret. rewrite <- !app_assoc. reflexivity.
Qed.

(** ** What each phase adds to the trace *)

Lemma extends_refl (P : Event -> bool) (tr : trace) : extends P tr tr.
Proof. exists []. rewrite app_nil_r. split; [reflexivity | constructor]. Qed.

Lemma extends_trans (P : Event -> bool) (a b c : trace) :
  extends P a b -> extends P b c -> extends P a c.
Proof.
  intros [x [-> Hx]] [y [-> Hy]]. exists (x ++ y).
  rewrite app_assoc. split; [reflexivity | apply Forall_app; tauto].
Qed.

Lemma extends_snoc (P : Event -> bool) (tr : trace) (ev : Event) :
  P ev = true -> extends P tr (tr ++ [ev]).
Proof. intros H. exists [ev]. split; [reflexivity | repeat constructor; exact H]. Qed.

Lemma extends_filter (P f : Event -> bool) (tr tr' : trace) :
  (forall ev, P ev = true -> f ev = false) ->
  extends P tr tr' -> filter f tr' = filter f tr.
Proof.
  intros Hf [extra [-> H]]. rewrite filter_app.
  replace (filter f extra) with (@nil Event); [apply app_nil_r |].
  symmetry. induction H as [| ev l Hev _ IH]; [reflexivity |].
  cbn [filter]. rewrite (Hf ev Hev). exact IH.
Qed.

Section Phases.
Variables (env : Env) (b : Blob).

Lemma chunkLoop_extends (mime : jsstring) (numChunks cs : number) (fuel : nat) :
  forall i parts tr,
    extends isTranscribePhase tr
      (snd (chunkLoop env fuel b mime numChunks cs i parts tr)).
Proof.
  induction fuel as [| fuel IH]; intros i parts tr; cbn [chunkLoop].
  - apply extends_refl.
  - destruct (num_lt (num i) numChunks); [| apply extends_refl].
    unfold bind at 1, onProgress, emit.
    unfold bind at 1, blobToBase64. unfold bind at 1, emit.
    set (tr1 := (tr ++ [OnProgress _ _]) ++ [ReadAsDataURL _]).
    assert (H1 : extends isTranscribePhase tr tr1).
    { eapply extends_trans; apply extends_snoc; reflexivity. }
    destruct (fileReader env _); unfold ret, throw; try exact H1.
    unfold bind at 1, try_catch, generateContent.
    destruct (remote env _ _).
    + eapply extends_trans; [| apply IH].
      eapply extends_trans; [exact H1 | apply extends_snoc; reflexivity].
    + unfold bind at 1, emit, ret.
      eapply extends_trans; [| apply IH].
      eapply extends_trans; [exact H1 |].
      eapply extends_trans; apply extends_snoc; reflexivity.
Qed.

Lemma transcribe_extends (fuel : nat) (d : number) (tr : trace) :
  extends isTranscribePhase tr (snd (transcribe env fuel b d tr)).
Proof.
  unfold transcribe. destruct (num_le d MAX_CHUNK_SECONDS).
  - unfold bind at 1, onProgress, emit.
    unfold bind at 1, blobToBase64. unfold bind at 1, emit.
    set (tr1 := (tr ++ [OnProgress _ _]) ++ [ReadAsDataURL _]).
    assert (H1 : extends isTranscribePhase tr tr1).
    { eapply extends_trans; apply extends_snoc; reflexivity. }
    destruct (fileReader env _); unfold ret, throw; try exact H1.
    unfold generateContent.
    destruct (remote env _ _);
      (eapply extends_trans; [exact H1 | apply extends_snoc; reflexivity]).
  - unfold bind.
    pose proof (chunkLoop_extends (mimeTypeOf b) (numChunksOf d)
                  (chunkSizeOf b (numChunksOf d)) fuel 0 [] tr) as H.
    destruct (chunkLoop env fuel b _ _ _ 0 [] tr) as [[parts | e | |] tr'];
      exact H.
Qed.

Lemma analyze_extends (raw : jsstring) (tr : trace) :
  extends isAnalysisPhase tr (snd (analyze env raw tr)).
Proof.
  destruct (blank raw) eqn:E.
  - rewrite analyze_blank by exact E. apply extends_refl.
  - rewrite analyze_not_blank by exact E.
    destruct (remote env _ _) as [text | reason];
      [destruct (JSON.parse text) |]; cbn [snd];
      eexists; (split; [reflexivity | repeat constructor]).
Qed.

End Phases.

(** The trace of a run is the start trace, what the transcription phase
    adds and what the analysis phase adds. *)
Lemma bind_snd_cases {A B} (m : Async trace A) (k : A -> Async trace B)
  (tr : trace) :
  snd (bind m k tr) =
  match m tr with
  | (Returned a, tr') => snd (k a tr')
  | (_, tr') => tr'
  end.
Proof. unfold bind. destruct (m tr) as [[a | e | |] tr']; reflexivity. Qed.

Lemma run_filter_analysis_free (env : Env) (fuel : nat) (b : Blob)
  (f : Event -> bool) (d : number) :
  (forall ev, isAnalysisPhase ev = true -> f ev = false) ->
  probed env b = Some d ->
  filter f (snd (processAudio env fuel b [])) =
  filter f (snd (transcribe env fuel b d (startTrace env b))).
Proof.
  intros Hf Hd. rewrite processAudio_eq, Hd, bind_snd_cases.
  destruct (transcribe env fuel b d (startTrace env b)) as [[raw | e | |] tr'];
    try reflexivity.
  cbn [snd]. apply (extends_filter isAnalysisPhase); [exact Hf |].
  apply analyze_extends.
Qed.

(** ** Progress values *)

Lemma chunkProgress_eq (i n : Z) :
  0 < n -> chunkProgress i (num n) = num (20 + interpolated i n).
Proof.
  intros Hn. unfold chunkProgress, num_div, num.
  assert (E : Qeq_bool (inject_Z n) 0 = false).
  { destruct (Qeq_bool (inject_Z n) 0) eqn:E; [| reflexivity].
    apply Qeq_bool_eq in E. unfold Qeq, inject_Z in E. cbn in E. lia. }
  rewrite E. cbn [num_mul Math_round]. fold (num 20).
  rewrite num_add_Z. unfold num. do 3 f_equal.
  unfold interpolated. rewrite Zdiv_Qdiv. apply Qfloor_comp.
  rewrite !Qred_correct. rewrite inject_Z_plus, !inject_Z_mult.
  assert (Hq : ~ (inject_Z n == 0)%Q).
  { intros H. unfold Qeq, inject_Z in H. cbn in H. lia. }
  field. exact Hq.
Qed.

Lemma interpolated_0 (n : Z) : 0 < n -> interpolated 0 n = 0.
Proof.
  intros Hn. unfold interpolated. apply Z.div_small. lia.
Qed.

Lemma interpolated_mono (i j n : Z) :
  0 < n -> i <= j -> interpolated i n <= interpolated j n.
Proof.
  intros Hn Hij. unfold interpolated. apply Z.div_le_mono; lia.
Qed.

Lemma interpolated_range (i n : Z) :
  0 <= i < n -> 0 <= interpolated i n <= 60.
Proof.
  intros H. unfold interpolated. split.
  - apply Z.div_pos; lia.
  - apply Z.lt_succ_r. apply Z.div_lt_upper_bound; lia.
Qed.

Lemma progressValues_app (a c : trace) :
  progressValues (a ++ c) = progressValues a ++ progressValues c.
Proof.
  induction a as [| ev a IH]; [reflexivity |].
  destruct ev; cbn [app progressValues]; rewrite IH; reflexivity.
Qed.

Lemma nondecreasing_map_num (l : list Z) :
  StronglySorted Z.le l -> nondecreasing (map num l) = true.
Proof.
  induction 1 as [| a l Hs IH Ha]; [reflexivity |].
  destruct l as [| c l]; [reflexivity |].
  cbn [map nondecreasing] in *. rewrite IH, andb_true_r.
  rewrite num_le_Z. apply Z.leb_le. inversion Ha; assumption.
Qed.

Lemma zrange_app (i : Z) (k l : nat) :
  zrange i (k + l) = zrange i k ++ zrange (i + Z.of_nat k) l.
Proof.
  revert i. induction k as [| k IH]; intros i.
  - cbn [zrange app Nat.add]. f_equal. lia.
  - cbn [zrange app Nat.add]. rewrite IH. do 3 f_equal. lia.
Qed.

Lemma zrange_In (i : Z) (k : nat) (j : Z) :
  In j (zrange i k) <-> i <= j < i + Z.of_nat k.
Proof.
  revert i. induction k as [| k IH]; intros i; cbn [zrange In].
  - lia.
  - rewrite IH. lia.
Qed.

Lemma zrange_length (i : Z) (k : nat) : length (zrange i k) = k.
Proof. revert i. induction k; intros; cbn [zrange length]; auto. Qed.

Lemma zrange_nth (i : Z) (k j : nat) :
  (j < k)%nat -> nth_error (zrange i k) j = Some (i + Z.of_nat j).
Proof.
  revert i j. induction k as [| k IH]; intros i j H; [lia |].
  destruct j as [| j]; cbn [zrange nth_error].
  - f_equal. lia.
  - rewrite IH by lia. f_equal. lia.
Qed.

(** The progress values of the chunks from [i] on are sorted and lie
    between the value of chunk [i] and 80. *)
Lemma interpolated_sorted (n : Z) (k : nat) :
  forall i, 0 < n -> 0 <= i -> i + Z.of_nat k <= n ->
  StronglySorted Z.le
    (map (fun j => 20 + interpolated j n) (zrange i k) ++ [85; 100]).
Proof.
  induction k as [| k IH]; intros i Hn Hi Hk; cbn [zrange map app].
  - repeat constructor. lia.
  - constructor; [apply IH; lia |].
    apply Forall_app. split.
    + apply Forall_forall. intros x Hx. apply in_map_iff in Hx.
      destruct Hx as [j [<- Hj]]. apply zrange_In in Hj.
      pose proof (interpolated_mono i j n Hn). lia.
    + pose proof (interpolated_range i n). repeat constructor; lia.
Qed.

Lemma map_chunkProgress (n : Z) (i : Z) (k : nat) :
  0 < n ->
  map (fun j => chunkProgress j (num n)) (zrange i k) =
  map num (map (fun j => 20 + interpolated j n) (zrange i k)).
Proof.
  intros Hn. rewrite map_map. apply map_ext. intros j.
  apply chunkProgress_eq. exact Hn.
Qed.

(** ** Runs that return *)

Section Returned.
Variables (env : Env) (b : Blob).

(** A loop that returns has run [k] iterations, for the [k] at which its
    condition first fails. *)
Lemma chunkLoop_returned (mime : jsstring) (numChunks cs : number) (fuel : nat) :
  forall i parts tr parts' tr',
    chunkLoop env fuel b mime numChunks cs i parts tr = (Returned parts', tr') ->
    exists k : nat,
      num_lt (num (i + Z.of_nat k)) numChunks = false
      /\ (forall j, (j < k)%nat -> num_lt (num (i + Z.of_nat j)) numChunks = true)
      /\ progressValues tr' =
         progressValues tr
           ++ map (fun j => chunkProgress j numChunks) (zrange i k)
      /\ length parts' = (length parts + k)%nat.
Proof.
  induction fuel as [| fuel IH]; intros i parts tr parts' tr' H;
    cbn [chunkLoop] in H; [discriminate H |].
  destruct (num_lt (num i) numChunks) eqn:Hlt.
  - unfold bind at 1, onProgress, emit in H.
    unfold bind at 1, blobToBase64 in H. unfold bind at 1, emit in H.
    destruct (fileReader env _); unfold ret, throw in H; try discriminate H.
    unfold bind at 1, try_catch, generateContent in H.
    destruct (remote env _ _).
    + apply IH in H. destruct H as [k [H1 [H2 [H3 H4]]]].
      exists (S k). rewrite length_app in H4. cbn [length] in H4.
      rewrite !progressValues_app in H3. cbn [progressValues] in H3.
      repeat split.
      * replace (i + Z.of_nat (S k)) with (i + 1 + Z.of_nat k) by lia.
        exact H1.
      * intros [| j] Hj; [rewrite Z.add_0_r; exact Hlt |].
        replace (i + Z.of_nat (S j)) with (i + 1 + Z.of_nat j) by lia.
        apply H2. lia.
      * rewrite H3. cbn [zrange map]. rewrite <- !app_assoc. reflexivity.
      * lia.
    + unfold bind at 1, emit, ret in H.
      apply IH in H. destruct H as [k [H1 [H2 [H3 H4]]]].
      exists (S k). rewrite length_app in H4. cbn [length] in H4.
      rewrite !progressValues_app in H3. cbn [progressValues] in H3.
      repeat split.
      * replace (i + Z.of_nat (S k)) with (i + 1 + Z.of_nat k) by lia.
        exact H1.
      * intros [| j] Hj; [rewrite Z.add_0_r; exact Hlt |].
        replace (i + Z.of_nat (S j)) with (i + 1 + Z.of_nat j) by lia.
        apply H2. lia.
      * rewrite H3. cbn [zrange map]. rewrite <- !app_assoc. reflexivity.
      * lia.
  - unfold ret in H. injection H as <- <-. exists 0%nat.
    cbn [zrange map]. rewrite Z.add_0_r, app_nil_r, Nat.add_0_r.
    repeat split; [exact Hlt | lia].
Qed.

(** The progress values of a transcription phase that returns: the one
    value of the single pass, or one value per chunk of a duration beyond
    the limit; when neither, nothing was transcribed. *)
Lemma transcribe_returned (fuel : nat) (d : number) (tr : trace)
  (raw : jsstring) (tr' : trace) :
  transcribe env fuel b d tr = (Returned raw, tr') ->
  (num_le d MAX_CHUNK_SECONDS = true
   /\ progressValues tr' = progressValues tr ++ [num 20])
  \/ (exists q, d = Finite q /\ (540 < q)%Q
      /\ progressValues tr' =
         progressValues tr
           ++ map (fun j => chunkProgress j (num (Qceiling (q / 540))))
                (zrange 0 (Z.to_nat (Qceiling (q / 540)))))
  \/ raw = [].
Proof.
  unfold transcribe. destruct (num_le d MAX_CHUNK_SECONDS) eqn:Hd; intros H.
  - left. split; [reflexivity |].
    unfold bind at 1, onProgress, emit in H.
    unfold bind at 1, blobToBase64 in H. unfold bind at 1, emit in H.
    destruct (fileReader env _); unfold ret, throw in H; try discriminate H.
    unfold generateContent in H.
    destruct (remote env _ _); [| discriminate H].
    injection H as _ <-. rewrite !progressValues_app. cbn [progressValues].
    rewrite !app_nil_r. reflexivity.
  - right. unfold bind in H.
    destruct (chunkLoop env fuel b _ _ _ 0 [] tr) as [[parts | e | |] tr1] eqn:L;
      try discriminate H.
    unfold ret in H. injection H as <- <-.
    apply chunkLoop_returned in L. destruct L as [k [H1 [H2 [H3 H4]]]].
    destruct d as [q | | |].
    + left. exists q.
      assert (Hq : (540 < q)%Q).
      { rewrite num_le_finite in Hd. apply Qnot_le_lt. intros C.
        apply Qle_bool_iff in C. congruence. }
      pose proof (numChunks_ge_2 q Hq) as Hn.
      rewrite numChunksOf_finite in *.
      rewrite num_lt_Z in H1. apply Z.ltb_ge in H1.
      assert (Hk : k = Z.to_nat (Qceiling (q / 540))).
      { destruct k as [| k]; [lia |].
        specialize (H2 k (Nat.lt_succ_diag_r k)).
        rewrite num_lt_Z in H2. apply Z.ltb_lt in H2. lia. }
      subst k. repeat split; assumption.
    + discriminate H1.
    + discriminate Hd.
    + right. destruct k as [| k]; [| discriminate (H2 0%nat (Nat.lt_0_succ k))].
      destruct parts; [reflexivity | discriminate H4].
Qed.

End Returned.

(** ** Progress over a run *)

Lemma str_eqb_refl (s : jsstring) : str_eqb s s = true.
Proof.
  induction s as [| c s IH]; [reflexivity |].
  cbn [str_eqb]. rewrite N.eqb_refl. exact IH.
Qed.

Lemma getProp_setProp (key : jsstring) (v : value)
  (props : list (jsstring * value)) :
  getProp key (setProp key v props) = Some v.
Proof.
  induction props as [| [k w] rest IH]; cbn [setProp getProp].
  - rewrite str_eqb_refl. reflexivity.
  - destruct (str_eqb k key) eqn:E; cbn [getProp]; rewrite E;
      [reflexivity | exact IH].
Qed.

Lemma analyze_returned (env : Env) (raw : jsstring) (tr : trace)
  (result : list (jsstring * value)) (tr' : trace) :
  analyze env raw tr = (Returned result, tr') ->
  blank raw = false
  /\ getProp (u16 "rawTranscript") result = Some (VString raw)
  /\ tr' = tr ++ [OnProgress (u16 "Analyzing full transcript...") (num 85);
                 GenerateContent (analysisRequest raw);
                 OnProgress (u16 "Finalizing...") (num 100)].
Proof.
  destruct (blank raw) eqn:E.
  - rewrite analyze_blank by exact E. discriminate.
  - rewrite analyze_not_blank by exact E.
    destruct (remote env _ _) as [text | reason]; [| discriminate].
    destruct (JSON.parse text); [| discriminate].
    intros H. injection H as <- <-.
    repeat split. apply getProp_setProp.
Qed.

(** A run that returns went through a transcription phase and an analysis
    phase that both returned. *)
Lemma processAudio_returned (env : Env) (fuel : nat) (b : Blob)
  (result : list (jsstring * value)) (tr : trace) :
  processAudio env fuel b [] = (Returned result, tr) ->
  exists d raw tr1,
    probed env b = Some d
    /\ transcribe env fuel b d (startTrace env b) = (Returned raw, tr1)
    /\ analyze env raw tr1 = (Returned result, tr).
Proof.
  rewrite processAudio_eq. destruct (probed env b) as [d |]; [| discriminate].
  unfold bind.
  destruct (transcribe env fuel b d (startTrace env b))
    as [[raw | e | |] tr1] eqn:T; try discriminate.
  intros H. exists d, raw, tr1. repeat split; assumption.
Qed.

(** C5. Over a run that returns, the progress values reported are
    non-decreasing and the last one is 100.  They are 5, 20, 85, 100 for a
    single pass; for [n] chunks they are 5, then [20 + round(60 i / n)] for
    [i = 0 .. n-1], which starts at 20 and stays at most 80, then 85 and
    100. *)
Theorem progress_nondecreasing_ends_at_100 (env : Env) (fuel : nat) (b : Blob)
  (result : list (jsstring * value)) (tr : trace) :
  processAudio env fuel b [] = (Returned result, tr) ->
  nondecreasing (progressValues tr) = true
  /\ last (progressValues tr) NaN = num 100
  /\ (progressValues tr = [num 5; num 20; num 85; num 100]
      \/ exists n,
           2 <= n
           /\ progressValues tr =
              num 5 :: map (fun i => chunkProgress i (num n))
                         (zrange 0 (Z.to_nat n))
                    ++ [num 85; num 100]
           /\ chunkProgress 0 (num n) = num 20
           /\ forall i, 0 <= i < n ->
                chunkProgress i (num n) = num (20 + interpolated i n)
                /\ 0 <= interpolated i n <= 60).
Proof.
  intros H. apply processAudio_returned in H.
  destruct H as [d [raw [tr1 [Hd [HT HA]]]]].
  apply analyze_returned in HA. destruct HA as [Hraw [_ ->]].
  rewrite progressValues_app. cbn [progressValues].
  apply transcribe_returned in HT. rewrite startTrace_progress in HT.
  destruct HT as [[_ ->] | [[q [-> [Hq ->]]] | ->]]; [| | discriminate Hraw].
  - repeat split. left. reflexivity.
  - pose proof (numChunks_ge_2 q Hq) as Hn.
    set (n := Qceiling (q / 540)) in *.
    set (zs := map (fun j => 20 + interpolated j n) (zrange 0 (Z.to_nat n))).
    assert (E : ([num 5] ++ map (fun j => chunkProgress j (num n))
                              (zrange 0 (Z.to_nat n))) ++ [num 85; num 100]
                = map num ((5 :: zs ++ [85]) ++ [100])).
    { rewrite map_chunkProgress by lia. fold zs.
      rewrite <- app_assoc. cbn [map app]. rewrite !map_app. cbn [map].
      rewrite <- app_assoc. reflexivity. }
    assert (Hs : StronglySorted Z.le ((5 :: zs ++ [85]) ++ [100])).
    { cbn [app]. rewrite <- app_assoc. cbn [app].
      constructor; [apply interpolated_sorted; lia |].
      apply Forall_app. split; [| repeat constructor; lia].
      apply Forall_forall. intros x Hx. apply in_map_iff in Hx.
      destruct Hx as [j [<- Hj]]. apply zrange_In in Hj.
      pose proof (interpolated_range j n). lia. }
    split; [rewrite E; apply nondecreasing_map_num; exact Hs |].
    split; [rewrite E, map_app; apply last_last |].
    right. exists n. split; [exact Hn |]. split; [reflexivity |].
    split; [rewrite chunkProgress_eq, interpolated_0 by lia; reflexivity |].
    intros i Hi. split; [apply chunkProgress_eq; lia |].
    apply interpolated_range. exact Hi.
Qed.

Lemma progress_nondecreasing_ends_at_100_witness :
  nondecreasing
    (progressValues (snd (processAudio (answering (num 1500) (u16 "a")) 9 clip10 [])))
  = true
  /\ progressValues (snd (processAudio (answering (num 1500) (u16 "a")) 9 clip10 []))
     = [num 5; num 20; num 40; num 60; num 85; num 100].
Proof.
  split.
  - eapply (progress_nondecreasing_ends_at_100 (answering (num 1500) (u16 "a"))
              9 clip10).
    vm_compute. reflexivity.
  - vm_compute. reflexivity.
Defined.

(** ** The blank check *)

Lemma startTrace_analysis (env : Env) (b : Blob) :
  filter isAnalysis (startTrace env b) = [].
Proof. apply startTrace_filter; [intros [] | ]; (discriminate || reflexivity). Qed.

Lemma transcribe_no_analysis (env : Env) (fuel : nat) (b : Blob) (d : number) :
  filter isAnalysis (snd (transcribe env fuel b d (startTrace env b))) = [].
Proof.
  rewrite (extends_filter isTranscribePhase isAnalysis (startTrace env b)).
  - apply startTrace_analysis.
  - intros [| | | | [] |]; (discriminate || reflexivity).
  - apply transcribe_extends.
Qed.

(** C4. When the transcription phase returns a transcript that is empty
    or has only white space in it, the run throws the error "Failed to
    transcribe audio. The response was empty.": nothing is returned, and
    the trace of the run holds no analysis call. *)
Theorem blank_transcript_fails_before_analysis (env : Env) (fuel : nat)
  (b : Blob) (d : number) (raw : jsstring) (tr : trace) :
  probed env b = Some d ->
  transcribe env fuel b d (startTrace env b) = (Returned raw, tr) ->
  blank raw = true ->
  processAudio env fuel b [] = (Thrown emptyTranscriptError, tr)
  /\ filter isAnalysis (snd (processAudio env fuel b [])) = []
  /\ trim raw = [].
Proof.
  intros Hd HT Hraw.
  assert (E : processAudio env fuel b [] = (Thrown emptyTranscriptError, tr)).
  { rewrite processAudio_eq, Hd. unfold bind. rewrite HT.
    apply analyze_blank. exact Hraw. }
  split; [exact E |]. split; [| apply trim_nil_iff; exact Hraw].
  rewrite E. cbn [snd].
  replace tr with (snd (transcribe env fuel b d (startTrace env b)))
    by (rewrite HT; reflexivity).
  apply transcribe_no_analysis.
Qed.

Lemma blank_transcript_fails_before_analysis_witness :
  processAudio (answering (num 0) (u16 "  ")) 0 clip10 []
  = (Thrown emptyTranscriptError,
     snd (transcribe (answering (num 0) (u16 "  ")) 0 clip10 (num 0)
            (startTrace (answering (num 0) (u16 "  ")) clip10))).
Proof.
  eapply (blank_transcript_fails_before_analysis
            (answering (num 0) (u16 "  ")) 0 clip10 (num 0) (u16 "  ")).
  - vm_compute. reflexivity.
  - vm_compute. reflexivity.
  - vm_compute. reflexivity.
Defined.

(** ** The single pass *)

Lemma Qle_num_le (q : Q) :
  (q <= 540)%Q -> num_le (Finite q) MAX_CHUNK_SECONDS = true.
Proof. intros H. rewrite num_le_finite. apply Qle_bool_iff. exact H. Qed.

(** C2. For a probed duration of at most 540 seconds, zero included, the
    run reads one blob, the clip itself, and makes one transcription
    call, whose payload is the encoding of the whole clip. *)
Theorem single_pass_one_chunk_one_call (env : Env) (fuel : nat) (b : Blob)
  (q : Q) (result : jsstring) :
  probed env b = Some (Finite q) ->
  (q <= 540)%Q ->
  fileReader env b = LoadEndString result ->
  filter isReadAsDataURL (snd (processAudio env fuel b [])) = [ReadAsDataURL b]
  /\ filter isTranscription (snd (processAudio env fuel b []))
     = [GenerateContent
          (AudioRequest MODEL (mimeTypeOf b) (nth_error (split 44 result) 1)
             singlePrompt)].
Proof.
  intros Hd Hq Hr. apply Qle_num_le in Hq.
  assert (Hreq : singleRequest env b =
                 AudioRequest MODEL (mimeTypeOf b)
                   (nth_error (split 44 result) 1) singlePrompt).
  { unfold singleRequest, base64Of. rewrite Hr. reflexivity. }
  assert (Hfree : forall f,
            (forall ev, isAnalysisPhase ev = true -> f ev = false) ->
            (forall ev, isUrlEvent ev = true -> f ev = false) ->
            (forall m p, f (OnProgress m p) = false) ->
            filter f (snd (processAudio env fuel b [])) =
            filter f [OnProgress (u16 "Transcribing audio...") (num 20);
                      ReadAsDataURL b; GenerateContent (singleRequest env b)]).
  { intros f Hf Hu Hp.
    rewrite (run_filter_analysis_free env fuel b f (Finite q) Hf Hd).
    rewrite (transcribe_single env fuel b _ _ result Hq Hr). cbn [snd].
    rewrite filter_app, (startTrace_filter f env b Hu Hp). reflexivity. }
  split.
  - rewrite Hfree; [reflexivity | intros [| | | | [] |] | intros [] | ];
      (discriminate || reflexivity).
  - rewrite Hfree; [rewrite Hreq; reflexivity | intros [| | | | [] |]
                    | intros [] | ];
      (discriminate || reflexivity).
Qed.

Lemma single_pass_one_chunk_one_call_witness :
  filter isReadAsDataURL
    (snd (processAudio (answering (num 0) (u16 "hello")) 0 clip10 []))
  = [ReadAsDataURL clip10]
  /\ filter isTranscription
       (snd (processAudio (answering (num 0) (u16 "hello")) 0 clip10 []))
     = [GenerateContent
          (AudioRequest MODEL (u16 "audio/webm") (Some (u16 "AAAA"))
             singlePrompt)].
Proof.
  apply (single_pass_one_chunk_one_call (answering (num 0) (u16 "hello")) 0
           clip10 0 (u16 "data:audio/webm;base64,AAAA")).
  - vm_compute. reflexivity.
  - vm_compute. discriminate.
  - reflexivity.
Defined.

(** ** Chunked runs *)

Section Chunked.
Variables (env : Env) (fuel : nat) (b : Blob) (q : Q).
Hypothesis Hread : readable env.
Hypothesis Hq : (540 < q)%Q.

Let n : Z := Qceiling (q / 540).
Let cs : number := num (ceilDiv (size b) n).

Hypothesis Hfuel : (Z.to_nat n < fuel)%nat.

Lemma chunked_transcribe :
  transcribe env fuel b (Finite q) (startTrace env b) =
  (Returned (join (u16 " ") (map (segment env b cs) (zrange 0 (Z.to_nat n)))),
   startTrace env b
     ++ flat_map (chunkEvents env b (num n) cs) (zrange 0 (Z.to_nat n))).
Proof.
  apply transcribe_chunked; try assumption. apply startTrace_calls.
Qed.

Lemma chunkEvents_transcription (l : list Z) :
  filter isTranscription (flat_map (chunkEvents env b (num n) cs) l) =
  map (fun j => GenerateContent (chunkRequest env b cs j)) l.
Proof.
  induction l as [| j l IH]; [reflexivity |].
  cbn [flat_map map]. rewrite filter_app, IH. unfold chunkEvents.
  rewrite filter_app.
  destruct (remote env _ _); reflexivity.
Qed.

Lemma chunkEvents_reads (l : list Z) :
  filter isReadAsDataURL (flat_map (chunkEvents env b (num n) cs) l) =
  map (fun j => ReadAsDataURL (chunkOf b (mimeTypeOf b) cs j)) l.
Proof.
  induction l as [| j l IH]; [reflexivity |].
  cbn [flat_map map]. rewrite filter_app, IH. unfold chunkEvents.
  rewrite filter_app.
  destruct (remote env _ _); reflexivity.
Qed.

Lemma segment_nth (i : Z) :
  0 <= i < n ->
  nth_error (map (segment env b cs) (zrange 0 (Z.to_nat n))) (Z.to_nat i)
  = Some (segment env b cs i).
Proof.
  intros Hi. rewrite nth_error_map, zrange_nth by lia.
  cbn [option_map]. do 2 f_equal. lia.
Qed.

Lemma segment_rejected (i : Z) (reason : jsstring) :
  remote env (Z.to_nat i) (chunkRequest env b cs i) = Rejects reason ->
  segment env b cs i = errorPlaceholder i.
Proof. intros H. unfold segment. rewrite H. reflexivity. Qed.

Lemma analyze_calls (raw : jsstring) (tr : trace) :
  blank raw = false ->
  filter isAnalysis (snd (analyze env raw tr)) =
  filter isAnalysis tr ++ [GenerateContent (analysisRequest raw)].
Proof.
  intros H. rewrite analyze_not_blank by exact H.
  destruct (remote env _ _) as [text | reason];
    [destruct (JSON.parse text) |]; cbn [snd]; rewrite filter_app; reflexivity.
Qed.

(** A chunked run in which the call of chunk [i] is rejected: the
    transcription phase returns all the same, the placeholder is segment
    [i], the transcript is not blank and the analysis call is made. *)
Lemma chunked_run_with_rejection (i : Z) (reason : jsstring) :
  probed env b = Some (Finite q) ->
  0 <= i < n ->
  remote env (Z.to_nat i) (chunkRequest env b cs i) = Rejects reason ->
  let parts := map (segment env b cs) (zrange 0 (Z.to_nat n)) in
  nth_error parts (Z.to_nat i) = Some (errorPlaceholder i)
  /\ length parts = Z.to_nat n
  /\ blank (join (u16 " ") parts) = false
  /\ filter isTranscription (snd (processAudio env fuel b []))
     = map (fun j => GenerateContent (chunkRequest env b cs j))
         (zrange 0 (Z.to_nat n))
  /\ filter isAnalysis (snd (processAudio env fuel b []))
     = [GenerateContent (analysisRequest (join (u16 " ") parts))]
  /\ fst (processAudio env fuel b []) <> Thrown emptyTranscriptError.
Proof.
  intros Hd Hi Hrej parts.
  assert (Hnth : nth_error parts (Z.to_nat i) = Some (errorPlaceholder i)).
  { unfold parts. rewrite segment_nth by exact Hi.
    f_equal. eapply segment_rejected. exact Hrej. }
  assert (Hblank : blank (join (u16 " ") parts) = false).
  { apply (blank_join _ _ (errorPlaceholder i)).
    - eapply nth_error_In. exact Hnth.
    - apply errorPlaceholder_not_blank. }
  split; [exact Hnth |].
  split; [unfold parts; rewrite length_map; apply zrange_length |].
  split; [exact Hblank |].
  split; [| split].
  - rewrite (run_filter_analysis_free env fuel b isTranscription (Finite q));
      [| intros [| | | | [] |]; (discriminate || reflexivity) | exact Hd].
    rewrite chunked_transcribe. cbn [snd].
    rewrite filter_app, chunkEvents_transcription.
    rewrite startTrace_filter; [reflexivity | intros [] | ];
      (discriminate || reflexivity).
  - rewrite processAudio_eq, Hd. unfold bind. rewrite chunked_transcribe.
    fold parts. rewrite analyze_calls by exact Hblank.
    rewrite <- (app_nil_l [GenerateContent _]). f_equal.
    pose proof (transcribe_no_analysis env fuel b (Finite q)) as H.
    rewrite chunked_transcribe in H. exact H.
  - rewrite processAudio_eq, Hd. unfold bind. rewrite chunked_transcribe.
    fold parts. rewrite analyze_not_blank by exact Hblank.
    destruct (remote env (length _) (analysisRequest _)) as [text | r];
      [destruct (JSON.parse text) |]; cbn [fst];
      unfold emptyTranscriptError; discriminate.
Qed.

End Chunked.

(** ** Failures of transcription calls *)


(** C3. In a chunked run, when the call of chunk [i] is rejected, the
    placeholder naming chunk [i+1] is segment [i] of the [n] segments, all
    [n] transcription calls are made and the run goes on to the analysis
    call.  In a single pass a rejected transcription call is the outcome
    of the run: it throws the rejection, and no analysis call is made. *)
Theorem chunk_failure_substituted_single_failure_propagates
  (env : Env) (fuel : nat) (b : Blob) (q : Q) :
  readable env ->
  probed env b = Some (Finite q) ->
  ((540 < q)%Q ->
   forall i reason,
     let n := Qceiling (q / 540) in
     let cs := num (ceilDiv (size b) n) in
     let parts := map (segment env b cs) (zrange 0 (Z.to_nat n)) in
     (Z.to_nat n < fuel)%nat ->
     0 <= i < n ->
     remote env (Z.to_nat i) (chunkRequest env b cs i) = Rejects reason ->
     fst (transcribe env fuel b (Finite q) (startTrace env b))
     = Returned (join (u16 " ") parts)
     /\ length parts = Z.to_nat n
     /\ nth_error parts (Z.to_nat i)
        = Some (LF ++ u16 "[-- Error transcribing chunk " ++ toString (i + 1)
                   ++ u16 ". The audio segment might have been too long or corrupted. --]"
                   ++ LF)
     /\ filter isTranscription (snd (processAudio env fuel b []))
        = map (fun j => GenerateContent (chunkRequest env b cs j))
            (zrange 0 (Z.to_nat n))
     /\ filter isAnalysis (snd (processAudio env fuel b []))
        = [GenerateContent (analysisRequest (join (u16 " ") parts))])
  /\ ((q <= 540)%Q ->
      forall reason,
        remote env 0 (singleRequest env b) = Rejects reason ->
        fst (processAudio env fuel b []) = Thrown (ApiError reason)
        /\ filter isAnalysis (snd (processAudio env fuel b [])) = []).
Proof.
  intros Hread Hd. split.
  - intros Hq i reason n cs parts Hfuel Hi Hrej.
    destruct (chunked_run_with_rejection env fuel b q Hread Hq Hfuel i reason
                Hd Hi Hrej) as [H1 [H2 [_ [H4 [H5 _]]]]].
    split; [rewrite chunked_transcribe by assumption; reflexivity |].
    repeat split; assumption.
  - intros Hq reason Hrej. apply Qle_num_le in Hq.
    destruct (Hread b) as [r Hr].
    assert (E : processAudio env fuel b [] =
                (Thrown (ApiError reason),
                 startTrace env b
                   ++ [OnProgress (u16 "Transcribing audio...") (num 20);
                       ReadAsDataURL b; GenerateContent (singleRequest env b)])).
    { rewrite processAudio_eq, Hd. unfold bind.
      rewrite (transcribe_single env fuel b _ _ r Hq Hr).
      rewrite startTrace_calls. cbn [length]. rewrite Hrej. reflexivity. }
    rewrite E. split; [reflexivity |]. cbn [snd].
    rewrite filter_app, startTrace_analysis. reflexivity.
Qed.

Lemma chunk_failure_substituted_single_failure_propagates_witness :
  (filter isAnalysis (snd (processAudio (rejecting (num 1500)) 9 clip10 []))
   = [GenerateContent
        (analysisRequest
           (join (u16 " ")
              [errorPlaceholder 0; errorPlaceholder 1; errorPlaceholder 2]))])
  /\ fst (processAudio (rejecting (num 0)) 9 clip10 [])
     = Thrown (ApiError (u16 "503")).
Proof.
  split.
  - apply (proj1 (chunk_failure_substituted_single_failure_propagates
                    (rejecting (num 1500)) 9 clip10 1500
                    ltac:(intros x; eexists; reflexivity)
                    ltac:(vm_compute; reflexivity))
             ltac:(reflexivity) 1 (u16 "503")
             ltac:(vm_compute; lia)
             ltac:(vm_compute; split; [discriminate | reflexivity])
             ltac:(reflexivity)).
  - apply (proj2 (chunk_failure_substituted_single_failure_propagates
                    (rejecting (num 0)) 9 clip10 0
                    ltac:(intros x; eexists; reflexivity)
                    ltac:(vm_compute; reflexivity))
             ltac:(vm_compute; discriminate) (u16 "503") ltac:(reflexivity)).
Defined.

(** ** The empty-transcript branch in chunked runs *)

(** C9, as stated, fails: a chunked run of two chunks whose calls both
    succeed with an empty text joins them to a single space, and the run
    throws the empty-transcript error without an analysis call. *)
Lemma chunked_run_reaches_empty_transcript_error :
  probed (answering (num 600) []) clip10 = Some (num 600)
  /\ num_le (num 600) MAX_CHUNK_SECONDS = false
  /\ numChunksOf (num 600) = num 2
  /\ fst (transcribe (answering (num 600) []) 5 clip10 (num 600)
            (startTrace (answering (num 600) []) clip10))
     = Returned (u16 " ")
  /\ fst (processAudio (answering (num 600) []) 5 clip10 [])
     = Thrown emptyTranscriptError
  /\ filter isAnalysis (snd (processAudio (answering (num 600) []) 5 clip10 []))
     = [].
Proof. vm_compute. repeat split. Qed.

(** C9, amended. In a chunked run in which the call of at least one chunk
    is rejected, the placeholder pushed for it is not blank, so the joined
    transcript is not blank, the run does not throw the empty-transcript
    error and the analysis call is made. *)
Theorem rejected_chunk_keeps_transcript_nonblank
  (env : Env) (fuel : nat) (b : Blob) (q : Q) (i : Z) (reason : jsstring) :
  readable env ->
  probed env b = Some (Finite q) ->
  (540 < q)%Q ->
  let n := Qceiling (q / 540) in
  let cs := num (ceilDiv (size b) n) in
  (Z.to_nat n < fuel)%nat ->
  0 <= i < n ->
  remote env (Z.to_nat i) (chunkRequest env b cs i) = Rejects reason ->
  blank (errorPlaceholder i) = false
  /\ exists raw,
       fst (transcribe env fuel b (Finite q) (startTrace env b)) = Returned raw
       /\ blank raw = false
       /\ trim raw <> []
       /\ fst (processAudio env fuel b []) <> Thrown emptyTranscriptError
       /\ filter isAnalysis (snd (processAudio env fuel b []))
          = [GenerateContent (analysisRequest raw)].
Proof.
  intros Hread Hd Hq n cs Hfuel Hi Hrej.
  split; [apply errorPlaceholder_not_blank |].
  destruct (chunked_run_with_rejection env fuel b q Hread Hq Hfuel i reason
              Hd Hi Hrej) as [_ [_ [H3 [_ [H5 H6]]]]].
  eexists. split; [rewrite chunked_transcribe by assumption; reflexivity |].
  split; [exact H3 |]. split; [| split; assumption].
  intros C. apply trim_nil_iff in C. congruence.
Qed.

Lemma rejected_chunk_keeps_transcript_nonblank_witness :
  fst (processAudio (rejecting (num 1500)) 9 clip10 [])
  <> Thrown emptyTranscriptError.
Proof.
  pose proof (rejected_chunk_keeps_transcript_nonblank
                (rejecting (num 1500)) 9 clip10 1500 2 (u16 "503")
                ltac:(intros x; eexists; reflexivity)
                ltac:(vm_compute; reflexivity)
                ltac:(reflexivity)
                ltac:(vm_compute; lia)
                ltac:(vm_compute; split; [discriminate | reflexivity])
                ltac:(reflexivity)) as [_ [raw [_ [_ [_ [H _]]]]]].
  exact H.
Defined.

(** ** The assembled transcript *)

(** C6. The segments are joined with one space: "a", "b", "c" give
    "a b c".  The object a chunked run returns carries as [rawTranscript]
    the per-chunk segments, in chunk order, joined with one space; the
    object a single pass returns carries the text of the one response as
    it is. *)
Theorem transcript_is_segments_joined_by_space :
  join (u16 " ") [u16 "a"; u16 "b"; u16 "c"] = u16 "a b c"
  /\ (forall env fuel b q result tr,
        readable env ->
        probed env b = Some (Finite q) ->
        (540 < q)%Q ->
        let n := Qceiling (q / 540) in
        let cs := num (ceilDiv (size b) n) in
        (Z.to_nat n < fuel)%nat ->
        processAudio env fuel b [] = (Returned result, tr) ->
        getProp (u16 "rawTranscript") result
        = Some (VString (join (u16 " ")
                           (map (segment env b cs) (zrange 0 (Z.to_nat n))))))
  /\ (forall env fuel b q text result tr,
        probed env b = Some (Finite q) ->
        (q <= 540)%Q ->
        remote env 0 (singleRequest env b) = Responds text ->
        processAudio env fuel b [] = (Returned result, tr) ->
        getProp (u16 "rawTranscript") result = Some (VString text)).
Proof.
  split; [reflexivity |]. split.
  - intros env fuel b q result tr Hread Hd Hq n cs Hfuel H.
    apply processAudio_returned in H.
    destruct H as [d [raw [tr1 [Hd' [HT HA]]]]].
    rewrite Hd in Hd'. injection Hd' as <-.
    rewrite chunked_transcribe in HT by assumption.
    injection HT as <- _.
    apply analyze_returned in HA. tauto.
  - intros env fuel b q text result tr Hd Hq Hresp H.
    apply processAudio_returned in H.
    destruct H as [d [raw [tr1 [Hd' [HT HA]]]]].
    rewrite Hd in Hd'. injection Hd' as <-.
    apply Qle_num_le in Hq.
    destruct (fileReader env b) as [r | |] eqn:Hr.
    + rewrite (transcribe_single env fuel b _ _ r Hq Hr) in HT.
      rewrite startTrace_calls in HT. cbn [length] in HT.
      rewrite Hresp in HT. injection HT as <- _.
      apply analyze_returned in HA. tauto.
    + unfold transcribe in HT. rewrite Hq in HT.
      unfold bind, onProgress, emit, blobToBase64 in HT. rewrite Hr in HT.
      discriminate HT.
    + unfold transcribe in HT. rewrite Hq in HT.
      unfold bind, onProgress, emit, blobToBase64 in HT. rewrite Hr in HT.
      discriminate HT.
Qed.

Lemma transcript_is_segments_joined_by_space_witness :
  getProp (u16 "rawTranscript") 
    match fst (processAudio (lettering (num 1500)) 9 clip10 []) with
    | Returned result => result
    | _ => []
    end
  = Some (VString (u16 "a b c"))
  /\ getProp (u16 "rawTranscript") 
       match fst (processAudio (lettering (num 7)) 0 clip10 []) with
       | Returned result => result
       | _ => []
       end
     = Some (VString (u16 "a")).
Proof.
  destruct transcript_is_segments_joined_by_space as [_ [Hchunked Hsingle]].
  split.
  - assert (E : processAudio (lettering (num 1500)) 9 clip10 [] =
                (Returned
                   match fst (processAudio (lettering (num 1500)) 9 clip10 [])
                   with Returned result => result | _ => [] end,
                 snd (processAudio (lettering (num 1500)) 9 clip10 [])))
      by (vm_compute; reflexivity).
    etransitivity;
      [exact (Hchunked (lettering (num 1500)) 9%nat clip10 1500%Q _ _
                ltac:(intros x; eexists; reflexivity)
                ltac:(vm_compute; reflexivity) ltac:(reflexivity)
                ltac:(vm_compute; lia) E)
      | vm_compute; reflexivity].
  - assert (E : processAudio (lettering (num 7)) 0 clip10 [] =
                (Returned
                   match fst (processAudio (lettering (num 7)) 0 clip10 [])
                   with Returned result => result | _ => [] end,
                 snd (processAudio (lettering (num 7)) 0 clip10 [])))
      by (vm_compute; reflexivity).
    apply (Hsingle (lettering (num 7)) 0%nat clip10 7%Q (u16 "a") _ _
             ltac:(vm_compute; reflexivity) ltac:(vm_compute; discriminate)
             ltac:(reflexivity) E).
Defined.

(** ** The analysis result *)

(** C7. The payload
    [{"summary":"S","actionItems":["A1"],"highlights":["H1"]}] parses to an
    object with these three fields and conforms to the response schema; a
    run whose analysis call answers it returns an object whose [summary]
    is "S", whose [actionItems] are ["A1"], whose [highlights] are ["H1"],
    and whose [rawTranscript] is the transcript of the transcription
    phase, unchanged. *)
Theorem analysis_payload_round_trip (env : Env) (fuel : nat) (b : Blob)
  (d : number) (raw : jsstring) (tr1 : trace) :
  probed env b = Some d ->
  transcribe env fuel b d (startTrace env b) = (Returned raw, tr1) ->
  blank raw = false ->
  remote env (length (filter isGenerateContent tr1)) (analysisRequest raw)
  = Responds examplePayload ->
  JSON.parse examplePayload
  = Some (VObject [(u16 "summary", VString (u16 "S"));
                   (u16 "actionItems", VArray [VString (u16 "A1")]);
                   (u16 "highlights", VArray [VString (u16 "H1")])])
  /\ (forall v, JSON.parse examplePayload = Some v ->
                conforms analysisSchema v = true)
  /\ exists result tr,
       processAudio env fuel b [] = (Returned result, tr)
       /\ getProp (u16 "summary") result = Some (VString (u16 "S"))
       /\ getProp (u16 "actionItems") result
          = Some (VArray [VString (u16 "A1")])
       /\ getProp (u16 "highlights") result
          = Some (VArray [VString (u16 "H1")])
       /\ getProp (u16 "rawTranscript") result = Some (VString raw).
Proof.
  intros Hd HT Hraw Hresp.
  assert (HP : JSON.parse examplePayload
               = Some (VObject [(u16 "summary", VString (u16 "S"));
                                (u16 "actionItems", VArray [VString (u16 "A1")]);
                                (u16 "highlights", VArray [VString (u16 "H1")])]))
    by (vm_compute; reflexivity).
  split; [exact HP |]. split.
  - intros v Hv. rewrite HP in Hv. injection Hv as <-. vm_compute. reflexivity.
  - rewrite processAudio_eq, Hd. unfold bind. rewrite HT.
    rewrite analyze_not_blank by exact Hraw. rewrite Hresp, HP.
    eexists. eexists. split; [reflexivity |].
    repeat split; vm_compute; reflexivity.
Qed.

Lemma analysis_payload_round_trip_witness :
  exists result tr,
    processAudio (answering (num 12) (u16 "hello")) 0 clip10 []
    = (Returned result, tr)
    /\ getProp (u16 "summary") result = Some (VString (u16 "S"))
    /\ getProp (u16 "actionItems") result = Some (VArray [VString (u16 "A1")])
    /\ getProp (u16 "highlights") result = Some (VArray [VString (u16 "H1")])
    /\ getProp (u16 "rawTranscript") result = Some (VString (u16 "hello")).
Proof.
  refine (proj2 (proj2 (analysis_payload_round_trip
                          (answering (num 12) (u16 "hello")) 0 clip10 (num 12)
                          (u16 "hello") _ _ _ _ _))).
  - vm_compute. reflexivity.
  - vm_compute. reflexivity.
  - vm_compute. reflexivity.
  - reflexivity.
Defined.

(** ** The duration probe *)

Lemma resolve_resolved (p : Probe) (v w : number) :
  resolved p = Some v -> resolved (resolve p w) = Some v.
Proof. intros H. unfold resolve. cbn [resolved]. rewrite H. reflexivity. Qed.

Lemma dispatch_fold_resolved (b : Blob) (evs : list MediaEvent) :
  forall p tr v,
    resolved p = Some v ->
    resolved (fst (fold_left (dispatch b) evs (p, tr))) = Some v.
Proof.
  induction evs as [| ev evs IH]; intros p tr v H; [exact H |].
  cbn [fold_left]. unfold dispatch at 2.
  destruct ev; [destruct (onLoadedmetadata p) | destruct (onError p)];
    apply IH; try exact H; apply resolve_resolved; exact H.
Qed.

Lemma dispatch_fold_keeps (b : Blob) (evs : list MediaEvent) (x : Event) :
  forall p tr,
    In x tr -> In x (snd (fold_left (dispatch b) evs (p, tr))).
Proof.
  induction evs as [| ev evs IH]; intros p tr H; [exact H |].
  cbn [fold_left]. unfold dispatch at 2.
  destruct ev; [destruct (onLoadedmetadata p) | destruct (onError p)];
    apply IH; try exact H; apply in_or_app; left; exact H.
Qed.

(** C8, as stated, fails: a duration that cannot be determined does not
    always give 0. For a clip whose metadata load with a duration of NaN
    the probe resolves with NaN, for one whose metadata load with an
    infinite duration it resolves with Infinity, and for one for which the
    element fires neither event it never settles. *)
Lemma undetermined_duration_is_not_zero :
  fst (getAudioDuration (answering NaN []) clip10 []) = Returned NaN
  /\ fst (getAudioDuration (answering PosInfinity []) clip10 [])
     = Returned PosInfinity
  /\ fst (getAudioDuration silent clip10 []) = Pending
  /\ fst (getAudioDuration (answering NaN []) clip10 []) <> Returned (num 0)
  /\ fst (getAudioDuration (answering PosInfinity []) clip10 [])
     <> Returned (num 0)
  /\ fst (getAudioDuration silent clip10 []) <> Returned (num 0).
Proof. vm_compute. repeat split; discriminate. Qed.

(** C8, amended. The probe settles with what the first event of the audio
    element says and with nothing else: 0 when the element fires [error]
    first, the reported duration, finite or not, when the metadata load
    first, and not at all while the element fires neither. So it resolves
    with 0 for the clips the element fails to load, and with 0 for no other
    clip but one whose reported duration is 0; in no case does it throw or
    reject, and once it has resolved the object URL has been revoked. *)
Theorem probe_resolves_zero_when_error_fires_first (env : Env) (b : Blob)
  (tr : trace) :
  (forall evs, media env b = error :: evs ->
     fst (getAudioDuration env b tr) = Returned (num 0))
  /\ (forall d evs, media env b = loadedmetadata d :: evs ->
        fst (getAudioDuration env b tr) = Returned d)
  /\ (media env b = [] -> fst (getAudioDuration env b tr) = Pending)
  /\ (fst (getAudioDuration env b tr) = Returned (num 0) ->
      exists evs, media env b = error :: evs
                  \/ media env b = loadedmetadata (num 0) :: evs)
  /\ (forall e, fst (getAudioDuration env b tr) <> Thrown e)
  /\ (media env b <> [] ->
      In (RevokeObjectURL b) (snd (getAudioDuration env b tr))).
Proof.
  assert (H : fst (getAudioDuration env b tr)
              = match media env b with
                | [] => Pending
                | loadedmetadata d :: _ => Returned d
                | error :: _ => Returned (num 0)
                end).
  { rewrite getAudioDuration_eq. unfold probed, probeRun. cbn [fst].
    destruct (media env b) as [| [d |] evs]; [reflexivity | |];
      cbn [fold_left dispatch onLoadedmetadata onError].
    - rewrite (dispatch_fold_resolved b evs _ _ d); reflexivity.
    - rewrite (dispatch_fold_resolved b evs _ _ (num 0)); reflexivity. }
  split; [intros evs Hm; rewrite H, Hm; reflexivity |].
  split; [intros d evs Hm; rewrite H, Hm; reflexivity |].
  split; [intros Hm; rewrite H, Hm; reflexivity |].
  split; [| split].
  - rewrite H. destruct (media env b) as [| [d |] evs]; [discriminate | |].
    + intros E. injection E as ->. exists evs. right. reflexivity.
    + intros _. exists evs. left. reflexivity.
  - intros e. rewrite H. destruct (media env b) as [| [d |] evs]; discriminate.
  - intros Hm. rewrite getAudioDuration_eq. cbn [snd]. apply in_or_app. right.
    unfold probeRun. destruct (media env b) as [| [d |] evs];
      [contradiction | |];
      cbn [fold_left dispatch onLoadedmetadata onError];
      apply dispatch_fold_keeps; apply in_or_app; right; left; reflexivity.
Qed.

Lemma probe_resolves_zero_when_error_fires_first_witness :
  fst (getAudioDuration undecodable clip10 []) = Returned (num 0)
  /\ In (RevokeObjectURL clip10) (snd (getAudioDuration undecodable clip10 [])).
Proof.
  pose proof (probe_resolves_zero_when_error_fires_first undecodable clip10 [])
    as [H0 [_ [_ [_ [_ Hr]]]]].
  split.
  - exact (H0 [] eq_refl).
  - apply Hr. vm_compute. discriminate.
Defined.

(** ** The chunk plan *)

(** C1, as stated, fails: a clip of 5 bytes with a duration of 1700
    seconds is cut in 4 chunks of 2 bytes; chunk 2, which is not the final
    one, is the single byte from 4 to 5 and not the stated range from 4 to
    6, and the final chunk 3 is the empty range at 5. *)
Lemma chunk_before_the_last_is_clipped :
  numChunksOf (num 1700) = num 4
  /\ chunkSizeOf clip5 (num 4) = num 2
  /\ size clip5 = 5
  /\ chunkRange 5 2 2 = (4, 5)
  /\ statedChunkRange 5 2 4 2 = (4, 6)
  /\ bytes (chunkOf clip5 (mimeTypeOf clip5) (num 2) 2) = [Byte.x04]
  /\ chunkRange 5 2 3 = (5, 5)
  /\ statedChunkRange 5 2 4 3 = (6, 5).
Proof. vm_compute. repeat split. Qed.

(** C1, amended. For a finite duration [q > 540] and a clip of [S] bytes
    there are [n = ceil(q / 540)] chunks of [cs = ceil(S / n)] bytes; chunk
    [i] is the byte range from [i * cs] to [(i + 1) * cs] with both ends
    clipped to [S], whichever chunk it is; the ranges start at 0, each
    starts where the one before ends, the last ends at [S], and the chunks
    laid end to end are the bytes of the clip.  A run reads exactly these
    chunks, in order. *)
Theorem chunk_plan_covers_clip (env : Env) (fuel : nat) (b : Blob) (q : Q) :
  (540 < q)%Q ->
  size b <= LLONG_MAX ->
  let n := Qceiling (q / 540) in
  let S := size b in
  let cs := ceilDiv S n in
  let chunk := fun i => chunkOf b (mimeTypeOf b) (num cs) i in
  numChunksOf (Finite q) = num n
  /\ 2 <= n
  /\ chunkSizeOf b (num n) = num cs
  /\ n * (cs - 1) < S <= n * cs
  /\ (forall i, 0 <= i < n ->
        chunkRange S cs i = (Z.min (i * cs) S, Z.min ((i + 1) * cs) S)
        /\ bytes (chunk i)
           = firstn (Z.to_nat (Z.min ((i + 1) * cs) S - Z.min (i * cs) S))
               (skipn (Z.to_nat (Z.min (i * cs) S)) (bytes b)))
  /\ fst (chunkRange S cs 0) = 0
  /\ (forall i, 0 <= i < n - 1 ->
        snd (chunkRange S cs i) = fst (chunkRange S cs (i + 1)))
  /\ snd (chunkRange S cs (n - 1)) = S
  /\ concat (map (fun i => bytes (chunk i)) (zrange 0 (Z.to_nat n))) = bytes b
  /\ (readable env -> probed env b = Some (Finite q) ->
      (Z.to_nat n < fuel)%nat ->
      filter isReadAsDataURL (snd (processAudio env fuel b []))
      = map (fun i => ReadAsDataURL (chunk i)) (zrange 0 (Z.to_nat n))).
Proof.
  intros Hq Hsize n S cs chunk.
  pose proof (numChunks_ge_2 q Hq) as Hn. fold n in Hn.
  assert (HS : 0 <= S) by (unfold S, size; lia).
  pose proof (ceilDiv_bounds S n ltac:(lia)) as Hcs. fold cs in Hcs.
  assert (Hcs0 : 0 <= cs) by nia.
  split; [apply numChunksOf_finite |]. split; [exact Hn |].
  split; [apply chunkSizeOf_finite; lia |]. split; [exact Hcs |].
  split; [| split; [| split; [| split; [| split]]]].
  - intros i Hi. split; [apply chunkRange_eq; lia |].
    unfold chunk. rewrite chunkOf_bytes by lia.
    fold S. rewrite chunkRange_eq by lia. reflexivity.
  - rewrite chunkRange_eq by lia. cbn [fst]. lia.
  - intros i Hi. rewrite !chunkRange_eq by lia. reflexivity.
  - rewrite chunkRange_eq by lia. cbn [snd].
    replace (n - 1 + 1) with n by lia. lia.
  - unfold chunk. rewrite chunks_concat_from; [| lia | lia | lia |].
    + rewrite Z.mul_0_l, Z.min_l by lia. reflexivity.
    + fold S. rewrite Z2Nat.id by lia. lia.
  - intros Hread Hd Hfuel.
    rewrite (run_filter_analysis_free env fuel b isReadAsDataURL (Finite q));
      [| intros [| | | | [] |]; (discriminate || reflexivity) | exact Hd].
    rewrite chunked_transcribe by assumption. cbn [snd].
    rewrite filter_app, chunkEvents_reads.
    rewrite startTrace_filter; [reflexivity | intros [] | ];
      (discriminate || reflexivity).
Qed.

Lemma chunk_plan_covers_clip_witness :
  concat (map (fun i => bytes (chunkOf clip5 (mimeTypeOf clip5) (num 2) i))
            [0; 1; 2; 3])
  = bytes clip5.
Proof.
  exact (proj1 (proj2 (proj2 (proj2 (proj2 (proj2 (proj2 (proj2 (proj2
           (chunk_plan_covers_clip (answering (num 1700) (u16 "a")) 9 clip5
              1700 ltac:(reflexivity) ltac:(vm_compute; discriminate))))))))))).
Defined.

(** ** The recordings store *)

(** C10, as stated, fails: with a stored recording whose date is no date,
    the list keeps the key order, and the recording of 2024 stands before
    the one of 2025. *)
Lemma undated_recording_breaks_the_order :
  fst (getRecordingsFromDB working isoGetTime
         (stored [rec2024; recNoDate; rec2025]))
  = Returned [omitAudioBlob rec2024; omitAudioBlob recNoDate;
              omitAudioBlob rec2025]
  /\ isoGetTime (date recNoDate) = NaN
  /\ isoGetTime (date rec2024) = num 1704067200000
  /\ isoGetTime (date rec2025) = num 1735689600000
  /\ num_le (isoGetTime (date (omitAudioBlob rec2025)))
            (isoGetTime (date (omitAudioBlob rec2024))) = false.
Proof. vm_compute. repeat split. Qed.

Lemma Forall_perm {A} (P : A -> Prop) (l l' : list A) :
  Permutation l l' -> Forall P l -> Forall P l'.
Proof. intros H. exact (Permutation_Forall H). Qed.

Section Sorting.

Variable getTime : jsstring -> number.

Lemma follows_finite (ta tb : Q) :
  follows (num_sub (Finite tb) (Finite ta)) = Qlt_bool ta tb.
Proof.
  unfold follows, num_sub, num_neg, num_add, num_lt, num, Qlt_bool.
  f_equal. rewrite !Qred_correct.
  destruct (Qle_bool tb ta) eqn:E.
  - apply Qle_bool_iff. apply Qle_bool_iff in E.
    rewrite <- (Qplus_opp_r ta). apply Qplus_le_l. exact E.
  - destruct (Qle_bool (tb + - ta) (inject_Z 0)) eqn:F; [| reflexivity].
    apply Qle_bool_iff in F.
    assert (C : (tb <= ta)%Q).
    { apply (Qplus_le_l _ _ (- ta)). rewrite Qplus_opp_r. exact F. }
    apply Qle_bool_iff in C. congruence.
Qed.

Lemma insertSorted_perm (x : Recording) (l : list Recording) :
  Permutation (insertSorted (compareByDate getTime) x l) (x :: l).
Proof.
  induction l as [| y l IH]; cbn [insertSorted]; [reflexivity |].
  destruct (follows _); [| reflexivity].
  rewrite IH. apply perm_swap.
Qed.

Lemma sort_perm (l : list Recording) :
  Permutation (sort (compareByDate getTime) l) l.
Proof.
  induction l as [| x l IH]; [reflexivity |].
  unfold sort in *. cbn [fold_right]. rewrite insertSorted_perm.
  constructor. exact IH.
Qed.

Lemma notOlder_trans (a c e : Recording) :
  dated getTime a -> dated getTime c -> dated getTime e ->
  notOlder getTime a c -> notOlder getTime c e -> notOlder getTime a e.
Proof.
  unfold notOlder. intros [ta Ha] [tc Hc] [te He]. rewrite Ha, Hc, He.
  cbn [num_le]. rewrite !Qle_bool_iff. intros H1 H2.
  eapply Qle_trans; eassumption.
Qed.

Lemma insertSorted_sorted (x : Recording) (l : list Recording) :
  dated getTime x -> Forall (dated getTime) l ->
  StronglySorted (notOlder getTime) l ->
  StronglySorted (notOlder getTime) (insertSorted (compareByDate getTime) x l).
Proof.
  intros Hx Hl Hs. induction Hs as [| y l Hs IH Hy]; cbn [insertSorted].
  - repeat constructor.
  - inversion Hl as [| ? ? Hdy Hdl]; subst.
    destruct Hx as [tx Hx]. destruct Hdy as [ty Hty].
    unfold compareByDate at 1. rewrite Hx, Hty, follows_finite.
    unfold Qlt_bool. destruct (Qle_bool ty tx) eqn:E; cbn [negb].
    + assert (Hxy : notOlder getTime x y).
      { unfold notOlder. rewrite Hx, Hty. exact E. }
      constructor; [constructor; assumption |].
      constructor; [exact Hxy |].
      rewrite Forall_forall in *. intros z Hz.
      apply (notOlder_trans x y z); eauto.
      * exists tx; exact Hx.
      * exists ty; exact Hty.
    + constructor; [apply IH; exact Hdl |].
      apply (Forall_perm _ (x :: l));
        [symmetry; apply insertSorted_perm |].
      constructor; [| exact Hy].
      unfold notOlder. rewrite Hx, Hty. cbn [num_le].
      apply Qle_bool_iff. apply Qlt_le_weak. apply Qnot_le_lt.
      intros C. apply Qle_bool_iff in C. congruence.
Qed.

Lemma sort_sorted (l : list Recording) :
  Forall (dated getTime) l ->
  StronglySorted (notOlder getTime) (sort (compareByDate getTime) l).
Proof.
  induction l as [| x l IH]; intros H; [constructor |].
  inversion H as [| ? ? Hx Hl]; subst.
  unfold sort in *. cbn [fold_right].
  apply insertSorted_sorted; [exact Hx | | apply IH; exact Hl].
  apply (Forall_perm _ l); [symmetry; apply sort_perm | exact Hl].
Qed.

End Sorting.

Lemma omitAudioBlob_dated (getTime : jsstring -> number) (l : list Recording) :
  Forall (dated getTime) l -> Forall (dated getTime) (map omitAudioBlob l).
Proof.
  intros H. apply Forall_map. revert H. apply Forall_impl.
  intros r Hr. exact Hr.
Qed.

Lemma omitAudioBlob_none (l : list Recording) :
  Forall (fun r => audioBlob r = None) (map omitAudioBlob l).
Proof. apply Forall_map. apply Forall_forall. reflexivity. Qed.

(** C10, amended. For a store in which every recording's date is a date,
    the list [getRecordingsFromDB] returns has no [audioBlob] in any
    element, holds the stored recordings otherwise as they are, and is
    ordered with the most recent date first; the read leaves the stored
    recordings as they were, and it returns whenever the database opens,
    the store exists and the request succeeds. *)
Theorem recordings_listed_without_blobs_most_recent_first
  (dbenv : DBEnv) (getTime : jsstring -> number) (st : DBState) :
  Forall (dated getTime) (contents st) ->
  contents (snd (getRecordingsFromDB dbenv getTime st)) = contents st
  /\ (forall l,
        fst (getRecordingsFromDB dbenv getTime st) = Returned l ->
        Forall (fun r => audioBlob r = None) l
        /\ Permutation l (map omitAudioBlob (contents st))
        /\ StronglySorted (notOlder getTime) l)
  /\ (openFails dbenv = false -> requestError dbenv = None ->
      store st <> None ->
      exists l, fst (getRecordingsFromDB dbenv getTime st) = Returned l).
Proof.
  intros Hdated.
  assert (Hlist : forall recs l,
             contents st = recs ->
             Returned (sort (compareByDate getTime) (map omitAudioBlob recs))
             = Returned l ->
             Forall (fun r => audioBlob r = None) l
             /\ Permutation l (map omitAudioBlob recs)
             /\ StronglySorted (notOlder getTime) l).
  { intros recs l Hc H. injection H as <-.
    split; [| split].
    - apply (Forall_perm _ (map omitAudioBlob recs));
        [symmetry; apply sort_perm | apply omitAudioBlob_none].
    - apply sort_perm.
    - apply sort_sorted. apply omitAudioBlob_dated. rewrite <- Hc.
      exact Hdated. }
  unfold getRecordingsFromDB, bind, initDB.
  destruct (db st) eqn:Hdb;
    [| destruct (openFails dbenv) eqn:Ho;
       [| destruct (version st <? DB_VERSION)]];
    cbn [store];
    destruct (store st) as [recs |] eqn:Hs;
    destruct (requestError dbenv) as [m |] eqn:Hre; cbn [fst snd];
    unfold contents; cbn [store]; rewrite ?Hs;
    (split; [reflexivity |]);
    (split;
     [ intros l Hl; try discriminate Hl;
       first [ apply (Hlist recs);
               [unfold contents; rewrite Hs; reflexivity | exact Hl]
             | apply (Hlist []);
               [unfold contents; rewrite Hs; reflexivity | exact Hl] ]
     | intros H1 H2 H3; try discriminate; try contradiction;
       eexists; reflexivity ]).
Qed.

Lemma recordings_listed_without_blobs_most_recent_first_witness :
  fst (getRecordingsFromDB working isoGetTime (stored [rec2024; rec2025]))
  = Returned [omitAudioBlob rec2025; omitAudioBlob rec2024]
  /\ StronglySorted (notOlder isoGetTime)
       [omitAudioBlob rec2025; omitAudioBlob rec2024].
Proof.
  split; [vm_compute; reflexivity |].
  apply (proj1 (proj2 (recordings_listed_without_blobs_most_recent_first
                         working isoGetTime (stored [rec2024; rec2025])
                         ltac:(repeat constructor; eexists; vm_compute;
                               reflexivity)))).
  vm_compute. reflexivity.
Defined.

(** ** Durations that are no finite number *)

(** A duration of NaN is not at most 540, so the chunked branch is taken;
    its loop does not run, nothing is transcribed and the run throws the
    empty-transcript error. *)
Lemma nan_duration_throws (env : Env) (fuel : nat) (b : Blob) :
  probed env b = Some NaN ->
  processAudio env (S fuel) b []
  = (Thrown emptyTranscriptError, startTrace env b).
Proof.
  intros Hd. rewrite processAudio_eq, Hd. reflexivity.
Qed.

(** With an infinite duration the loop condition never fails: whatever
    the fuel, the run does not return. *)
Lemma infinite_duration_never_returns (env : Env) (fuel : nat) (b : Blob)
  (result : list (jsstring * value)) (tr : trace) :
  probed env b = Some PosInfinity ->
  processAudio env fuel b [] <> (Returned result, tr).
Proof.
  intros Hd H. apply processAudio_returned in H.
  destruct H as [d [raw [tr1 [Hd' [HT HA]]]]].
  rewrite Hd in Hd'. injection Hd' as <-.
  apply analyze_returned in HA. destruct HA as [Hraw _].
  apply transcribe_returned in HT.
  destruct HT as [[C _] | [[q [C _]] | ->]]; discriminate.
Qed.

(** ** Keys *)

Lemma keyCompare_eq (s t : jsstring) : keyCompare s t = Eq <-> s = t.
Proof.
  revert t. induction s as [| c s IH]; intros [| d t]; cbn [keyCompare];
    try (split; (discriminate || reflexivity)).
  destruct (N.compare_spec c d) as [-> | H | H].
  - rewrite IH. split; [intros ->; reflexivity | intros E; injection E; auto].
  - split; [discriminate | intros E; injection E as -> _; lia].
  - split; [discriminate | intros E; injection E as -> _; lia].
Qed.

Lemma str_eqb_eq (s t : jsstring) : str_eqb s t = true <-> s = t.
Proof.
  revert t. induction s as [| c s IH]; intros [| d t]; cbn [str_eqb];
    try (split; (discriminate || reflexivity)).
  rewrite andb_true_iff, N.eqb_eq, IH.
  split; [intros [-> ->]; reflexivity | intros E; injection E; auto].
Qed.

Lemma str_eqb_neq (s t : jsstring) : str_eqb s t = false <-> s <> t.
Proof.
  rewrite <- str_eqb_eq. destruct (str_eqb s t); split; congruence.
Qed.

Lemma keyCompare_antisym (s t : jsstring) :
  keyCompare t s = CompOpp (keyCompare s t).
Proof.
  revert t. induction s as [| c s IH]; intros [| d t]; cbn [keyCompare];
    try reflexivity.
  rewrite (N.compare_antisym c d).
  destruct (c ?= d)%N; cbn [CompOpp]; auto.
Qed.

Lemma keyCompare_lt_trans (s t u : jsstring) :
  keyCompare s t = Lt -> keyCompare t u = Lt -> keyCompare s u = Lt.
Proof.
  revert t u. induction s as [| c s IH]; intros [| d t] [| e u];
    cbn [keyCompare]; try (discriminate || reflexivity).
  destruct (N.compare_spec c d) as [-> | H | H];
    destruct (N.compare_spec d e) as [-> | H' | H']; try discriminate.
  - apply IH.
  - reflexivity.
  - intros _ _. rewrite (proj2 (N.compare_lt_iff c e) H). reflexivity.
  - intros _ _. rewrite (proj2 (N.compare_lt_iff c e)) by lia. reflexivity.
Qed.

Lemma keyCompare_lt_neq (s t : jsstring) : keyCompare s t = Lt -> s <> t.
Proof. intros H E. apply keyCompare_eq in E. congruence. Qed.

(** ** Records of the store *)

Lemma keyCompare_of_eqb (s t : jsstring) :
  str_eqb s t = true -> keyCompare s t = Eq.
Proof. intros H. apply keyCompare_eq, str_eqb_eq, H. Qed.

Lemma getRecord_putRecord_same (r : Recording) (recs : list Recording) :
  getRecord (id r) (putRecord r recs) = Some r.
Proof.
  induction recs as [| x rest IH]; cbn [putRecord getRecord].
  - rewrite str_eqb_refl. reflexivity.
  - destruct (keyCompare (id r) (id x)) eqn:E; cbn [getRecord];
      rewrite ?str_eqb_refl; try reflexivity.
    destruct (str_eqb (id x) (id r)) eqn:F; [| exact IH].
    apply str_eqb_eq in F. rewrite F in E.
    rewrite (proj2 (keyCompare_eq _ _) eq_refl) in E. discriminate E.
Qed.

Lemma getRecord_putRecord_other (key : jsstring) (r : Recording)
  (recs : list Recording) :
  key <> id r -> getRecord key (putRecord r recs) = getRecord key recs.
Proof.
  intros Hk. assert (Hr : str_eqb (id r) key = false)
    by (apply str_eqb_neq; congruence).
  induction recs as [| x rest IH]; cbn [putRecord getRecord].
  - rewrite Hr. reflexivity.
  - destruct (keyCompare (id r) (id x)) eqn:E; cbn [getRecord]; rewrite ?Hr.
    + apply keyCompare_eq in E. rewrite <- E, Hr. reflexivity.
    + reflexivity.
    + rewrite IH. reflexivity.
Qed.

Lemma getRecord_deleteRecord_same (key : jsstring) (recs : list Recording) :
  getRecord key (deleteRecord key recs) = None.
Proof.
  induction recs as [| x rest IH]; [reflexivity |].
  unfold deleteRecord in *. cbn [filter].
  destruct (str_eqb (id x) key) eqn:E; cbn [negb getRecord];
    rewrite ?E; exact IH.
Qed.

Lemma getRecord_deleteRecord_other (key key' : jsstring)
  (recs : list Recording) :
  key' <> key ->
  getRecord key' (deleteRecord key recs) = getRecord key' recs.
Proof.
  intros Hk. induction recs as [| x rest IH]; [reflexivity |].
  unfold deleteRecord in *. cbn [filter getRecord].
  destruct (str_eqb (id x) key) eqn:E; cbn [negb getRecord].
  - apply str_eqb_eq in E.
    assert (F : str_eqb (id x) key' = false)
      by (apply str_eqb_neq; congruence).
    rewrite F. exact IH.
  - rewrite IH. reflexivity.
Qed.

Lemma getRecord_id (key : jsstring) (recs : list Recording) (r : Recording) :
  getRecord key recs = Some r -> id r = key /\ In r recs.
Proof.
  induction recs as [| x rest IH]; cbn [getRecord]; [discriminate |].
  destruct (str_eqb (id x) key) eqn:E.
  - intros H. injection H as <-. apply str_eqb_eq in E. split; [exact E | now left].
  - intros H. destruct (IH H). split; [assumption | now right].
Qed.

Lemma getRecord_none (key : jsstring) (recs : list Recording) :
  getRecord key recs = None <-> ~ In key (map id recs).
Proof.
  induction recs as [| x rest IH]; cbn [getRecord map In]; [tauto |].
  destruct (str_eqb (id x) key) eqn:E.
  - apply str_eqb_eq in E. split; [discriminate | tauto].
  - apply str_eqb_neq in E. rewrite IH. tauto.
Qed.

Lemma deleteRecord_absent (key : jsstring) (recs : list Recording) :
  ~ In key (map id recs) -> deleteRecord key recs = recs.
Proof.
  induction recs as [| x rest IH]; intros H; [reflexivity |].
  unfold deleteRecord in *. cbn [filter map In] in *.
  assert (E : str_eqb (id x) key = false) by (apply str_eqb_neq; tauto).
  rewrite E. cbn [negb]. f_equal. apply IH. tauto.
Qed.

Lemma keyed_tail_above (x : Recording) (rest : list Recording) (key : jsstring) :
  keyed (x :: rest) -> keyCompare key (id x) = Lt ->
  ~ In key (map id (x :: rest)).
Proof.
  intros Hk Hlt Hin. inversion Hk as [| ? ? _ Hall]; subst.
  cbn [map In] in Hin. destruct Hin as [E | Hin].
  - apply keyCompare_lt_neq in Hlt. congruence.
  - apply in_map_iff in Hin. destruct Hin as [y [E Hy]].
    rewrite Forall_forall in Hall. specialize (Hall y Hy).
    pose proof (keyCompare_lt_trans _ _ _ Hlt Hall) as C.
    apply keyCompare_lt_neq in C. congruence.
Qed.

Lemma putRecord_keyed (r : Recording) (recs : list Recording) :
  keyed recs -> keyed (putRecord r recs).
Proof.
  unfold keyed. intros H. induction H as [| x rest Hs IH Hx]; cbn [putRecord].
  - repeat constructor.
  - destruct (keyCompare (id r) (id x)) eqn:E.
    + apply keyCompare_eq in E. constructor; [exact Hs |]. rewrite E. exact Hx.
    + constructor; [constructor; assumption |].
      constructor; [exact E |].
      revert Hx. apply Forall_impl. intros y Hy.
      eapply keyCompare_lt_trans; eassumption.
    + constructor; [exact IH |].
      assert (Hxr : keyCompare (id x) (id r) = Lt)
        by (rewrite keyCompare_antisym, E; reflexivity).
      clear IH. induction Hs as [| y rest' Hs' IH' Hy]; cbn [putRecord].
      * repeat constructor. exact Hxr.
      * inversion Hx; subst.
        destruct (keyCompare (id r) (id y)); repeat constructor; auto.
Qed.

Lemma deleteRecord_keyed (key : jsstring) (recs : list Recording) :
  keyed recs -> keyed (deleteRecord key recs).
Proof.
  unfold keyed, deleteRecord. intros H.
  induction H as [| x rest Hs IH Hx]; cbn [filter]; [constructor |].
  destruct (negb (str_eqb (id x) key)); [| exact IH].
  constructor; [exact IH |].
  rewrite Forall_forall in *. intros y Hy. apply filter_In in Hy.
  apply Hx, Hy.
Qed.

(** In a keyed store, putting a record is removing the record of its key
    and adding it. *)
Lemma putRecord_perm (r : Recording) (recs : list Recording) :
  keyed recs ->
  Permutation (putRecord r recs) (r :: deleteRecord (id r) recs).
Proof.
  intros H. induction recs as [| x rest IH]; cbn [putRecord]; [reflexivity |].
  assert (Hrest : keyed rest) by (inversion H; assumption).
  destruct (keyCompare (id r) (id x)) eqn:E.
  - apply keyCompare_eq in E. unfold deleteRecord. cbn [filter].
    rewrite <- E, str_eqb_refl. cbn [negb].
    fold (deleteRecord (id r) rest). rewrite deleteRecord_absent; [reflexivity |].
    inversion H as [| ? ? _ Hall]; subst. intros Hin.
    apply in_map_iff in Hin. destruct Hin as [y [Ey Hy]].
    rewrite Forall_forall in Hall. specialize (Hall y Hy).
    apply keyCompare_lt_neq in Hall. congruence.
  - rewrite deleteRecord_absent; [reflexivity |].
    apply keyed_tail_above; assumption.
  - unfold deleteRecord. cbn [filter].
    assert (F : str_eqb (id x) (id r) = false).
    { apply str_eqb_neq. intros C. rewrite C in E.
      rewrite (proj2 (keyCompare_eq _ _) eq_refl) in E. discriminate E. }
    rewrite F. cbn [negb]. fold (deleteRecord (id r) rest).
    rewrite (IH Hrest). apply perm_swap.
Qed.

(** ** Operations of the store *)

Section Requests.
Variable dbenv : DBEnv.

Lemma initDB_cases (st st1 : DBState) (o : Outcome unit) :
  initDB dbenv st = (o, st1) ->
  contents st1 = contents st
  /\ (forall a, o = Returned a -> db st1 = true)
  /\ (forall e, o = Thrown e ->
        st1 = st /\ db st = false /\ openFails dbenv = true
        /\ e = JsError (u16 "Error opening DB"))
  /\ o <> Pending /\ o <> OutOfFuel.
Proof.
  unfold initDB. destruct (db st) eqn:Hdb.
  - intros H. injection H as <- <-.
    split; [reflexivity |]. split; [intros a _; exact Hdb |].
    split; [intros e E; discriminate E |]. split; discriminate.
  - destruct (openFails dbenv) eqn:Ho.
    + intros H. injection H as <- <-.
      split; [reflexivity |]. split; [intros a E; discriminate E |].
      split; [intros e E; injection E as <-; repeat split; assumption |].
      split; discriminate.
    + destruct (version st <? DB_VERSION); intros H; injection H as <- <-;
        (split; [unfold contents; cbn [store]; destruct (store st); reflexivity |]);
        (split; [intros a _; reflexivity |]);
        (split; [intros e E; discriminate E |]); split; discriminate.
Qed.

Lemma request_returned {A} (what : jsstring)
  (run : list Recording -> A * list Recording) (st st' : DBState) (a : A) :
  request dbenv what run st = (Returned a, st') ->
  requestError dbenv = None
  /\ db st' = true
  /\ store st' = Some (snd (run (contents st)))
  /\ a = fst (run (contents st)).
Proof.
  unfold request, bind. destruct (initDB dbenv st) as [o st1] eqn:Hi.
  apply initDB_cases in Hi. destruct Hi as [Hc [Hdb _]].
  destruct o as [[] | e | |]; try discriminate.
  unfold contents in Hc. destruct (store st1) as [recs |] eqn:Hs;
    [| discriminate].
  destruct (requestError dbenv); [discriminate |].
  fold (contents st) in Hc. rewrite <- Hc.
  destruct (run recs) as [a' recs']. intros H. injection H as <- <-.
  cbn [withStore db store fst snd]. repeat split. apply (Hdb tt eq_refl).
Qed.

Lemma request_ready {A} (what : jsstring)
  (run : list Recording -> A * list Recording) (st : DBState)
  (recs : list Recording) :
  db st = true -> store st = Some recs -> requestError dbenv = None ->
  request dbenv what run st
  = (Returned (fst (run recs)), withStore st (snd (run recs))).
Proof.
  intros Hdb Hs Hr. unfold request, bind, initDB. rewrite Hdb, Hs, Hr.
  destruct (run recs). reflexivity.
Qed.

Lemma request_thrown {A} (what : jsstring)
  (run : list Recording -> A * list Recording) (st st' : DBState) (e : exn) :
  request dbenv what run st = (Thrown e, st') -> contents st' = contents st.
Proof.
  unfold request, bind. destruct (initDB dbenv st) as [o st1] eqn:Hi.
  apply initDB_cases in Hi. destruct Hi as [Hc _].
  destruct o as [[] | e' | |]; try discriminate.
  - destruct (store st1); [| intros H; injection H as _ <-; exact Hc].
    destruct (requestError dbenv); [intros H; injection H as _ <-; exact Hc |].
    destruct (run l). discriminate.
  - intros H. injection H as _ <-. exact Hc.
Qed.

End Requests.

Lemma withStore_same (st : DBState) (recs : list Recording) :
  store st = Some recs -> withStore st recs = st.
Proof. destruct st. cbn. intros ->. reflexivity. Qed.

(** X1. A recording that was saved is read back by its id as it was
    saved, audio blob included. *)
Theorem saved_recording_is_read_back (dbenv : DBEnv) (r : Recording)
  (st st' : DBState) :
  saveRecordingToDB dbenv r st = (Returned tt, st') ->
  getRecordingByIdFromDB dbenv (id r) st' = (Returned (Some r), st').
Proof.
  intros H. apply request_returned in H. cbn [fst snd] in H.
  destruct H as [Hr [Hdb [Hs _]]].
  unfold getRecordingByIdFromDB.
  rewrite (request_ready dbenv _ _ st' _ Hdb Hs Hr). cbn [fst snd].
  rewrite getRecord_putRecord_same, (withStore_same _ _ Hs). reflexivity.
Qed.

Lemma saved_recording_is_read_back_witness :
  getRecordingByIdFromDB working (id rec2025)
    (snd (saveRecordingToDB working rec2025 (stored [rec2024])))
  = (Returned (Some rec2025),
     snd (saveRecordingToDB working rec2025 (stored [rec2024]))).
Proof.
  apply (saved_recording_is_read_back working rec2025 (stored [rec2024])).
  reflexivity.
Defined.

(** X2. Saving a recording leaves every recording of another id as it
    was: reading such an id after the save gives what the store held
    before it. *)
Theorem save_leaves_other_recordings (dbenv : DBEnv) (r : Recording)
  (st st' : DBState) (key : jsstring) :
  saveRecordingToDB dbenv r st = (Returned tt, st') ->
  key <> id r ->
  getRecordingByIdFromDB dbenv key st'
  = (Returned (getRecord key (contents st)), st').
Proof.
  intros H Hk. apply request_returned in H. cbn [fst snd] in H.
  destruct H as [Hr [Hdb [Hs _]]].
  unfold getRecordingByIdFromDB.
  rewrite (request_ready dbenv _ _ st' _ Hdb Hs Hr). cbn [fst snd].
  rewrite getRecord_putRecord_other by exact Hk.
  rewrite (withStore_same _ _ Hs). reflexivity.
Qed.

Lemma save_leaves_other_recordings_witness :
  getRecordingByIdFromDB working (id rec2024)
    (snd (saveRecordingToDB working rec2025 (stored [rec2024])))
  = (Returned (Some rec2024),
     snd (saveRecordingToDB working rec2025 (stored [rec2024]))).
Proof.
  apply (save_leaves_other_recordings working rec2025 (stored [rec2024])).
  - reflexivity.
  - vm_compute. discriminate.
Defined.

(** X3. After a recording is deleted, reading its id gives [undefined],
    and reading any other id gives what the store held before. *)
Theorem deleted_recording_is_gone (dbenv : DBEnv) (key : jsstring)
  (st st' : DBState) :
  deleteRecordingFromDB dbenv key st = (Returned tt, st') ->
  getRecordingByIdFromDB dbenv key st' = (Returned None, st')
  /\ forall key', key' <> key ->
       getRecordingByIdFromDB dbenv key' st'
       = (Returned (getRecord key' (contents st)), st').
Proof.
  intros H. apply request_returned in H. cbn [fst snd] in H.
  destruct H as [Hr [Hdb [Hs _]]].
  unfold getRecordingByIdFromDB. split; [| intros key' Hk];
    rewrite (request_ready dbenv _ _ st' _ Hdb Hs Hr); cbn [fst snd];
    rewrite (withStore_same _ _ Hs).
  - rewrite getRecord_deleteRecord_same. reflexivity.
  - rewrite getRecord_deleteRecord_other by exact Hk. reflexivity.
Qed.

Lemma deleted_recording_is_gone_witness :
  getRecordingByIdFromDB working (id rec2024)
    (snd (deleteRecordingFromDB working (id rec2024)
            (stored [rec2024; rec2025])))
  = (Returned None,
     snd (deleteRecordingFromDB working (id rec2024)
            (stored [rec2024; rec2025]))).
Proof.
  apply (deleted_recording_is_gone working (id rec2024)
           (stored [rec2024; rec2025])).
  reflexivity.
Defined.

(** X4. Deleting an id the store does not hold is no error: the request
    resolves and the store is as before. *)
Theorem delete_of_missing_id_resolves (dbenv : DBEnv) (key : jsstring)
  (st : DBState) (recs : list Recording) :
  db st = true -> store st = Some recs -> requestError dbenv = None ->
  ~ In key (map id recs) ->
  deleteRecordingFromDB dbenv key st = (Returned tt, st).
Proof.
  intros Hdb Hs Hr Hk. unfold deleteRecordingFromDB.
  rewrite (request_ready dbenv _ _ st recs Hdb Hs Hr). cbn [fst snd].
  rewrite deleteRecord_absent by exact Hk.
  rewrite (withStore_same _ _ Hs). reflexivity.
Qed.

Lemma delete_of_missing_id_resolves_witness :
  deleteRecordingFromDB working (id rec2025)
    {| db := true; version := 1; store := Some [rec2024] |}
  = (Returned tt, {| db := true; version := 1; store := Some [rec2024] |}).
Proof.
  apply (delete_of_missing_id_resolves working (id rec2025) _ [rec2024]);
    try reflexivity.
  vm_compute. intros [C | []]. discriminate C.
Defined.

(** ** Invariants of the store *)

Lemma getRecordingsFromDB_as_request (dbenv : DBEnv)
  (getTime : jsstring -> number) (st : DBState) :
  getRecordingsFromDB dbenv getTime st
  = request dbenv (u16 "Error fetching recordings: ")
      (fun recs => (sort (compareByDate getTime) (map omitAudioBlob recs), recs))
      st.
Proof.
  unfold getRecordingsFromDB, request, bind.
  destruct (initDB dbenv st) as [[[] | e | |] st1]; try reflexivity.
  destruct (store st1) as [recs |] eqn:Hs; [| reflexivity].
  destruct (requestError dbenv); [reflexivity |].
  rewrite (withStore_same _ _ Hs). reflexivity.
Qed.

(** X5. The store stays in key order, each id once: saving, deleting,
    reading one recording and listing all keep it so, whether they
    resolve or reject. *)
Theorem store_stays_keyed (dbenv : DBEnv) (getTime : jsstring -> number)
  (st : DBState) (r : Recording) (key : jsstring) :
  keyed (contents st) ->
  keyed (contents (snd (saveRecordingToDB dbenv r st)))
  /\ keyed (contents (snd (deleteRecordingFromDB dbenv key st)))
  /\ keyed (contents (snd (getRecordingByIdFromDB dbenv key st)))
  /\ keyed (contents (snd (getRecordingsFromDB dbenv getTime st))).
Proof.
  intros Hk.
  assert (G : forall A what (run : list Recording -> A * list Recording),
             (forall recs, keyed recs -> keyed (snd (run recs))) ->
             keyed (contents (snd (request dbenv what run st)))).
  { intros A what run Hrun.
    destruct (request dbenv what run st) as [[a | e | |] st'] eqn:E; cbn [snd].
    - apply request_returned in E. destruct E as [_ [_ [Hs _]]].
      unfold contents at 1. rewrite Hs. apply Hrun, Hk.
    - apply request_thrown in E. rewrite E. exact Hk.
    - exfalso. unfold request, bind in E.
      destruct (initDB dbenv st) as [o st1] eqn:Hi.
      apply initDB_cases in Hi. destruct Hi as [_ [_ [_ [Hp _]]]].
      destruct o as [[] | | |]; try discriminate; try contradiction.
      destruct (store st1); [| discriminate].
      destruct (requestError dbenv); [discriminate |].
      destruct (run l). discriminate.
    - exfalso. unfold request, bind in E.
      destruct (initDB dbenv st) as [o st1] eqn:Hi.
      apply initDB_cases in Hi. destruct Hi as [_ [_ [_ [_ Hp]]]].
      destruct o as [[] | | |]; try discriminate; try contradiction.
      destruct (store st1); [| discriminate].
      destruct (requestError dbenv); [discriminate |].
      destruct (run l). discriminate. }
  repeat split.
  - apply G. intros recs. apply putRecord_keyed.
  - apply G. intros recs. apply deleteRecord_keyed.
  - apply G. intros recs H. exact H.
  - rewrite getRecordingsFromDB_as_request. apply G. intros recs H. exact H.
Qed.

Lemma store_stays_keyed_witness :
  keyed (contents (snd (saveRecordingToDB working rec2024
                          (stored [recNoDate; rec2025])))).
Proof.
  apply (store_stays_keyed working isoGetTime (stored [recNoDate; rec2025])
           rec2024 []).
  repeat constructor.
Defined.

(** X6. After a recording is saved into a keyed store, the list of
    recordings holds it once, without its audio blob, together with the
    recordings of the other ids; a recording that had the same id is
    replaced. *)
Theorem saved_recording_is_listed_once (dbenv : DBEnv)
  (getTime : jsstring -> number) (r : Recording) (st st' : DBState)
  (l : list Recording) :
  keyed (contents st) ->
  saveRecordingToDB dbenv r st = (Returned tt, st') ->
  fst (getRecordingsFromDB dbenv getTime st') = Returned l ->
  Permutation l
    (omitAudioBlob r :: map omitAudioBlob (deleteRecord (id r) (contents st))).
Proof.
  intros Hk H Hl. apply request_returned in H. cbn [fst snd] in H.
  destruct H as [Hr [Hdb [Hs _]]].
  rewrite getRecordingsFromDB_as_request in Hl.
  rewrite (request_ready dbenv _ _ st' _ Hdb Hs Hr) in Hl. cbn [fst] in Hl.
  injection Hl as <-. rewrite sort_perm.
  change (omitAudioBlob r :: map omitAudioBlob ?x)
    with (map omitAudioBlob (r :: x)).
  apply Permutation_map. apply putRecord_perm. exact Hk.
Qed.

Lemma saved_recording_is_listed_once_witness :
  Permutation
    [omitAudioBlob rec2025; omitAudioBlob rec2024]
    (omitAudioBlob rec2025
       :: map omitAudioBlob (deleteRecord (id rec2025) [rec2024; rec2025])).
Proof.
  apply (saved_recording_is_listed_once working isoGetTime rec2025
           (stored [rec2024; rec2025])
           (snd (saveRecordingToDB working rec2025 (stored [rec2024; rec2025])))).
  - repeat constructor.
  - reflexivity.
  - vm_compute. reflexivity.
Defined.

(** X7. An operation that rejects has changed nothing: the recordings of
    the store are those it held before. *)
Theorem rejected_operation_changes_nothing (dbenv : DBEnv)
  (getTime : jsstring -> number) (st : DBState) (r : Recording)
  (key : jsstring) (e : exn) :
  (fst (saveRecordingToDB dbenv r st) = Thrown e ->
   contents (snd (saveRecordingToDB dbenv r st)) = contents st)
  /\ (fst (deleteRecordingFromDB dbenv key st) = Thrown e ->
      contents (snd (deleteRecordingFromDB dbenv key st)) = contents st)
  /\ (fst (getRecordingByIdFromDB dbenv key st) = Thrown e ->
      contents (snd (getRecordingByIdFromDB dbenv key st)) = contents st)
  /\ (fst (getRecordingsFromDB dbenv getTime st) = Thrown e ->
      contents (snd (getRecordingsFromDB dbenv getTime st)) = contents st).
Proof.
  assert (G : forall A what (run : list Recording -> A * list Recording),
             fst (request dbenv what run st) = Thrown e ->
             contents (snd (request dbenv what run st)) = contents st).
  { intros A what run H.
    destruct (request dbenv what run st) as [o st'] eqn:E. cbn [fst snd] in *.
    subst o. eapply request_thrown. exact E. }
  repeat split; try apply G.
  rewrite getRecordingsFromDB_as_request. apply G.
Qed.

Lemma rejected_operation_changes_nothing_witness :
  contents (snd (saveRecordingToDB
                   {| openFails := false; requestError := Some None |}
                   rec2025 (stored [rec2024])))
  = [rec2024].
Proof.
  apply (proj1 (rejected_operation_changes_nothing
                  {| openFails := false; requestError := Some None |}
                  isoGetTime (stored [rec2024]) rec2025 []
                  (JsError (u16 "Error saving recording: undefined")))).
  reflexivity.
Defined.

(** X8. When the database cannot be opened, every operation rejects with
    "Error opening DB" and the state is untouched. *)
Theorem open_failure_rejects_every_operation (dbenv : DBEnv)
  (getTime : jsstring -> number) (st : DBState) (r : Recording)
  (key : jsstring) :
  db st = false -> openFails dbenv = true ->
  saveRecordingToDB dbenv r st = (Thrown (JsError (u16 "Error opening DB")), st)
  /\ deleteRecordingFromDB dbenv key st
     = (Thrown (JsError (u16 "Error opening DB")), st)
  /\ getRecordingByIdFromDB dbenv key st
     = (Thrown (JsError (u16 "Error opening DB")), st)
  /\ getRecordingsFromDB dbenv getTime st
     = (Thrown (JsError (u16 "Error opening DB")), st).
Proof.
  intros Hdb Ho.
  unfold saveRecordingToDB, deleteRecordingFromDB, getRecordingByIdFromDB,
    getRecordingsFromDB, request, bind, initDB.
  rewrite Hdb, Ho. repeat split.
Qed.

Lemma open_failure_rejects_every_operation_witness :
  saveRecordingToDB {| openFails := true; requestError := None |} rec2024
    (stored [])
  = (Thrown (JsError (u16 "Error opening DB")), stored []).
Proof.
  apply (open_failure_rejects_every_operation
           {| openFails := true; requestError := None |} isoGetTime
           (stored []) rec2024 []); reflexivity.
Defined.

(** X9. The connection is opened once: after an operation has resolved,
    the module holds the connection, and a later read resolves from the
    store even when opening the database would fail by then. *)
Theorem connection_is_opened_once (dbenv dbenv' : DBEnv) (r : Recording)
  (st st' : DBState) (key : jsstring) :
  saveRecordingToDB dbenv r st = (Returned tt, st') ->
  requestError dbenv' = None ->
  db st' = true
  /\ getRecordingByIdFromDB dbenv' key st'
     = (Returned (getRecord key (contents st')), st').
Proof.
  intros H Hr'. apply request_returned in H. cbn [fst snd] in H.
  destruct H as [_ [Hdb [Hs _]]]. split; [exact Hdb |].
  unfold getRecordingByIdFromDB.
  rewrite (request_ready dbenv' _ _ st' _ Hdb Hs Hr'). cbn [fst snd].
  rewrite (withStore_same _ _ Hs). unfold contents. rewrite Hs. reflexivity.
Qed.

Lemma connection_is_opened_once_witness :
  db (snd (saveRecordingToDB working rec2024 (stored []))) = true.
Proof.
  apply (connection_is_opened_once working
           {| openFails := true; requestError := None |} rec2024 (stored [])
           _ []); reflexivity.
Defined.

(** ** blobToBase64 *)

Lemma split_no_sep (sep : N) (s : jsstring) :
  ~ In sep s -> split sep s = [s].
Proof.
  induction s as [| c s IH]; intros H; [reflexivity |].
  cbn [split]. destruct (N.eqb_spec c sep) as [-> | _].
  - exfalso. apply H. now left.
  - rewrite IH by (intros C; apply H; now right). reflexivity.
Qed.

Lemma split_nonempty (sep : N) (s : jsstring) : split sep s <> [].
Proof.
  destruct s as [| c s]; cbn [split]; [discriminate |].
  destruct (c =? sep)%N; [discriminate |].
  destruct (split sep s); discriminate.
Qed.

Lemma split_at_first (sep : N) (h p : jsstring) :
  ~ In sep h -> split sep (h ++ sep :: p) = h :: split sep p.
Proof.
  induction h as [| c h IH]; intros H; cbn [app split].
  - rewrite N.eqb_refl. reflexivity.
  - destruct (N.eqb_spec c sep) as [-> | _].
    + exfalso. apply H. now left.
    + rewrite IH by (intros C; apply H; now right). reflexivity.
Qed.

(** X10. [blobToBase64] resolves with the text between the first and the
    second comma of the data URL: with a header that has no comma this is
    the whole payload; when the header itself has a comma it is the rest
    of the header, not the payload; and for a URL without a comma it
    resolves with [undefined]. *)
Theorem blobToBase64_takes_text_after_first_comma (env : Env) (b : Blob)
  (tr : trace) (url : jsstring) :
  fileReader env b = LoadEndString url ->
  (forall h p, url = h ++ 44%N :: p -> ~ In 44%N h -> ~ In 44%N p ->
     blobToBase64 env b tr = (Returned (Some p), tr ++ [ReadAsDataURL b]))
  /\ (forall h1 h2 p, url = h1 ++ 44%N :: h2 ++ 44%N :: p ->
        ~ In 44%N h1 -> ~ In 44%N h2 ->
        blobToBase64 env b tr = (Returned (Some h2), tr ++ [ReadAsDataURL b]))
  /\ (~ In 44%N url ->
      blobToBase64 env b tr = (Returned None, tr ++ [ReadAsDataURL b])).
Proof.
  intros Hr.
  assert (E : blobToBase64 env b tr
              = (Returned (nth_error (split 44 url) 1), tr ++ [ReadAsDataURL b])).
  { unfold blobToBase64, bind, emit. rewrite Hr. reflexivity. }
  rewrite E. repeat split.
  - intros h p -> Hh Hp. rewrite split_at_first, split_no_sep by assumption.
    reflexivity.
  - intros h1 h2 p -> H1 H2. rewrite !split_at_first by assumption.
    reflexivity.
  - intros H. rewrite split_no_sep by exact H. reflexivity.
Qed.

Lemma blobToBase64_takes_text_after_first_comma_witness :
  blobToBase64 (answering (num 0) []) clip10 []
  = (Returned (Some (u16 "AAAA")), [ReadAsDataURL clip10]).
Proof.
  apply (proj1 (blobToBase64_takes_text_after_first_comma
                  (answering (num 0) []) clip10 []
                  (u16 "data:audio/webm;base64,AAAA") eq_refl)
           (u16 "data:audio/webm;base64") (u16 "AAAA")).
  - reflexivity.
  - vm_compute. intuition discriminate.
  - vm_compute. intuition discriminate.
Defined.

(** ** The duration probe: the first event decides *)

(** X11. The probe resolves with what the first event of the audio
    element says: the duration of a [loadedmetadata], whatever the element
    fires afterwards; and while the element fires nothing the probe stays
    pending, so the run stays pending without a single remote call. *)
Theorem probe_first_event_decides (env : Env) (fuel : nat) (b : Blob) :
  (forall d evs tr, media env b = loadedmetadata d :: evs ->
     fst (getAudioDuration env b tr) = Returned d)
  /\ (media env b = [] ->
      processAudio env fuel b []
      = (Pending, [OnProgress (u16 "Analyzing audio file...") (num 5);
                   CreateObjectURL b])).
Proof.
  split.
  - intros d evs tr Hm. rewrite getAudioDuration_eq. unfold probed, probeRun.
    rewrite Hm. cbn [fold_left dispatch onLoadedmetadata]. cbn [fst].
    rewrite (dispatch_fold_resolved b evs _ _ d); reflexivity.
  - intros Hm. rewrite processAudio_eq. unfold probed, startTrace, probeRun.
    rewrite Hm. reflexivity.
Qed.

Lemma probe_first_event_decides_witness :
  fst (getAudioDuration
         {| media := fun _ => [loadedmetadata (num 12); error];
            fileReader := fun _ => ReaderFails;
            remote := fun _ _ => Rejects [] |} clip10 [])
  = Returned (num 12).
Proof.
  apply (proj1 (probe_first_event_decides
                  {| media := fun _ => [loadedmetadata (num 12); error];
                     fileReader := fun _ => ReaderFails;
                     remote := fun _ _ => Rejects [] |} 0 clip10)
           (num 12) [error] []).
  reflexivity.
Defined.

(** ** Runs of the first iterations of the loop *)

Section Prefix.
Variables (env : Env) (b : Blob) (numChunks cs : number).

(** [k] iterations from counter [i] on, when the condition holds for them
    and their chunks can be read. *)
Lemma chunkLoop_prefix (k : nat) :
  forall fuel i parts tr,
    0 <= i ->
    (forall j, i <= j < i + Z.of_nat k ->
       num_lt (num j) numChunks = true
       /\ exists r, fileReader env (chunkOf b (mimeTypeOf b) cs j)
                    = LoadEndString r) ->
    length (filter isGenerateContent tr) = Z.to_nat i ->
    chunkLoop env (k + fuel) b (mimeTypeOf b) numChunks cs i parts tr =
    chunkLoop env fuel b (mimeTypeOf b) numChunks cs (i + Z.of_nat k)
      (parts ++ map (segment env b cs) (zrange i k))
      (tr ++ flat_map (chunkEvents env b numChunks cs) (zrange i k)).
Proof.
  induction k as [| k IH]; intros fuel i parts tr Hi Hj Hcount.
  - cbn [zrange map flat_map Nat.add]. rewrite !app_nil_r, Z.add_0_r.
    reflexivity.
  - cbn [Nat.add chunkLoop zrange map flat_map].
    destruct (Hj i ltac:(lia)) as [Hlt [r Hr]]. rewrite Hlt.
    unfold bind at 1, onProgress, emit.
    unfold bind at 1, blobToBase64. unfold bind at 1, emit.
    rewrite Hr. unfold ret at 1.
    unfold bind at 1, try_catch, generateContent.
    rewrite !count_calls_snoc, Hcount. cbn [isGenerateContent].
    rewrite !Nat.add_0_r.
    unfold segment, chunkEvents, chunkRequest, base64Of. rewrite Hr.
    replace (i + Z.of_nat (S k)) with (i + 1 + Z.of_nat k) by lia.
    destruct (remote env (Z.to_nat i) _) as [text | reason].
    + rewrite IH; try lia.
      * rewrite <- !app_assoc. reflexivity.
      * intros j Hjr. apply Hj. lia.
      * rewrite !count_calls_snoc, Hcount. cbn [isGenerateContent]. lia.
    + unfold bind at 1, emit, ret.
      rewrite IH; try lia.
      * rewrite <- !app_assoc. reflexivity.
      * intros j Hjr. apply Hj. lia.
      * rewrite !count_calls_snoc, Hcount. cbn [isGenerateContent]. lia.
Qed.

Lemma chunkEvents_calls (l : list Z) :
  filter isTranscription (flat_map (chunkEvents env b numChunks cs) l) =
  map (fun j => GenerateContent (chunkRequest env b cs j)) l.
Proof.
  induction l as [| j l IH]; [reflexivity |].
  cbn [flat_map map]. rewrite filter_app, IH. unfold chunkEvents.
  rewrite filter_app.
  destruct (remote env _ _); reflexivity.
Qed.

End Prefix.

(** ** A chunk that cannot be read *)

(** X12. In a chunked run the read of a chunk is not guarded as its
    transcription call is: when the read of chunk [j] fails after the
    chunks before it were read, the run throws the reader's error event,
    having made the [j] transcription calls of the chunks before it, and
    makes no analysis call. *)
Theorem chunk_read_failure_aborts_run (env : Env) (fuel : nat) (b : Blob)
  (q : Q) (j : Z) :
  probed env b = Some (Finite q) ->
  (540 < q)%Q ->
  let n := Qceiling (q / 540) in
  let cs := num (ceilDiv (size b) n) in
  0 <= j < n ->
  (forall i, 0 <= i < j ->
     exists r, fileReader env (chunkOf b (mimeTypeOf b) cs i) = LoadEndString r) ->
  fileReader env (chunkOf b (mimeTypeOf b) cs j) = ReaderFails ->
  (Z.to_nat j < fuel)%nat ->
  fst (processAudio env fuel b []) = Thrown ReaderErrorEvent
  /\ filter isTranscription (snd (processAudio env fuel b []))
     = map (fun i => GenerateContent (chunkRequest env b cs i))
         (zrange 0 (Z.to_nat j))
  /\ filter isAnalysis (snd (processAudio env fuel b [])) = [].
Proof.
  intros Hd Hq n cs Hj Hreads Hfail Hfuel.
  pose proof (numChunks_ge_2 q Hq) as Hn. fold n in Hn.
  assert (E : transcribe env fuel b (Finite q) (startTrace env b)
              = (Thrown ReaderErrorEvent,
                 (startTrace env b
                    ++ flat_map (chunkEvents env b (num n) cs)
                         (zrange 0 (Z.to_nat j)))
                   ++ [OnProgress
                         (u16 "Transcribing chunk " ++ toString (j + 1)
                            ++ u16 " of " ++ numberToString (num n)
                            ++ u16 "...")
                         (chunkProgress j (num n));
                       ReadAsDataURL (chunkOf b (mimeTypeOf b) cs j)])).
  { unfold transcribe. rewrite num_le_finite.
    assert (Hle : Qle_bool q 540 = false).
    { destruct (Qle_bool q 540) eqn:C; [| reflexivity].
      apply Qle_bool_iff in C. exfalso. exact (Qlt_not_le _ _ Hq C). }
    rewrite Hle, numChunksOf_finite. fold n.
    rewrite chunkSizeOf_finite by lia. fold cs.
    unfold bind at 1.
    replace fuel with (Z.to_nat j + S (fuel - Z.to_nat j - 1))%nat by lia.
    rewrite chunkLoop_prefix.
    - cbn [chunkLoop]. rewrite Z.add_0_l, Z2Nat.id by lia.
      rewrite num_lt_Z. destruct (Z.ltb_spec j n); [| lia].
      unfold bind at 1, onProgress, emit.
      unfold bind at 1, blobToBase64. unfold bind at 1, emit.
      rewrite Hfail. unfold throw. rewrite <- !app_assoc. reflexivity.
    - lia.
    - intros i Hi. rewrite Z2Nat.id in Hi by lia. split.
      + rewrite num_lt_Z. apply Z.ltb_lt. lia.
      + apply Hreads. lia.
    - rewrite startTrace_calls. reflexivity. }
  assert (R : processAudio env fuel b []
              = (Thrown ReaderErrorEvent,
                 snd (transcribe env fuel b (Finite q) (startTrace env b)))).
  { rewrite processAudio_eq, Hd. unfold bind. rewrite E. reflexivity. }
  rewrite R. cbn [fst snd]. split; [reflexivity |]. split.
  - rewrite E. cbn [snd]. rewrite !filter_app, chunkEvents_calls.
    rewrite startTrace_filter; [cbn [filter isTranscription app];
                               apply app_nil_r | intros [] | ];
      (discriminate || reflexivity).
  - apply transcribe_no_analysis.
Qed.

Lemma chunk_read_failure_aborts_run_witness :
  fst (processAudio (readsFailFrom (num 1500) clip10 4 1) 9 clip10 [])
  = Thrown ReaderErrorEvent
  /\ length (filter isTranscription
               (snd (processAudio (readsFailFrom (num 1500) clip10 4 1) 9
                       clip10 []))) = 1%nat.
Proof.
  destruct (chunk_read_failure_aborts_run
              (readsFailFrom (num 1500) clip10 4 1) 9 clip10 1500 1) as [H1 [H2 _]].
  - vm_compute. reflexivity.
  - reflexivity.
  - vm_compute. split; [discriminate | reflexivity].
  - intros i Hi. assert (i = 0) as -> by lia. eexists. vm_compute. reflexivity.
  - vm_compute. reflexivity.
  - vm_compute. lia.
  - split; [exact H1 |]. rewrite H2. reflexivity.
Defined.

(** ** An infinite duration *)

Lemma chunkOf_zero_size (b : Blob) (mime : jsstring) (i : Z) :
  bytes (chunkOf b mime (num 0) i) = [].
Proof.
  unfold chunkOf. rewrite num_mul_Z, num_add_Z. unfold slice.
  rewrite !toClampedLongLong_num. rewrite Z.mul_0_r, Z.add_0_r.
  change (Z.min (Z.max 0 LLONG_MIN) LLONG_MAX) with 0.
  unfold sliceRange, relativePos. cbn [Z.ltb Z.compare].
  assert (H : 0 <= size b) by (unfold size; lia).
  rewrite Z.min_l by exact H. rewrite Z.sub_diag. reflexivity.
Qed.

(** X13. When the audio element reports an infinite duration, the run
    takes the chunked branch with infinitely many chunks of zero bytes:
    the loop never ends. With any fuel [k] the model is still in the loop,
    having read [k] empty chunks and made [k] transcription calls, and no
    analysis call. *)
Theorem infinite_duration_loops_forever (env : Env) (k : nat) (b : Blob) :
  probed env b = Some PosInfinity ->
  readable env ->
  numChunksOf PosInfinity = PosInfinity
  /\ chunkSizeOf b PosInfinity = num 0
  /\ (forall i, bytes (chunkOf b (mimeTypeOf b) (num 0) i) = [])
  /\ fst (processAudio env k b []) = OutOfFuel
  /\ filter isTranscription (snd (processAudio env k b []))
     = map (fun i => GenerateContent (chunkRequest env b (num 0) i))
         (zrange 0 k)
  /\ filter isAnalysis (snd (processAudio env k b [])) = [].
Proof.
  intros Hd Hread.
  assert (Hn : numChunksOf PosInfinity = PosInfinity) by reflexivity.
  assert (Hcs : chunkSizeOf b PosInfinity = num 0) by reflexivity.
  split; [exact Hn |]. split; [exact Hcs |].
  split; [intros i; apply chunkOf_zero_size |].
  assert (E : transcribe env k b PosInfinity (startTrace env b)
              = (OutOfFuel,
                 startTrace env b
                   ++ flat_map (chunkEvents env b PosInfinity (num 0))
                        (zrange 0 k))).
  { unfold transcribe. change (num_le PosInfinity MAX_CHUNK_SECONDS) with false.
    cbn match. rewrite Hn, Hcs. unfold bind at 1.
    replace k with (k + 0)%nat at 1 by lia.
    rewrite chunkLoop_prefix.
    - reflexivity.
    - lia.
    - intros j Hj. split; [reflexivity | apply Hread].
    - rewrite startTrace_calls. reflexivity. }
  assert (R : processAudio env k b []
              = (OutOfFuel,
                 snd (transcribe env k b PosInfinity (startTrace env b)))).
  { rewrite processAudio_eq, Hd. unfold bind. rewrite E. reflexivity. }
  rewrite R. cbn [fst snd]. split; [reflexivity |]. split.
  - rewrite E. cbn [snd]. rewrite filter_app, chunkEvents_calls.
    rewrite startTrace_filter; [reflexivity | intros [] | ];
      (discriminate || reflexivity).
  - apply transcribe_no_analysis.
Qed.

Lemma infinite_duration_loops_forever_witness :
  fst (processAudio (answering PosInfinity (u16 "a")) 7 clip10 []) = OutOfFuel.
Proof.
  apply (infinite_duration_loops_forever (answering PosInfinity (u16 "a")) 7
           clip10).
  - reflexivity.
  - intros x. eexists. reflexivity.
Defined.

(** ** The analysis call *)

Lemma getProp_setProp_other (key k : jsstring) (v : value)
  (props : list (jsstring * value)) :
  key <> k -> getProp key (setProp k v props) = getProp key props.
Proof.
  intros Hk. assert (Hkk : str_eqb k key = false)
    by (apply str_eqb_neq; congruence).
  induction props as [| [k0 w] rest IH]; cbn [setProp getProp].
  - rewrite Hkk. reflexivity.
  - destruct (str_eqb k0 k) eqn:E; cbn [getProp].
    + apply str_eqb_eq in E. subst k0. rewrite Hkk. reflexivity.
    + rewrite IH. reflexivity.
Qed.

(** X14. The response of the analysis call is not checked against the
    schema: whatever JSON value it parses to, the run returns, with the
    value's own properties and the transcript as [rawTranscript]; the
    transcript wins over a [rawTranscript] of the response, and a response
    that is a number, a boolean or [null] gives an object with nothing but
    [rawTranscript]. *)
Theorem unvalidated_response_is_returned (env : Env) (fuel : nat) (b : Blob)
  (d : number) (raw : jsstring) (tr1 : trace) (text : jsstring) (v : value) :
  probed env b = Some d ->
  transcribe env fuel b d (startTrace env b) = (Returned raw, tr1) ->
  blank raw = false ->
  remote env (length (filter isGenerateContent tr1)) (analysisRequest raw)
  = Responds text ->
  JSON.parse text = Some v ->
  exists result tr,
    processAudio env fuel b [] = (Returned result, tr)
    /\ getProp (u16 "rawTranscript") result = Some (VString raw)
    /\ (forall key, key <> u16 "rawTranscript" ->
          getProp key result = getProp key (copyDataProperties [] v))
    /\ match v with
       | VNull | VBool _ | VNumber _ =>
           result = [(u16 "rawTranscript", VString raw)]
       | _ => True
       end.
Proof.
  intros Hd HT Hraw Hresp Hparse.
  rewrite processAudio_eq, Hd. unfold bind. rewrite HT.
  rewrite analyze_not_blank by exact Hraw. rewrite Hresp, Hparse.
  eexists. eexists. split; [reflexivity |].
  split; [apply getProp_setProp |].
  split; [intros key Hk; apply getProp_setProp_other; exact Hk |].
  destruct v; exact I || reflexivity.
Qed.

Lemma unvalidated_response_is_returned_witness :
  fst (processAudio (analysing (Responds (u16 "7"))) 0 clip10 [])
  = Returned [(u16 "rawTranscript", VString (u16 "hello"))].
Proof.
  destruct (unvalidated_response_is_returned
              (analysing (Responds (u16 "7"))) 0 clip10 (num 12) (u16 "hello")
              _ (u16 "7") (VNumber (num 7))
              ltac:(vm_compute; reflexivity) ltac:(vm_compute; reflexivity)
              ltac:(vm_compute; reflexivity) ltac:(reflexivity)
              ltac:(vm_compute; reflexivity))
    as [result [tr [H [_ [_ E]]]]].
  rewrite H, E. reflexivity.
Defined.

(** X15. A failure of the analysis is the end of the run: when the
    analysis call is rejected the run throws the rejection, and when its
    response is no JSON text the run throws a SyntaxError; either way one
    analysis call was made and not repeated, and the last progress value
    reported is 85. *)
Theorem failed_analysis_is_fatal (env : Env) (fuel : nat) (b : Blob)
  (d : number) (raw : jsstring) (tr1 : trace) :
  probed env b = Some d ->
  transcribe env fuel b d (startTrace env b) = (Returned raw, tr1) ->
  blank raw = false ->
  let answer :=
    remote env (length (filter isGenerateContent tr1)) (analysisRequest raw) in
  (forall reason, answer = Rejects reason ->
     fst (processAudio env fuel b []) = Thrown (ApiError reason))
  /\ (forall text, answer = Responds text -> JSON.parse text = None ->
        fst (processAudio env fuel b []) = Thrown SyntaxError)
  /\ ((forall text, answer = Responds text -> JSON.parse text = None) ->
      filter isAnalysis (snd (processAudio env fuel b []))
      = [GenerateContent (analysisRequest raw)]
      /\ last (progressValues (snd (processAudio env fuel b []))) NaN
         = num 85).
Proof.
  intros Hd HT Hraw answer.
  assert (Hno : filter isAnalysis tr1 = []).
  { pose proof (transcribe_no_analysis env fuel b d) as H.
    rewrite HT in H. exact H. }
  assert (E : processAudio env fuel b [] = analyze env raw tr1).
  { rewrite processAudio_eq, Hd. unfold bind. rewrite HT. reflexivity. }
  rewrite E, analyze_not_blank by exact Hraw. fold answer.
  split; [intros reason ->; reflexivity |].
  split; [intros text -> ->; reflexivity |].
  intros Hbad. destruct answer as [text | reason].
  - rewrite (Hbad text eq_refl). cbn [snd].
    rewrite filter_app, Hno, progressValues_app. cbn [progressValues].
    split; [reflexivity | apply last_last].
  - cbn [snd]. rewrite filter_app, Hno, progressValues_app.
    cbn [progressValues]. split; [reflexivity | apply last_last].
Qed.

Lemma failed_analysis_is_fatal_witness :
  fst (processAudio (analysing (Responds (u16 "{oops"))) 0 clip10 [])
  = Thrown SyntaxError.
Proof.
  refine (proj1 (proj2 (failed_analysis_is_fatal
                          (analysing (Responds (u16 "{oops"))) 0 clip10
                          (num 12) (u16 "hello") _ _ _ _))
            (u16 "{oops") _ _).
  - vm_compute. reflexivity.
  - vm_compute. reflexivity.
  - vm_compute. reflexivity.
  - reflexivity.
  - vm_compute. reflexivity.
Defined.

(** ** Progress 100 *)

Lemma num_inj (a c : Z) : num a = num c -> a = c.
Proof. unfold num, inject_Z. intros H. injection H. auto. Qed.

Lemma chunkProgress_below_100 (i : Z) (numChunks : number) :
  0 <= i -> integral numChunks -> num_lt (num i) numChunks = true ->
  chunkProgress i numChunks <> num 100.
Proof.
  intros Hi Hint Hlt. destruct numChunks as [x | | |]; try discriminate Hlt.
  - destruct Hint as [n Hn]. rewrite Hn in *. rewrite num_lt_Z in Hlt. apply Z.ltb_lt in Hlt.
    rewrite chunkProgress_eq by lia. intros C. apply num_inj in C.
    pose proof (interpolated_range i n). lia.
  - intros C. discriminate C.
Qed.

Section NoHundred.
Variables (env : Env) (b : Blob).

Lemma below100_app (tr l : trace) :
  below100 tr -> below100 l -> below100 (tr ++ l).
Proof.
  unfold below100. intros H1 H2. rewrite progressValues_app.
  apply Forall_app. split; assumption.
Qed.

Lemma below100_snoc (tr : trace) (ev : Event) :
  below100 tr ->
  match ev with OnProgress _ p => p <> num 100 | _ => True end ->
  below100 (tr ++ [ev]).
Proof.
  unfold below100. intros H Hev. rewrite progressValues_app.
  apply Forall_app. split; [exact H |].
  destruct ev; cbn [progressValues]; repeat constructor; exact Hev.
Qed.

Lemma chunkLoop_below100 (mime : jsstring) (numChunks cs : number) (fuel : nat) :
  integral numChunks ->
  forall i parts tr,
    0 <= i -> below100 tr ->
    below100 (snd (chunkLoop env fuel b mime numChunks cs i parts tr)).
Proof.
  intros Hint. induction fuel as [| fuel IH]; intros i parts tr Hi Htr;
    cbn [chunkLoop]; [exact Htr |].
  destruct (num_lt (num i) numChunks) eqn:Hlt; [| exact Htr].
  unfold bind at 1, onProgress, emit.
  unfold bind at 1, blobToBase64. unfold bind at 1, emit.
  assert (H1 : below100 ((tr ++ [OnProgress
              (u16 "Transcribing chunk " ++ toString (i + 1) ++ u16 " of "
                 ++ numberToString numChunks ++ u16 "...")
              (chunkProgress i numChunks)])
              ++ [ReadAsDataURL (chunkOf b mime cs i)])).
  { apply below100_snoc; [| exact I].
    apply below100_snoc; [exact Htr |].
    apply chunkProgress_below_100; assumption. }
  destruct (fileReader env _); unfold ret, throw; try exact H1.
  unfold bind at 1, try_catch, generateContent.
  destruct (remote env _ _).
  - apply IH; [lia |]. apply below100_snoc; [exact H1 | exact I].
  - unfold bind at 1, emit, ret. apply IH; [lia |].
    apply below100_snoc; [| exact I]. apply below100_snoc; [exact H1 | exact I].
Qed.

Lemma numChunksOf_integral (d : number) : integral (numChunksOf d).
Proof.
  destruct d as [q | | |]; try exact I.
  rewrite numChunksOf_finite. eexists. reflexivity.
Qed.

Lemma transcribe_below100 (fuel : nat) (d : number) (tr : trace) :
  below100 tr -> below100 (snd (transcribe env fuel b d tr)).
Proof.
  intros Htr. unfold transcribe. destruct (num_le d MAX_CHUNK_SECONDS).
  - unfold bind at 1, onProgress, emit.
    unfold bind at 1, blobToBase64. unfold bind at 1, emit.
    assert (H1 : below100 ((tr ++ [OnProgress (u16 "Transcribing audio...")
                                     (num 20)])
                             ++ [ReadAsDataURL b])).
    { apply below100_snoc; [| exact I].
      apply below100_snoc; [exact Htr | discriminate]. }
    destruct (fileReader env _); unfold ret, throw; try exact H1.
    unfold generateContent.
    destruct (remote env _ _); apply below100_snoc; (exact H1 || exact I).
  - unfold bind.
    pose proof (chunkLoop_below100 (mimeTypeOf b) (numChunksOf d)
                  (chunkSizeOf b (numChunksOf d)) fuel
                  (numChunksOf_integral d) 0 [] tr ltac:(lia) Htr) as H.
    destruct (chunkLoop env fuel b _ _ _ 0 [] tr) as [[parts | e | |] tr'];
      exact H.
Qed.

End NoHundred.

(** X16. Progress 100 is reported exactly by the runs that return a
    result: a run that throws, stays pending or is still in its loop has
    reported no 100, and a run that returns has. *)
Theorem progress_100_iff_returned (env : Env) (fuel : nat) (b : Blob) :
  In (num 100) (progressValues (snd (processAudio env fuel b [])))
  <-> exists result, fst (processAudio env fuel b []) = Returned result.
Proof.
  assert (Hstart : below100 (startTrace env b)).
  { unfold below100. rewrite startTrace_progress.
    repeat constructor. discriminate. }
  assert (Hnot : forall tr, below100 tr -> ~ In (num 100) (progressValues tr)).
  { unfold below100. intros tr H C. rewrite Forall_forall in H.
    exact (H _ C eq_refl). }
  rewrite processAudio_eq. destruct (probed env b) as [d |].
  - unfold bind.
    pose proof (transcribe_below100 env b fuel d _ Hstart) as HT.
    destruct (transcribe env fuel b d (startTrace env b))
      as [[raw | e | |] tr1]; cbn [fst snd] in *;
      try (split; [intros C; exfalso; exact (Hnot _ HT C)
                  | intros [r C]; discriminate C]).
    destruct (blank raw) eqn:Hraw.
    + rewrite analyze_blank by exact Hraw. cbn [fst snd].
      split; [intros C; exfalso; exact (Hnot _ HT C)
             | intros [r C]; discriminate C].
    + rewrite analyze_not_blank by exact Hraw.
      destruct (remote env _ _) as [text | reason];
        [destruct (JSON.parse text) |]; cbn [fst snd].
      * split; [intros _; eexists; reflexivity |].
        intros _. rewrite progressValues_app. apply in_or_app. right.
        cbn [progressValues In]. right. left. reflexivity.
      * split; [| intros [r C]; discriminate C].
        intros C. exfalso. refine (Hnot _ _ C).
        apply below100_app; [exact HT |].
        unfold below100. cbn [progressValues]. repeat constructor.
        discriminate.
      * split; [| intros [r C]; discriminate C].
        intros C. exfalso. refine (Hnot _ _ C).
        apply below100_app; [exact HT |].
        unfold below100. cbn [progressValues]. repeat constructor.
        discriminate.
  - cbn [fst snd]. split; [intros C; exfalso; exact (Hnot _ Hstart C)
                          | intros [r C]; discriminate C].
Qed.

(** ** A duration that is NaN *)

(** X17. A duration of NaN is not at most 540, so the run takes the
    chunked branch; there the loop condition fails at once, nothing is
    read or sent, and the run throws the empty-transcript error. *)
Theorem nan_duration_fails_without_a_call (env : Env) (fuel : nat) (b : Blob) :
  probed env b = Some NaN ->
  num_le NaN MAX_CHUNK_SECONDS = false
  /\ processAudio env (S fuel) b []
     = (Thrown emptyTranscriptError, startTrace env b)
  /\ filter isGenerateContent (startTrace env b) = []
  /\ filter isReadAsDataURL (startTrace env b) = [].
Proof.
  intros Hd. split; [reflexivity |].
  split; [rewrite processAudio_eq, Hd; reflexivity |].
  split; [apply startTrace_calls |].
  apply startTrace_filter; [intros [] |]; (discriminate || reflexivity).
Qed.

Lemma nan_duration_fails_without_a_call_witness :
  fst (processAudio (answering NaN (u16 "a")) 1 clip10 [])
  = Thrown emptyTranscriptError.
Proof.
  pose proof (nan_duration_fails_without_a_call (answering NaN (u16 "a")) 0
                clip10 eq_refl) as [_ [H _]].
  rewrite H. reflexivity.
Defined.

(** ** The recorder's clock *)

Lemma pad2_digits (m : Z) :
  0 <= m < 100 ->
  padStart 2 (u16 "0") (toString m)
  = [Z.to_N (48 + m / 10); Z.to_N (48 + m mod 10)].
Proof.
  intros Hm.
  assert (H : forallb pad2_ok (seq 0 100) = true) by (vm_compute; reflexivity).
  rewrite forallb_forall in H.
  specialize (H (Z.to_nat m)). unfold pad2_ok in H.
  rewrite Z2Nat.id in H by lia. apply str_eqb_eq. apply H.
  apply in_seq. lia.
Qed.

(** X18. Below 100 minutes [formatTime] gives five characters, two digits
    of minutes, a colon and two digits of seconds, and different times
    give different texts. *)
Theorem formatTime_is_mm_ss (seconds : Z) :
  0 <= seconds < 6000 ->
  let m := seconds / 60 in
  let r := seconds mod 60 in
  formatTime seconds
  = [Z.to_N (48 + m / 10); Z.to_N (48 + m mod 10); 58%N;
     Z.to_N (48 + r / 10); Z.to_N (48 + r mod 10)]
  /\ forall seconds', 0 <= seconds' < 6000 ->
       formatTime seconds' = formatTime seconds -> seconds' = seconds.
Proof.
  intros Hs m r.
  assert (F : forall s, 0 <= s < 6000 ->
            formatTime s
            = [Z.to_N (48 + s / 60 / 10); Z.to_N (48 + (s / 60) mod 10); 58%N;
               Z.to_N (48 + s mod 60 / 10); Z.to_N (48 + (s mod 60) mod 10)]).
  { intros s H. unfold formatTime.
    assert (0 <= s / 60 < 100)
      by (split; [apply Z.div_pos; lia | apply Z.div_lt_upper_bound; lia]).
    pose proof (Z.mod_pos_bound s 60 ltac:(lia)).
    rewrite !pad2_digits by lia. reflexivity. }
  split; [apply F; exact Hs |].
  intros s' Hs' E. rewrite (F s' Hs'), (F seconds Hs) in E.
  assert (0 <= s' / 60 < 100)
    by (split; [apply Z.div_pos; lia | apply Z.div_lt_upper_bound; lia]).
  assert (0 <= seconds / 60 < 100)
    by (split; [apply Z.div_pos; lia | apply Z.div_lt_upper_bound; lia]).
  pose proof (Z.mod_pos_bound s' 60 ltac:(lia)).
  pose proof (Z.mod_pos_bound seconds 60 ltac:(lia)).
  pose proof (Z.mod_pos_bound (s' / 60) 10 ltac:(lia)).
  pose proof (Z.mod_pos_bound (seconds / 60) 10 ltac:(lia)).
  pose proof (Z.mod_pos_bound (s' mod 60) 10 ltac:(lia)).
  pose proof (Z.mod_pos_bound (seconds mod 60) 10 ltac:(lia)).
  assert (0 <= s' / 60 / 10) by (apply Z.div_pos; lia).
  assert (0 <= seconds / 60 / 10) by (apply Z.div_pos; lia).
  assert (0 <= s' mod 60 / 10) by (apply Z.div_pos; lia).
  assert (0 <= seconds mod 60 / 10) by (apply Z.div_pos; lia).
  pose proof (f_equal (fun l => nth 0 l 0%N) E) as E1.
  pose proof (f_equal (fun l => nth 1 l 0%N) E) as E2.
  pose proof (f_equal (fun l => nth 3 l 0%N) E) as E3.
  pose proof (f_equal (fun l => nth 4 l 0%N) E) as E4.
  cbn [nth] in E1, E2, E3, E4.
  apply Z2N.inj in E1; [| lia | lia].
  apply Z2N.inj in E2; [| lia | lia].
  apply Z2N.inj in E3; [| lia | lia].
  apply Z2N.inj in E4; [| lia | lia].
  pose proof (Z.div_mod (s' / 60) 10 ltac:(lia)).
  pose proof (Z.div_mod (seconds / 60) 10 ltac:(lia)).
  pose proof (Z.div_mod (s' mod 60) 10 ltac:(lia)).
  pose proof (Z.div_mod (seconds mod 60) 10 ltac:(lia)).
  pose proof (Z.div_mod s' 60 ltac:(lia)).
  pose proof (Z.div_mod seconds 60 ltac:(lia)).
  lia.
Qed.

Lemma formatTime_is_mm_ss_witness : formatTime 754 = u16 "12:34".
Proof.
  rewrite (proj1 (formatTime_is_mm_ss 754 ltac:(lia))). reflexivity.
Defined.

(** ** The name of the exported file *)

Ltac split_comparisons :=
  repeat first
    [ progress cbn [andb orb] in *
    | match goal with
      | |- context [(?a <=? ?b)%N] => destruct (N.leb_spec a b)
      | |- context [(?a =? ?b)%N] => destruct (N.eqb_spec a b)
      | H : context [(?a <=? ?b)%N] |- _ => destruct (N.leb_spec a b)
      | H : context [(?a =? ?b)%N] |- _ => destruct (N.eqb_spec a b)
      end ].

Lemma sanitized_char_safe (c : N) :
  isSafe (toLower (if isAlnum c then c else 95%N)) = true.
Proof.
  unfold isSafe, toLower, isAlnum.
  split_comparisons; first [reflexivity | lia].
Qed.

Lemma safe_char_fixed (c : N) :
  isSafe c = true -> toLower (if isAlnum c then c else 95%N) = c.
Proof.
  unfold isSafe, toLower, isAlnum. intros H.
  split_comparisons; first [reflexivity | discriminate H | lia].
Qed.

Lemma safe_name_fixed (l : jsstring) :
  forallb isSafe l = true ->
  map toLower (map (fun c => if isAlnum c then c else 95%N) l) = l.
Proof.
  induction l as [| c l IH]; cbn [forallb map]; [reflexivity |].
  intros H. apply andb_true_iff in H. destruct H as [Hc Hl].
  rewrite (safe_char_fixed c Hc), (IH Hl). reflexivity.
Qed.

(** X19. The file name of an exported PDF is never empty and holds only
    digits, lower-case ASCII letters and underscores; it has one character
    for each code unit of a name that is not empty, and is "transcription"
    for the empty name; a name already of this form is kept as it is. *)
Theorem sanitizedName_is_a_safe_file_name (name : jsstring) :
  sanitizedName name <> []
  /\ forallb isSafe (sanitizedName name) = true
  /\ (name <> [] -> length (sanitizedName name) = length name)
  /\ (name = [] -> sanitizedName name = u16 "transcription")
  /\ sanitizedName (sanitizedName name) = sanitizedName name
  /\ (name <> [] -> forallb isSafe name = true -> sanitizedName name = name).
Proof.
  assert (Hsafe : forallb isSafe
            (map toLower (map (fun c => if isAlnum c then c else 95%N) name))
            = true).
  { rewrite map_map. induction name as [| c l IH]; [reflexivity |].
    cbn [map forallb]. rewrite sanitized_char_safe. exact IH. }
  assert (Hfix : forall l, l <> [] -> forallb isSafe l = true ->
                           sanitizedName l = l).
  { intros l Hl H. unfold sanitizedName. rewrite (safe_name_fixed l H).
    destruct l; [contradiction | reflexivity]. }
  unfold sanitizedName at 1 2 3 4 6.
  destruct name as [| c l].
  - cbn [map truthy]. repeat split; try discriminate; try reflexivity.
    + intros C. contradiction.
    + intros C. contradiction.
  - cbn [map truthy] in *. repeat split; try discriminate.
    + exact Hsafe.
    + intros _. cbn [length]. rewrite !length_map. reflexivity.
    + apply Hfix; [discriminate | exact Hsafe].
    + intros _ H. apply (Hfix (c :: l)); [discriminate | exact H].
Qed.

Lemma sanitizedName_is_a_safe_file_name_witness :
  length (sanitizedName (u16 "Team Sync #4")) = length (u16 "Team Sync #4").
Proof.
  apply (proj1 (proj2 (proj2 (sanitizedName_is_a_safe_file_name
                                (u16 "Team Sync #4"))))).
  vm_compute. discriminate.
Defined.

(** ** The name saved from the header *)

Lemma trimStart_suffix (s : jsstring) :
  exists ws, s = ws ++ trimStart s /\ blank ws = true.
Proof.
  induction s as [| c s [ws [E Hws]]]; cbn [trimStart].
  - exists []. split; reflexivity.
  - destruct (isWhiteSpace c) eqn:Hc.
    + exists (c :: ws). cbn [app]. split; [f_equal; exact E |].
      unfold blank in *. cbn [forallb]. rewrite Hc, Hws. reflexivity.
    + exists []. split; reflexivity.
Qed.

Lemma trimStart_fix (s : jsstring) :
  (forall c r, s = c :: r -> isWhiteSpace c = false) -> trimStart s = s.
Proof.
  destruct s as [| c r]; [reflexivity |]. intros H. cbn [trimStart].
  rewrite (H c r eq_refl). reflexivity.
Qed.

(** What [trim] gives starts and ends with a character that is no white
    space, and is not changed by trimming again. *)
Lemma trim_edges (s : jsstring) :
  (forall c r, trim s = c :: r -> isWhiteSpace c = false)
  /\ (forall c r, rev (trim s) = c :: r -> isWhiteSpace c = false)
  /\ trim (trim s) = trim s.
Proof.
  assert (Hend : forall c r, rev (trim s) = c :: r -> isWhiteSpace c = false).
  { intros c r H. unfold trim, trimEnd in H. rewrite rev_involutive in H.
    apply trimStart_head in H. exact H. }
  assert (Hstart : forall c r, trim s = c :: r -> isWhiteSpace c = false).
  { intros c r H. unfold trim, trimEnd in H.
    destruct (trimStart_suffix (rev (trimStart s))) as [ws [E _]].
    apply (f_equal (@rev N)) in E. rewrite rev_involutive, rev_app_distr in E.
    rewrite H in E. cbn [app] in E. apply trimStart_head in E. exact E. }
  split; [exact Hstart |]. split; [exact Hend |].
  unfold trim at 1. rewrite (trimStart_fix _ Hstart).
  unfold trimEnd. rewrite (trimStart_fix _ Hend). apply rev_involutive.
Qed.

(** X20. The header passes a name on only when it is not blank, and then
    passes it trimmed: what [onSave] receives is not empty, starts and
    ends with a character that is no white space, and trimming it again
    changes nothing. For a blank name [onSave] is not called. In neither
    case does the field keep what was typed: leaving the editing mode runs
    the effect, and the field holds the name the parent passes, which is
    the initial name as long as the parent has not renamed the recording,
    and the name the parent passes later from then on. *)
Theorem header_saves_trimmed_names (initialName shown : jsstring)
  (s : EditableHeader.State) :
  let typed := EditableHeader.name s in
  (forall saved s',
     headerSave initialName shown s = (Some saved, s') ->
     saved = trim typed /\ saved <> []
     /\ (forall c r, saved = c :: r -> isWhiteSpace c = false)
     /\ (forall c r, rev saved = c :: r -> isWhiteSpace c = false)
     /\ trim saved = saved)
  /\ (blank typed = true -> fst (headerSave initialName shown s) = None)
  /\ (blank typed = false ->
      fst (headerSave initialName shown s) = Some (trim typed))
  /\ (EditableHeader.isEditing s = true ->
      snd (headerSave initialName shown s)
      = {| EditableHeader.isEditing := false; EditableHeader.name := shown |})
  /\ (blank typed = true ->
      snd (headerSave initialName initialName s)
      = {| EditableHeader.isEditing := false;
           EditableHeader.name := initialName |})
  /\ (EditableHeader.isEditing s = true ->
      forall later,
        EditableHeader.useEffect (shown, false) later
          (snd (headerSave initialName shown s))
        = {| EditableHeader.isEditing := false;
             EditableHeader.name := later |}).
Proof.
  intros typed. unfold headerSave, EditableHeader.handleSave.
  fold typed. rewrite truthy_trim.
  pose proof (trim_edges typed) as [H1 [H2 H3]].
  assert (Hshown : forall later,
            EditableHeader.useEffect (shown, false) later
              {| EditableHeader.isEditing := false;
                 EditableHeader.name := shown |}
            = {| EditableHeader.isEditing := false;
                 EditableHeader.name := later |}).
  { intros later. unfold EditableHeader.useEffect.
    cbn [fst snd EditableHeader.isEditing Bool.eqb negb].
    rewrite andb_true_r. destruct (str_eqb shown later) eqn:E; [| reflexivity].
    apply str_eqb_eq in E. rewrite E. reflexivity. }
  assert (Hedit : forall typed',
            EditableHeader.isEditing s = true ->
            EditableHeader.useEffect (initialName, EditableHeader.isEditing s)
              shown {| EditableHeader.isEditing := false;
                       EditableHeader.name := typed' |}
            = {| EditableHeader.isEditing := false;
                 EditableHeader.name := shown |}).
  { intros typed' He. unfold EditableHeader.useEffect. rewrite He.
    cbn [fst snd EditableHeader.isEditing Bool.eqb negb].
    rewrite andb_false_r. reflexivity. }
  destruct (blank typed) eqn:Hb; cbn [negb fst snd].
  - split; [intros saved s' H; discriminate H |].
    split; [reflexivity |]. split; [discriminate |].
    split; [apply Hedit |]. split.
    + intros _. unfold EditableHeader.useEffect.
      cbn [fst snd EditableHeader.isEditing negb].
      destruct (str_eqb initialName initialName && _); reflexivity.
    + intros He later. rewrite (Hedit _ He). apply Hshown.
  - split.
    { intros saved s' H. injection H as <- _.
      repeat split; try assumption.
      intros C. apply trim_nil_iff in C. congruence. }
    split; [discriminate |]. split; [reflexivity |].
    split; [apply Hedit |]. split; [discriminate |].
    intros He later. rewrite (Hedit _ He). apply Hshown.
Qed.

Lemma header_saves_trimmed_names_witness :
  headerSave (u16 "Recording") (u16 "Recording")
    {| EditableHeader.isEditing := true;
       EditableHeader.name := u16 "  My memo " |}
  = (Some (u16 "My memo"),
     {| EditableHeader.isEditing := false;
        EditableHeader.name := u16 "Recording" |}).
Proof.
  pose proof (header_saves_trimmed_names (u16 "Recording") (u16 "Recording")
                {| EditableHeader.isEditing := true;
                   EditableHeader.name := u16 "  My memo " |})
    as [_ [_ [Hsaved [Hfield _]]]].
  specialize (Hsaved ltac:(vm_compute; reflexivity)).
  specialize (Hfield eq_refl).
  rewrite (surjective_pairing (headerSave _ _ _)), Hsaved, Hfield.
  vm_compute. reflexivity.
Defined.

(** ** Handlers of the application *)

Lemma toString_not_temp (n : Z) : startsWith (u16 "temp-") (toString n) = false.
Proof.
  unfold toString. destruct (N.to_uint (Z.to_N n)); reflexivity.
Qed.

Lemma read_after_save (dbenv : DBEnv) (r : Recording) (st st' : DBState) :
  saveRecordingToDB dbenv r st = (Returned tt, st') ->
  getRecordingByIdFromDB dbenv (id r) st' = (Returned (Some r), st')
  /\ requestError dbenv = None /\ db st' = true
  /\ store st' = Some (putRecord r (contents st)).
Proof.
  intros H. apply request_returned in H. cbn [fst snd] in H.
  destruct H as [Hr [Hdb [Hs _]]]. split; [| repeat split; assumption].
  unfold getRecordingByIdFromDB.
  rewrite (request_ready dbenv _ _ st' _ Hdb Hs Hr). cbn [fst snd].
  rewrite getRecord_putRecord_same, (withStore_same _ _ Hs). reflexivity.
Qed.

Lemma startsWith_temp (s : jsstring) :
  startsWith (u16 "temp-") (u16 "temp-" ++ s) = true.
Proof. reflexivity. Qed.

(** X21. From recording to store: when the run on the new audio returns a
    result, [handleTranscribe] leaves an active recording with a temporary
    id, the audio blob and the result; [handleSave] then stores it under
    the id of the clock, [getRecordingByIdFromDB] reads it back with blob
    and result, the sidebar list starts with it without the blob, and a
    second [handleSave] changes nothing. *)
Theorem transcribe_then_save_stores_the_result
  (env : Env) (fuel : nat) (messageOf : exn -> jsstring)
  (now now' : Z) (localeString isoString url : jsstring) (blob : Blob)
  (app : App.State) (dbenv : DBEnv) (st st' : DBState)
  (data : list (jsstring * value)) :
  App.newAudioDetails app = Some (url, blob) ->
  fst (processAudio env fuel blob []) = Returned data ->
  let app1 := App.handleTranscribe env fuel messageOf now localeString
                isoString app in
  let saved := withId (toString now')
                 (App.newRecording now localeString isoString url blob data) in
  saveRecordingToDB dbenv saved st = (Returned tt, st') ->
  let '(app2, st2) := App.handleSave dbenv now' app1 st in
  App.activeRecording app1
  = Some (App.newRecording now localeString isoString url blob data)
  /\ App.processingStatus app1 = App.idle
  /\ App.error app1 = None
  /\ App.newAudioDetails app1 = None
  /\ st2 = st'
  /\ getRecordingByIdFromDB dbenv (toString now') st2
     = (Returned (Some saved), st2)
  /\ audioBlob saved = Some blob /\ transcription saved = Some data
  /\ App.recordings app2 = omitAudioBlob saved :: App.recordings app
  /\ App.activeRecording app2 = Some saved
  /\ App.handleSave dbenv now' app2 st2 = (app2, st2).
Proof.
  intros Hnew Hrun app1 saved Hsave.
  assert (E1 : app1 =
               App.setProcessingStatus App.idle
                 (App.setNewAudioDetails None
                    (App.setActiveRecording
                       (Some (App.newRecording now localeString isoString url
                                blob data))
                       (App.setProcessingStatus
                          (App.lastStatus (snd (processAudio env fuel blob []))
                             {| App.active := true;
                                App.message := u16 "Starting...";
                                App.progress := num 0 |})
                          (App.setActiveRecording None
                             (App.setError None
                                (App.setProcessingStatus
                                   {| App.active := true;
                                      App.message := u16 "Starting...";
                                      App.progress := num 0 |} app))))))).
  { unfold app1, App.handleTranscribe. rewrite Hnew.
    destruct (processAudio env fuel blob []) as [o tr]. cbn [fst snd] in *.
    rewrite Hrun. reflexivity. }
  assert (E2 : App.handleSave dbenv now' app1 st
               = (App.setActiveRecording (Some saved)
                    (App.setRecordings
                       (omitAudioBlob saved :: App.recordings app1) app1),
                  st')).
  { unfold App.handleSave. rewrite E1 at 1. cbn [App.activeRecording
      App.setProcessingStatus App.setNewAudioDetails App.setActiveRecording].
    cbn [id App.newRecording]. rewrite startsWith_temp. cbn [negb audioBlob].
    fold saved. rewrite Hsave. reflexivity. }
  rewrite E2.
  assert (Hrecs : App.recordings app1 = App.recordings app)
    by (rewrite E1; reflexivity).
  split; [rewrite E1; reflexivity |].
  split; [rewrite E1; reflexivity |].
  split; [rewrite E1; reflexivity |].
  split; [rewrite E1; reflexivity |].
  split; [reflexivity |].
  split; [apply (proj1 (read_after_save dbenv saved st st' Hsave)) |].
  split; [reflexivity |]. split; [reflexivity |].
  split; [cbn [App.recordings App.setActiveRecording App.setRecordings];
          rewrite Hrecs; reflexivity |].
  split; [reflexivity |].
  unfold App.handleSave.
  cbn [App.activeRecording App.setActiveRecording]. unfold saved at 1.
  cbn [id withId]. rewrite toString_not_temp. reflexivity.
Qed.

Lemma transcribe_then_save_stores_the_result_witness :
  App.activeRecording
    (App.handleTranscribe (answering (num 12) (u16 "hello")) 0 (fun _ => [])
       1000 (u16 "1/1/2025") (u16 "2025-01-01T00:00:00.000Z")
       (waiting (u16 "blob:1") clip10))
  = Some (App.newRecording 1000 (u16 "1/1/2025")
            (u16 "2025-01-01T00:00:00.000Z") (u16 "blob:1") clip10
            (returnedBy (processAudio (answering (num 12) (u16 "hello")) 0
                           clip10 []))).
Proof.
  pose proof (transcribe_then_save_stores_the_result
                (answering (num 12) (u16 "hello")) 0 (fun _ => [])
                1000 2000 (u16 "1/1/2025") (u16 "2025-01-01T00:00:00.000Z")
                (u16 "blob:1") clip10 (waiting (u16 "blob:1") clip10)
                working (stored [])
                (snd (saveRecordingToDB working
                        (withId (toString 2000)
                           (App.newRecording 1000 (u16 "1/1/2025")
                              (u16 "2025-01-01T00:00:00.000Z") (u16 "blob:1")
                              clip10
                              (returnedBy
                                 (processAudio
                                    (answering (num 12) (u16 "hello")) 0
                                    clip10 []))))
                        (stored [])))
                (returnedBy (processAudio (answering (num 12) (u16 "hello")) 0
                               clip10 []))
                eq_refl ltac:(vm_compute; reflexivity)
                ltac:(reflexivity)) as H.
  destruct (App.handleSave _ _ _ _) in H. exact (proj1 H).
Defined.

(** ** A run that throws, a run that does not settle *)



Lemma lastStatus_app (a c : trace) (init : App.ProcessingStatus) :
  App.lastStatus (a ++ c) init = App.lastStatus c (App.lastStatus a init).
Proof. apply fold_left_app. Qed.

Lemma zrange_snoc (i : Z) (k : nat) :
  zrange i (S k) = zrange i k ++ [i + Z.of_nat k].
Proof.
  replace (S k) with (k + 1)%nat by lia. rewrite zrange_app. reflexivity.
Qed.

Lemma infinite_run_trace (env : Env) (k : nat) (b : Blob) :
  probed env b = Some PosInfinity ->
  readable env ->
  processAudio env k b []
  = (OutOfFuel,
     startTrace env b
       ++ flat_map (chunkEvents env b PosInfinity (num 0)) (zrange 0 k)).
Proof.
  intros Hd Hread. rewrite processAudio_eq, Hd. unfold bind, transcribe.
  change (num_le PosInfinity MAX_CHUNK_SECONDS) with false. cbn match.
  change (numChunksOf PosInfinity) with PosInfinity.
  change (chunkSizeOf b PosInfinity) with (num 0).
  unfold bind at 1. replace k with (k + 0)%nat at 1 by lia.
  rewrite chunkLoop_prefix.
  - reflexivity.
  - lia.
  - intros j Hj. split; [reflexivity | apply Hread].
  - rewrite startTrace_calls. reflexivity.
Qed.

(** X23. With an infinite duration the run never settles, and so the
    [finally] of [handleTranscribe] never runs: however long the loop has
    run, the status is still active, at progress 20 and with the message
    of the chunk at hand, no error is shown and no recording is active. *)
Theorem unsettled_run_leaves_status_active
  (env : Env) (k : nat) (messageOf : exn -> jsstring)
  (now : Z) (localeString isoString url : jsstring) (blob : Blob)
  (app : App.State) :
  App.newAudioDetails app = Some (url, blob) ->
  probed env blob = Some PosInfinity ->
  readable env ->
  let app1 := App.handleTranscribe env (S k) messageOf now localeString
                isoString app in
  App.processingStatus app1
  = {| App.active := true;
       App.message := u16 "Transcribing chunk " ++ toString (Z.of_nat k + 1)
                        ++ u16 " of Infinity...";
       App.progress := num 20 |}
  /\ App.error app1 = None
  /\ App.activeRecording app1 = None.
Proof.
  intros Hnew Hd Hread app1. unfold app1, App.handleTranscribe.
  rewrite Hnew, (infinite_run_trace env (S k) blob Hd Hread).
  cbn [App.processingStatus App.setProcessingStatus App.error
         App.setError App.setActiveRecording App.activeRecording].
  repeat split.
  rewrite zrange_snoc, flat_map_app, !lastStatus_app. cbn [flat_map].
  rewrite app_nil_r. unfold chunkEvents. rewrite lastStatus_app.
  rewrite Z.add_0_l.
  destruct (remote env _ _); reflexivity.
Qed.

Lemma unsettled_run_leaves_status_active_witness :
  App.active
    (App.processingStatus
       (App.handleTranscribe (answering PosInfinity (u16 "a")) 4 (fun _ => [])
          1000 [] [] (waiting (u16 "blob:1") clip10)))
  = true.
Proof.
  rewrite (proj1 (unsettled_run_leaves_status_active
                    (answering PosInfinity (u16 "a")) 3 (fun _ => []) 1000 [] []
                    (u16 "blob:1") clip10 (waiting (u16 "blob:1") clip10)
                    eq_refl eq_refl
                    ltac:(intros x; eexists; reflexivity))).
  reflexivity.
Defined.

(** ** The sidebar list and the store *)

Lemma filter_perm {A} (f : A -> bool) (l l' : list A) :
  Permutation l l' -> Permutation (filter f l) (filter f l').
Proof.
  induction 1 as [| x l l' _ IH | x y l | l l' l'' _ IH1 _ IH2]; cbn [filter].
  - constructor.
  - destruct (f x); [constructor |]; exact IH.
  - destruct (f x), (f y); try reflexivity. apply perm_swap.
  - etransitivity; eassumption.
Qed.

Lemma ids_filter (key : jsstring) (l : list Recording) :
  map id (filter (fun r => negb (str_eqb (id r) key)) l)
  = filter (fun k => negb (str_eqb k key)) (map id l).
Proof.
  induction l as [| x l IH]; [reflexivity |]. cbn [filter map].
  destruct (negb (str_eqb (id x) key)); cbn [map]; rewrite IH; reflexivity.
Qed.

Lemma ids_renamed (key newName : jsstring) (l : list Recording) :
  map id (map (fun r => if str_eqb (id r) key then withName newName r else r) l)
  = map id l.
Proof.
  rewrite map_map. apply map_ext. intros r.
  destruct (str_eqb (id r) key); reflexivity.
Qed.

Lemma ids_put_present (r : Recording) (l : list Recording) :
  keyed l -> In (id r) (map id l) -> map id (putRecord r l) = map id l.
Proof.
  intros Hk. induction l as [| x rest IH]; intros Hin; [destruct Hin |].
  assert (Hrest : keyed rest) by (inversion Hk; assumption).
  cbn [putRecord]. destruct (keyCompare (id r) (id x)) eqn:E.
  - apply keyCompare_eq in E. cbn [map]. rewrite E. reflexivity.
  - exfalso. exact (keyed_tail_above x rest (id r) Hk E Hin).
  - cbn [map]. f_equal. apply IH; [exact Hrest |].
    cbn [map In] in Hin. destruct Hin as [C | Hin]; [| exact Hin].
    rewrite C in E. rewrite (proj2 (keyCompare_eq _ _) eq_refl) in E.
    discriminate E.
Qed.

Lemma ids_put_fresh (r : Recording) (l : list Recording) :
  keyed l -> ~ In (id r) (map id l) ->
  Permutation (map id (putRecord r l)) (id r :: map id l).
Proof.
  intros Hk Hfresh.
  change (id r :: map id l) with (map id (r :: l)). apply Permutation_map.
  rewrite (putRecord_perm r l Hk), (deleteRecord_absent _ _ Hfresh).
  reflexivity.
Qed.

Lemma delete_returned (dbenv : DBEnv) (key : jsstring) (st st' : DBState) :
  deleteRecordingFromDB dbenv key st = (Returned tt, st') ->
  contents st' = deleteRecord key (contents st).
Proof.
  intros H. apply request_returned in H. cbn [fst snd] in H.
  destruct H as [_ [_ [Hs _]]]. unfold contents at 1. rewrite Hs. reflexivity.
Qed.

Lemma save_returned (dbenv : DBEnv) (r : Recording) (st st' : DBState) :
  saveRecordingToDB dbenv r st = (Returned tt, st') ->
  contents st' = putRecord r (contents st).
Proof.
  intros H. apply request_returned in H. cbn [fst snd] in H.
  destruct H as [_ [_ [Hs _]]]. unfold contents at 1. rewrite Hs. reflexivity.
Qed.

Lemma get_returned (dbenv : DBEnv) (key : jsstring) (st st' : DBState)
  (found : option Recording) :
  getRecordingByIdFromDB dbenv key st = (Returned found, st') ->
  contents st' = contents st /\ found = getRecord key (contents st).
Proof.
  intros H. apply request_returned in H. cbn [fst snd] in H.
  destruct H as [_ [_ [Hs Hf]]]. unfold contents at 1. rewrite Hs.
  split; [reflexivity | exact Hf].
Qed.

Lemma unit_outcome (o : Outcome unit) (x : unit) : o = Returned x -> o = Returned tt.
Proof. destruct x. auto. Qed.

Lemma request_contents {A} (dbenv : DBEnv) (what : jsstring)
  (run : list Recording -> A * list Recording) (s s' : DBState) (o : Outcome A) :
  request dbenv what run s = (o, s') ->
  (forall a, o <> Returned a) -> contents s' = contents s.
Proof.
  intros H Ho. destruct o as [a | e | |].
  - exfalso. exact (Ho a eq_refl).
  - eapply request_thrown. exact H.
  - exfalso. unfold request, bind in H.
    destruct (initDB dbenv s) as [o1 s1] eqn:Hi.
    apply initDB_cases in Hi. destruct Hi as [_ [_ [_ [Hp _]]]].
    destruct o1 as [[] | | |]; try discriminate; try contradiction.
    destruct (store s1); [| discriminate].
    destruct (requestError dbenv); [discriminate |].
    destruct (run l). discriminate.
  - exfalso. unfold request, bind in H.
    destruct (initDB dbenv s) as [o1 s1] eqn:Hi.
    apply initDB_cases in Hi. destruct Hi as [_ [_ [_ [_ Hp]]]].
    destruct o1 as [[] | | |]; try discriminate; try contradiction.
    destruct (store s1); [| discriminate].
    destruct (requestError dbenv); [discriminate |].
    destruct (run l). discriminate.
Qed.

Lemma delete_contents (dbenv : DBEnv) (key : jsstring) (st st' : DBState)
  (o : Outcome unit) :
  deleteRecordingFromDB dbenv key st = (o, st') ->
  contents st' = match o with
                 | Returned _ => deleteRecord key (contents st)
                 | _ => contents st
                 end.
Proof.
  intros H. destruct o as [[] | e | |];
    [apply (delete_returned _ _ _ _ H) | | |];
    unfold deleteRecordingFromDB in H;
    (eapply request_contents; [exact H | discriminate]).
Qed.

Lemma save_contents (dbenv : DBEnv) (r : Recording) (st st' : DBState)
  (o : Outcome unit) :
  saveRecordingToDB dbenv r st = (o, st') ->
  contents st' = match o with
                 | Returned _ => putRecord r (contents st)
                 | _ => contents st
                 end.
Proof.
  intros H. destruct o as [[] | e | |];
    [apply (save_returned _ _ _ _ H) | | |];
    unfold saveRecordingToDB in H;
    (eapply request_contents; [exact H | discriminate]).
Qed.

Lemma get_contents (dbenv : DBEnv) (key : jsstring) (st st' : DBState)
  (o : Outcome (option Recording)) :
  getRecordingByIdFromDB dbenv key st = (o, st') ->
  contents st' = contents st
  /\ forall found, o = Returned found -> found = getRecord key (contents st).
Proof.
  intros H. destruct o as [found | e | |].
  - apply get_returned in H. destruct H as [H1 H2]. split; [exact H1 |].
    intros f E. injection E as <-. exact H2.
  - unfold getRecordingByIdFromDB in H.
    split; [eapply request_contents; [exact H | discriminate] | discriminate].
  - unfold getRecordingByIdFromDB in H.
    split; [eapply request_contents; [exact H | discriminate] | discriminate].
  - unfold getRecordingByIdFromDB in H.
    split; [eapply request_contents; [exact H | discriminate] | discriminate].
Qed.

(** X24. The handlers keep the sidebar list and the store in step: when
    the list and a keyed store hold the same ids, they still do after a
    delete, after a rename, and after a save under an id the store does not
    hold yet, whether the requests resolve or reject. *)
Theorem handlers_keep_list_and_store_in_step
  (dbenv dbenv' : DBEnv) (now : Z) (confirmed : bool)
  (key newName : jsstring) (app : App.State) (st : DBState) :
  keyed (contents st) ->
  synced app st ->
  synced (fst (App.handleDeleteRecording dbenv confirmed key app st))
         (snd (App.handleDeleteRecording dbenv confirmed key app st))
  /\ synced (fst (App.handleRenameRecording dbenv dbenv' key newName app st))
            (snd (App.handleRenameRecording dbenv dbenv' key newName app st))
  /\ (~ In (toString now) (map id (contents st)) ->
      synced (fst (App.handleSave dbenv now app st))
             (snd (App.handleSave dbenv now app st))).
Proof.
  intros Hk Hs. unfold synced in *.
  split; [| split].
  - unfold App.handleDeleteRecording. destruct confirmed; [| exact Hs].
    destruct (deleteRecordingFromDB dbenv key st) as [o st'] eqn:E.
    apply delete_contents in E.
    destruct o as [[] | e | |]; cbn [fst snd]; rewrite E; try exact Hs.
    assert (H : Permutation
                  (map id (filter (fun r => negb (str_eqb (id r) key))
                             (App.recordings app)))
                  (map id (deleteRecord key (contents st)))).
    { unfold deleteRecord. rewrite !ids_filter. apply filter_perm. exact Hs. }
    destruct (App.activeHasId key app); exact H.
  - unfold App.handleRenameRecording.
    destruct (negb (truthy newName)); [exact Hs |].
    destruct (App.activeHasId key app && startsWith (u16 "temp-") key);
      [exact Hs |].
    destruct (getRecordingByIdFromDB dbenv key st) as [o st1] eqn:G.
    apply get_contents in G. destruct G as [G1 G2].
    destruct o as [[rec |] | e | |]; cbn [fst snd]; rewrite ?G1; try exact Hs.
    destruct (saveRecordingToDB dbenv' (withName newName rec) st1)
      as [o2 st2] eqn:S2.
    apply save_contents in S2. rewrite G1 in S2.
    destruct o2 as [[] | e | |]; cbn [fst snd]; rewrite S2; try exact Hs.
    specialize (G2 (Some rec) eq_refl). symmetry in G2.
    apply getRecord_id in G2. destruct G2 as [Hid Hin].
    assert (H : Permutation
                  (map id (map (fun r => if str_eqb (id r) key
                                         then withName newName r else r)
                             (App.recordings app)))
                  (map id (putRecord (withName newName rec) (contents st)))).
    { rewrite ids_renamed, ids_put_present; [exact Hs | exact Hk |].
      cbn [id withName]. apply in_map. exact Hin. }
    destruct (App.activeHasId key app); exact H.
  - intros Hfresh. unfold App.handleSave.
    destruct (App.activeRecording app) as [a |]; [| exact Hs].
    destruct (negb (startsWith (u16 "temp-") (id a))); [exact Hs |].
    destruct (audioBlob a); [| exact Hs].
    destruct (saveRecordingToDB dbenv (withId (toString now) a) st)
      as [o st'] eqn:S1.
    apply save_contents in S1.
    destruct o as [[] | e | |]; cbn [fst snd]; rewrite S1; try exact Hs.
    cbn [App.recordings App.setActiveRecording App.setRecordings map].
    rewrite ids_put_fresh by assumption.
    cbn [id withId omitAudioBlob]. constructor. exact Hs.
Qed.

Lemma handlers_keep_list_and_store_in_step_witness :
  synced
    (fst (App.handleDeleteRecording working true (id rec2024)
            (listing [rec2024; rec2025]) (stored [rec2024; rec2025])))
    (snd (App.handleDeleteRecording working true (id rec2024)
            (listing [rec2024; rec2025]) (stored [rec2024; rec2025]))).
Proof.
  apply (handlers_keep_list_and_store_in_step working working 0 true
           (id rec2024) [] (listing [rec2024; rec2025])
           (stored [rec2024; rec2025])).
  - repeat constructor.
  - unfold synced. reflexivity.
Defined.

(** X25. A confirmed delete that resolves removes the recording from the
    list and from the store and leaves the others where they were, the
    list in the order it had; it closes the recording if it was the active
    one. A delete that is not
    confirmed changes nothing. *)
Theorem delete_handler_removes_the_recording
  (dbenv : DBEnv) (key : jsstring) (app : App.State) (st st' : DBState) :
  deleteRecordingFromDB dbenv key st = (Returned tt, st') ->
  let app' := fst (App.handleDeleteRecording dbenv true key app st) in
  snd (App.handleDeleteRecording dbenv true key app st) = st'
  /\ ~ In key (map id (App.recordings app'))
  /\ getRecord key (contents st') = None
  /\ (forall r, In r (App.recordings app) -> id r <> key ->
        In r (App.recordings app'))
  /\ (forall key', key' <> key ->
        getRecord key' (contents st') = getRecord key' (contents st))
  /\ (App.activeHasId key app = true -> App.activeRecording app' = None)
  /\ (App.activeHasId key app = false ->
      App.activeRecording app' = App.activeRecording app)
  /\ App.handleDeleteRecording dbenv false key app st = (app, st)
  /\ App.recordings app'
     = filter (fun r => negb (str_eqb (id r) key)) (App.recordings app).
Proof.
  intros H app'. pose proof (delete_returned _ _ _ _ H) as Hc.
  assert (Hrecs : App.recordings app'
                  = filter (fun r => negb (str_eqb (id r) key))
                      (App.recordings app)).
  { unfold app', App.handleDeleteRecording. rewrite H. cbn [fst].
    destruct (App.activeHasId key app); reflexivity. }
  split; [unfold App.handleDeleteRecording; rewrite H; reflexivity |].
  split.
  { rewrite Hrecs, ids_filter. intros C. apply filter_In in C.
    destruct C as [_ C]. rewrite str_eqb_refl in C. discriminate C. }
  split; [rewrite Hc; apply getRecord_deleteRecord_same |].
  split.
  { intros r Hr Hid. rewrite Hrecs. apply filter_In. split; [exact Hr |].
    apply negb_true_iff, str_eqb_neq. exact Hid. }
  split; [intros key' Hk'; rewrite Hc;
          apply getRecord_deleteRecord_other; exact Hk' |].
  split; [| split; [| split; [reflexivity | exact Hrecs]]].
  - intros Ha. unfold app', App.handleDeleteRecording. rewrite H, Ha.
    reflexivity.
  - intros Ha. unfold app', App.handleDeleteRecording. rewrite H, Ha.
    reflexivity.
Qed.

Lemma delete_handler_removes_the_recording_witness :
  getRecord (id rec2024)
    (contents (snd (deleteRecordingFromDB working (id rec2024)
                      (stored [rec2024; rec2025]))))
  = None.
Proof.
  apply (delete_handler_removes_the_recording working (id rec2024)
           (listing [rec2024; rec2025]) (stored [rec2024; rec2025])).
  reflexivity.
Defined.

(** X26. A rename of a stored recording changes its name and nothing
    else: the store holds the recording under the same id with the new
    name and the audio blob, date and transcription it had, the other
    recordings are as before, and the list shows the new name at the same
    place. An empty name changes nothing, and for an id the store does not
    hold the rename fails with its error text and a store left as it
    was. *)
Theorem rename_handler_changes_the_name_only
  (dbGet dbSave : DBEnv) (key newName : jsstring) (app : App.State)
  (st : DBState) :
  App.handleRenameRecording dbGet dbSave key [] app st = (app, st)
  /\ (newName <> [] ->
      (App.activeHasId key app && startsWith (u16 "temp-") key) = false ->
      forall st1,
      (forall rec st2,
         getRecordingByIdFromDB dbGet key st = (Returned (Some rec), st1) ->
         saveRecordingToDB dbSave (withName newName rec) st1
         = (Returned tt, st2) ->
         let app' := fst (App.handleRenameRecording dbGet dbSave key newName
                            app st) in
         snd (App.handleRenameRecording dbGet dbSave key newName app st) = st2
         /\ getRecord key (contents st2) = Some (withName newName rec)
         /\ id (withName newName rec) = key
         /\ audioBlob (withName newName rec) = audioBlob rec
         /\ date (withName newName rec) = date rec
         /\ transcription (withName newName rec) = transcription rec
         /\ (forall key', key' <> key ->
               getRecord key' (contents st2) = getRecord key' (contents st))
         /\ App.recordings app'
            = map (fun r => if str_eqb (id r) key then withName newName r
                            else r) (App.recordings app))
      /\ (getRecordingByIdFromDB dbGet key st = (Returned None, st1) ->
          App.handleRenameRecording dbGet dbSave key newName app st
          = (App.setError (Some (u16 "Could not rename the recording.")) app,
             st1)
          /\ contents st1 = contents st)).
Proof.
  split; [reflexivity |].
  intros Hn Ht st1.
  assert (Htruthy : negb (truthy newName) = false)
    by (destruct newName; [contradiction | reflexivity]).
  split.
  - intros rec st2 G S2 app'.
    pose proof (get_returned _ _ _ _ _ G) as [G1 G2].
    pose proof (save_returned _ _ _ _ S2) as Hc. rewrite G1 in Hc.
    symmetry in G2. apply getRecord_id in G2. destruct G2 as [Hid _].
    assert (E : App.handleRenameRecording dbGet dbSave key newName app st
                = (let app1 :=
                     App.setRecordings
                       (map (fun r => if str_eqb (id r) key
                                      then withName newName r else r)
                          (App.recordings app)) app in
                   if App.activeHasId key app
                   then App.setActiveRecording
                          (option_map (withName newName)
                             (App.activeRecording app1)) app1
                   else app1, st2)).
    { unfold App.handleRenameRecording. rewrite Htruthy, Ht, G, S2.
      reflexivity. }
    split; [rewrite E; reflexivity |].
    split; [rewrite Hc, <- Hid;
            exact (getRecord_putRecord_same (withName newName rec) _) |].
    split; [exact Hid |]. split; [reflexivity |]. split; [reflexivity |].
    split; [reflexivity |].
    split.
    + intros key' Hk'. rewrite Hc. apply getRecord_putRecord_other.
      cbn [id withName]. congruence.
    + unfold app'. rewrite E. cbn [fst].
      destruct (App.activeHasId key app); reflexivity.
  - intros G. split.
    + unfold App.handleRenameRecording. rewrite Htruthy, Ht, G. reflexivity.
    + apply (get_returned _ _ _ _ _ G).
Qed.

Lemma rename_handler_changes_the_name_only_witness :
  getRecord (id rec2024)
    (contents
       (snd (App.handleRenameRecording working working (id rec2024)
               (u16 "Budget") (listing [rec2025; rec2024])
               (stored [rec2024; rec2025]))))
  = Some (withName (u16 "Budget") rec2024).
Proof.
  pose proof (proj2 (rename_handler_changes_the_name_only working working
                       (id rec2024) (u16 "Budget") (listing [rec2025; rec2024])
                       (stored [rec2024; rec2025]))
                ltac:(vm_compute; discriminate) ltac:(vm_compute; reflexivity)
                (snd (getRecordingByIdFromDB working (id rec2024)
                        (stored [rec2024; rec2025])))) as [H _].
  specialize (H rec2024
                (snd (saveRecordingToDB working
                        (withName (u16 "Budget") rec2024)
                        (snd (getRecordingByIdFromDB working (id rec2024)
                                (stored [rec2024; rec2025])))))
                eq_refl eq_refl).
  destruct H as [H1 [H2 _]]. rewrite H1. exact H2.
Defined.

(** ** Opening a saved recording *)

(** X27. A recording that was saved can be opened from its entry in the
    list: the entry carries no audio blob, and selecting it loads the
    stored recording with the blob that was saved, under the permanent
    id, with the new object URL, and clears the pending upload; the store
    is left as it is. *)
Theorem select_after_save_loads_the_saved_audio
  (dbenv : DBEnv) (now : Z) (url : jsstring) (app : App.State)
  (st st1 : DBState) (a : Recording) (b : Blob) :
  App.activeRecording app = Some a ->
  startsWith (u16 "temp-") (id a) = true ->
  audioBlob a = Some b ->
  saveRecordingToDB dbenv (withId (toString now) a) st = (Returned tt, st1) ->
  let saved := App.handleSave dbenv now app st in
  let entry := omitAudioBlob (withId (toString now) a) in
  let opened := App.handleSelectRecording dbenv url entry (fst saved)
                  (snd saved) in
  hd_error (App.recordings (fst saved)) = Some entry
  /\ audioBlob entry = None
  /\ App.activeRecording (fst opened)
     = Some (withAudioUrl url (withId (toString now) a))
  /\ audioBlob (withAudioUrl url (withId (toString now) a)) = Some b
  /\ id (withAudioUrl url (withId (toString now) a)) = toString now
  /\ App.newAudioDetails (fst opened) = None
  /\ App.recordings (fst opened) = entry :: App.recordings app
  /\ snd opened = st1.
Proof.
  intros Ha Ht Hb S1 saved entry opened.
  assert (Es : saved
               = (App.setActiveRecording (Some (withId (toString now) a))
                    (App.setRecordings (entry :: App.recordings app) app),
                  st1)).
  { unfold saved, App.handleSave. rewrite Ha, Ht, Hb, S1. reflexivity. }
  pose proof (read_after_save _ _ _ _ S1) as [G _].
  assert (Eo : opened
               = (App.setNewAudioDetails None
                    (App.setActiveRecording
                       (Some (withAudioUrl url (withId (toString now) a)))
                       (fst saved)), st1)).
  { unfold opened, App.handleSelectRecording. rewrite Es. cbn [fst snd].
    change (id entry) with (id (withId (toString now) a)).
    rewrite G. cbn [audioBlob withId]. rewrite Hb. reflexivity. }
  rewrite Eo, Es. cbn [fst snd]. repeat split. exact Hb.
Qed.

Lemma select_after_save_loads_the_saved_audio_witness :
  App.activeRecording
    (fst (App.handleSelectRecording working (u16 "blob:2")
            (omitAudioBlob (withId (toString 1700000000000) tempRecording))
            (fst (App.handleSave working 1700000000000
                    (listing [tempRecording]) (stored [rec2024])))
            (snd (App.handleSave working 1700000000000
                    (listing [tempRecording]) (stored [rec2024])))))
  = Some (withAudioUrl (u16 "blob:2")
            (withId (toString 1700000000000) tempRecording)).
Proof.
  refine (proj1 (proj2 (proj2
    (select_after_save_loads_the_saved_audio working 1700000000000
       (u16 "blob:2") (listing [tempRecording]) (stored [rec2024])
       (snd (saveRecordingToDB working
               (withId (toString 1700000000000) tempRecording)
               (stored [rec2024])))
       tempRecording clip5 eq_refl eq_refl eq_refl eq_refl)))).
Defined.

(** ** Loading the list when the application starts *)

Lemma ids_omit (l : list Recording) :
  map id (map omitAudioBlob l) = map id l.
Proof. rewrite map_map. apply map_ext. intros r. reflexivity. Qed.

(** X28. Loading the recordings at start puts the list in step with the
    store: when the request resolves, the list holds the ids of the store,
    each entry without its audio blob, and nothing else of the state
    changes; when it rejects, the list is left as it was and the error
    text is set. The store is never changed. *)
Theorem loading_puts_the_list_in_step
  (dbenv : DBEnv) (getTime : jsstring -> number) (app : App.State)
  (st : DBState) :
  let loaded := loadRecordings dbenv getTime app st in
  contents (snd loaded) = contents st
  /\ (forall l, fst (getRecordingsFromDB dbenv getTime st) = Returned l ->
      synced (fst loaded) (snd loaded)
      /\ App.recordings (fst loaded) = l
      /\ Forall (fun r => audioBlob r = None) l
      /\ App.activeRecording (fst loaded) = App.activeRecording app
      /\ App.error (fst loaded) = App.error app
      /\ App.newAudioDetails (fst loaded) = App.newAudioDetails app
      /\ App.processingStatus (fst loaded) = App.processingStatus app)
  /\ (forall e, fst (getRecordingsFromDB dbenv getTime st) = Thrown e ->
      fst loaded
      = App.setError (Some (u16 "Could not load saved recordings.")) app).
Proof.
  intros loaded. unfold loaded, loadRecordings.
  rewrite getRecordingsFromDB_as_request.
  destruct (request dbenv (u16 "Error fetching recordings: ")
              (fun recs => (sort (compareByDate getTime)
                              (map omitAudioBlob recs), recs)) st)
    as [o st'] eqn:E.
  assert (Hc : contents st' = contents st).
  { destruct o as [l | e | |].
    - apply request_returned in E. cbn [fst snd] in E.
      destruct E as [_ [_ [Hs _]]]. unfold contents at 1. rewrite Hs.
      reflexivity.
    - eapply request_contents; [exact E | discriminate].
    - eapply request_contents; [exact E | discriminate].
    - eapply request_contents; [exact E | discriminate]. }
  split; [destruct o; exact Hc |].
  split.
  - intros l Hl. cbn [fst] in Hl. subst o.
    pose proof (request_returned _ _ _ _ _ _ E) as [_ [_ [_ Hl]]].
    cbn [fst snd] in Hl. cbn [fst snd]. subst l.
    split; [| split; [reflexivity | split; [| repeat split]]].
    + unfold synced. cbn [App.recordings App.setRecordings].
      rewrite Hc, <- (ids_omit (contents st)).
      apply Permutation_map. apply sort_perm.
    + apply (Forall_perm _ _ _ (Permutation_sym (sort_perm getTime _))).
      apply Forall_forall. intros r Hin. apply in_map_iff in Hin.
      destruct Hin as [x [<- _]]. reflexivity.
  - intros e He. cbn [fst] in He. subst o. reflexivity.
Qed.

Lemma loading_puts_the_list_in_step_witness :
  synced
    (fst (loadRecordings working isoGetTime (listing [])
            (stored [rec2024; rec2025])))
    (snd (loadRecordings working isoGetTime (listing [])
            (stored [rec2024; rec2025]))).
Proof.
  refine (proj1 (proj1 (proj2
    (loading_puts_the_list_in_step working isoGetTime (listing [])
       (stored [rec2024; rec2025]))) _ _)).
  vm_compute. reflexivity.
Defined.
